(** * claude-relay-service: API-key security utilities, health routes, the
      SQLite-backed key validation / usage accounting service, the
      monitoring service and the production configuration.

    A shallow embedding of

    - [src/utils/security.js]            (class [SecurityUtils], with its
                                          [RateLimiter]),
    - the health router                  ([GET /health], [GET /readiness]),
    - [src/services/databaseService.js]  (class [DatabaseService]),
    - [src/services/monitoringService.js] (class [MonitoringService]),
    - the production configuration       (what loading the module does),

    together with the parts of the JavaScript run time and of Node's
    [crypto], [Buffer] and [path] modules these functions call. *)

From Stdlib Require Import ZArith QArith List String Ascii DecimalString Lia Bool.
From Stdlib Require Import Qround Qpower Qabs Qreduction.
From stdpp Require Import gmap.
Import ListNotations.

Local Open Scope Z_scope.
Local Open Scope list_scope.

(* ===================================================================== *)
(** * JavaScript values and strings *)
(* ===================================================================== *)

Module Js.

(** A JavaScript string is a sequence of UTF-16 code units; [length] of the
    list is the string's [.length]. *)
Abbreviation jsstring := (list Z).

(** String literals of the development are written in ASCII. *)
Definition str (s : string) : jsstring :=
  List.map (fun a => Z.of_N (N_of_ascii a)) (list_ascii_of_string s).

(** Numbers: exact rationals, and [NaN]. The operations of this module do
    not round; [Float64] below has the rounding of IEEE doubles, for the
    arithmetic whose rounding a stored value shows. *)
Inductive number : Type :=
| NaN
| Num (q : Q).

#[local] Set Warnings "-register-all".
Inductive value : Type :=
| VUndefined
| VNull
| VBool (b : bool)
| VNumber (n : number)
| VString (s : jsstring)
| VObject (fields : list (jsstring * value)).

Inductive type_tag : Type :=
| TUndefined | TObject | TBoolean | TNumber | TString.

(** [typeof v] *)
Definition typeof (v : value) : type_tag :=
  match v with
  | VUndefined => TUndefined
  | VNull => TObject
  | VBool _ => TBoolean
  | VNumber _ => TNumber
  | VString _ => TString
  | VObject _ => TObject
  end.

(** [ToBoolean v], the test behind [!v], [v ? a : b] and [v || w]. *)
Definition truthy (v : value) : bool :=
  match v with
  | VUndefined | VNull => false
  | VBool b => b
  | VNumber NaN => false
  | VNumber (Num q) => negb (Qeq_bool q 0)
  | VString s => match s with [] => false | _ => true end
  | VObject _ => true
  end.

(** [a || b] *)
Definition or_else (a b : value) : value := if truthy a then a else b.

(** [a === true] *)
Definition strict_eq_true (a : value) : bool :=
  match a with VBool true => true | _ => false end.

Definition jsstring_eqb (a b : jsstring) : bool :=
  bool_decide (a = b).

(** Own-property lookup in an object literal. *)
Fixpoint lookup_field (k : jsstring) (fs : list (jsstring * value)) : value :=
  match fs with
  | [] => VUndefined
  | (k', v) :: fs' => if jsstring_eqb k k' then v else lookup_field k fs'
  end.

(** Completion of an expression: a value, or a thrown error with its
    [message]. *)
Inductive result (A : Type) : Type :=
| Ok (a : A)
| Throw (message : jsstring).
Arguments Ok {A} a.
Arguments Throw {A} message.

Definition bind {A B : Type} (r : result A) (k : A -> result B) : result B :=
  match r with
  | Ok a => k a
  | Throw m => Throw m
  end.

(** [try { r } catch (error) { h error.message }] *)
Definition try_catch {A : Type} (r : result A) (h : jsstring -> A) : A :=
  match r with
  | Ok a => a
  | Throw m => h m
  end.

(** The message of the [TypeError] for a property read on [undefined] or
    [null]. *)
Definition cannot_read (what k : jsstring) : jsstring :=
  str "Cannot read properties of " ++ what ++ str " (reading '" ++ k ++ str "')".

(** [o.k]: a [TypeError] on [undefined] and [null], [undefined] on the other
    primitives (none of the property names used here is defined on their
    prototypes). *)
Definition get (o : value) (k : jsstring) : result value :=
  match o with
  | VUndefined => Throw (cannot_read (str "undefined") k)
  | VNull => Throw (cannot_read (str "null") k)
  | VObject fs => Ok (lookup_field k fs)
  | _ => Ok VUndefined
  end.

(** [o?.k] *)
Definition get_opt (o : value) (k : jsstring) : value :=
  match o with
  | VUndefined | VNull => VUndefined
  | VObject fs => lookup_field k fs
  | _ => VUndefined
  end.

(** ** String methods *)

(** [s.startsWith(p)] *)
Fixpoint startsWith (s p : jsstring) : bool :=
  match p, s with
  | [], _ => true
  | _ :: _, [] => false
  | a :: p', b :: s' => (a =? b) && startsWith s' p'
  end.

(** [s.substring(n)] for [0 <= n] *)
Definition substring (n : nat) (s : jsstring) : jsstring := skipn n s.

(** [s.split(c)[0]]: the part of [s] before the first [c]. *)
Fixpoint before (c : Z) (s : jsstring) : jsstring :=
  match s with
  | [] => []
  | x :: s' => if x =? c then [] else x :: before c s'
  end.

(** The decimal numeral of an integer, as a template literal prints it. *)
Definition of_Z (n : Z) : jsstring := str (NilEmpty.string_of_int (Z.to_int n)).

(** [Math.max(a, b)] on numbers that are not [NaN]. *)
Definition Math_max (a b : Q) : Q := if Qle_bool a b then b else a.

(** ** UTF-8 encoding, as done by [Buffer.from(s)] and [Buffer.byteLength(s)] *)

Definition is_high_surrogate (c : Z) : bool := (0xD800 <=? c) && (c <=? 0xDBFF).
Definition is_low_surrogate (c : Z) : bool := (0xDC00 <=? c) && (c <=? 0xDFFF).

Definition utf8_2 (c : Z) : list Z :=
  [Z.lor 0xC0 (Z.shiftr c 6); Z.lor 0x80 (Z.land c 0x3F)].

Definition utf8_3 (c : Z) : list Z :=
  [Z.lor 0xE0 (Z.shiftr c 12);
   Z.lor 0x80 (Z.land (Z.shiftr c 6) 0x3F);
   Z.lor 0x80 (Z.land c 0x3F)].

Definition utf8_4 (c : Z) : list Z :=
  [Z.lor 0xF0 (Z.shiftr c 18);
   Z.lor 0x80 (Z.land (Z.shiftr c 12) 0x3F);
   Z.lor 0x80 (Z.land (Z.shiftr c 6) 0x3F);
   Z.lor 0x80 (Z.land c 0x3F)].

(** U+FFFD, written for every unpaired surrogate. *)
Definition utf8_replacement : list Z := [0xEF; 0xBF; 0xBD].

Definition code_point (hi lo : Z) : Z :=
  0x10000 + Z.shiftl (hi - 0xD800) 10 + (lo - 0xDC00).

Fixpoint utf8_encode (s : jsstring) : list Z :=
  match s with
  | [] => []
  | c :: rest =>
      if c <? 0x80 then c :: utf8_encode rest
      else if c <? 0x800 then utf8_2 c ++ utf8_encode rest
      else if is_high_surrogate c then
        match rest with
        | d :: rest' =>
            if is_low_surrogate d
            then utf8_4 (code_point c d) ++ utf8_encode rest'
            else utf8_replacement ++ utf8_encode rest
        | [] => utf8_replacement
        end
      else if is_low_surrogate c then utf8_replacement ++ utf8_encode rest
      else utf8_3 c ++ utf8_encode rest
  end.

(** [Buffer.from(s)] *)
Definition Buffer_from (s : jsstring) : list Z := utf8_encode s.

(** [Buffer.byteLength(s)] *)
Definition Buffer_byteLength (s : jsstring) : nat := List.length (utf8_encode s).

(** [buf.toString('hex')] *)
Definition hex_digit (n : Z) : Z :=
  if n <? 10 then 48 + n else 87 + n.

Definition hex_byte (b : Z) : jsstring :=
  [hex_digit (Z.shiftr b 4); hex_digit (Z.land b 0xF)].

Definition toString_hex (buf : list Z) : jsstring :=
  List.concat (List.map hex_byte buf).

Definition is_hex_char (c : Z) : bool :=
  ((48 <=? c) && (c <=? 57)) || ((97 <=? c) && (c <=? 102)).

End Js.

(* ------------------------------------------------------------------ *)
(** * IEEE 754 binary64 arithmetic

    A JavaScript number is a double: 53 binary digits, the exponent of the
    last digit from -1074 up. A finite double is the rational it denotes,
    and an operation gives the double nearest to the exact result, the one
    with the even last digit when two are as near. Overflow to [Infinity],
    [NaN] and the sign of zero are left out: a quotient by 100 of a double
    and a sum of safe integers stay below [2 ^ 1024]. *)

Module Float64.

(** [floor (log2 a)] for a positive rational [a] *)
Definition ilog2 (a : Q) : Z :=
  let k := Z.log2 (Qnum a) - Z.log2 (Zpos (Qden a)) in
  if Qle_bool (2 ^ k) a then k else k - 1.

(** The integer nearest to [y], the even one when two are as near. *)
Definition nearest_even (y : Q) : Z :=
  let f := Qfloor y in
  match (y - inject_Z f ?= 1 # 2)%Q with
  | Lt => f
  | Gt => f + 1
  | Eq => if Z.even f then f else f + 1
  end.

(** The exponent of the last digit of the double nearest to [a]: 52 binary
    places below the leading one, and never below that of the subnormal
    numbers. *)
Definition exponent (a : Q) : Z := Z.max (ilog2 a - 52) (- 1074).

(** The double nearest to [x], ties to even. *)
Definition round (x : Q) : Q :=
  if Qeq_bool x 0 then 0%Q
  else
    let a := Qabs x in
    let e := exponent a in
    let m := nearest_even (a / 2 ^ e) in
    Qred ((if Qle_bool 0 x then 1 else - (1)) * inject_Z m * 2 ^ e).

(** [x / y] on doubles, for [y] other than 0 *)
Definition div (x y : Q) : Q := round (x / y).

(** [a + b] on doubles that are integers; the result is an integer too. *)
Definition plus (a b : Z) : Z := Qfloor (round (inject_Z (a + b))).



End Float64.

(* ===================================================================== *)
(** * Node's [crypto] module: SHA-2, HMAC, PBKDF2, [timingSafeEqual] *)
(* ===================================================================== *)

Module Crypto.

(** ** The SHA-2 family (FIPS 180-4), on words of [wbits] bits held in [Z] *)

Record regs : Type := Regs {
  ra : Z; rb : Z; rc : Z; rd : Z; re : Z; rf : Z; rg : Z; rh : Z
}.

Record sha2_params : Type := {
  wbits : Z;                 (* word size: 32 or 64 *)
  nrounds : nat;             (* 64 or 80 *)
  Kc : list Z;               (* round constants *)
  Hinit : regs;              (* initial hash value *)
  Sig0 : Z * Z * Z;          (* rotations of the upper-case sigmas *)
  Sig1 : Z * Z * Z;
  sig0 : Z * Z * Z;          (* two rotations and a shift *)
  sig1 : Z * Z * Z
}.

Section Sha2.
Variable p : sha2_params.

Definition wrap (x : Z) : Z := Z.land x (Z.ones (wbits p)).
Definition add (x y : Z) : Z := wrap (x + y).
Definition rotr (n x : Z) : Z :=
  Z.lor (Z.shiftr x n) (wrap (Z.shiftl x (wbits p - n))).
Definition neg (x : Z) : Z := Z.lxor x (Z.ones (wbits p)).

Definition Ch (x y z : Z) : Z := Z.lxor (Z.land x y) (Z.land (neg x) z).
Definition Maj (x y z : Z) : Z :=
  Z.lxor (Z.lxor (Z.land x y) (Z.land x z)) (Z.land y z).

Definition big_sigma (r : Z * Z * Z) (x : Z) : Z :=
  let '(a, b, c) := r in Z.lxor (Z.lxor (rotr a x) (rotr b x)) (rotr c x).
Definition small_sigma (r : Z * Z * Z) (x : Z) : Z :=
  let '(a, b, c) := r in Z.lxor (Z.lxor (rotr a x) (rotr b x)) (Z.shiftr x c).

Definition word_bytes : nat := Z.to_nat (wbits p / 8).
Definition block_bytes : nat := (16 * word_bytes)%nat.
Definition length_bytes : nat := (2 * word_bytes)%nat.

(** Big-endian conversions. *)
Fixpoint be_bytes (n : nat) (x : Z) : list Z :=
  match n with
  | O => []
  | S n' => Z.land (Z.shiftr x (8 * Z.of_nat n')) 0xFF :: be_bytes n' x
  end.

Definition be_word (bs : list Z) : Z :=
  fold_left (fun acc b => acc * 256 + b) bs 0.

Fixpoint chunks (n fuel : nat) (l : list Z) : list (list Z) :=
  match fuel with
  | O => []
  | S fuel' =>
      match l with
      | [] => []
      | _ => firstn n l :: chunks n fuel' (skipn n l)
      end
  end.

(** Padding: a one bit, zeros, and the bit length of the message. *)
Definition pad (msg : list Z) : list Z :=
  let len := List.length msg in
  let B := block_bytes in
  let k := ((B - (len + 1 + length_bytes) mod B) mod B)%nat in
  msg ++ [0x80] ++ repeat 0 k ++ be_bytes length_bytes (8 * Z.of_nat len).

(** Message schedule. *)
Fixpoint extend (n : nat) (W : list Z) : list Z :=
  match n with
  | O => W
  | S n' =>
      let t := List.length W in
      let x := add (add (small_sigma (sig1 p) (nth (t - 2) W 0)) (nth (t - 7) W 0))
                   (add (small_sigma (sig0 p) (nth (t - 15) W 0)) (nth (t - 16) W 0)) in
      extend n' (W ++ [x])
  end.

Definition schedule (block : list Z) : list Z :=
  extend (nrounds p - 16) (List.map be_word (chunks word_bytes 16 block)).

Definition round (s : regs) (kw : Z * Z) : regs :=
  let '(k, wt) := kw in
  let T1 := wrap (rh s + big_sigma (Sig1 p) (re s) + Ch (re s) (rf s) (rg s) + k + wt) in
  let T2 := add (big_sigma (Sig0 p) (ra s)) (Maj (ra s) (rb s) (rc s)) in
  {| ra := add T1 T2; rb := ra s; rc := rb s; rd := rc s;
     re := add (rd s) T1; rf := re s; rg := rf s; rh := rg s |}.

Definition regs_add (x y : regs) : regs :=
  {| ra := add (ra x) (ra y); rb := add (rb x) (rb y);
     rc := add (rc x) (rc y); rd := add (rd x) (rd y);
     re := add (re x) (re y); rf := add (rf x) (rf y);
     rg := add (rg x) (rg y); rh := add (rh x) (rh y) |}.

Definition compress (H : regs) (block : list Z) : regs :=
  regs_add H (fold_left round (combine (Kc p) (schedule block)) H).

Definition regs_bytes (H : regs) : list Z :=
  be_bytes word_bytes (ra H) ++ be_bytes word_bytes (rb H) ++
  be_bytes word_bytes (rc H) ++ be_bytes word_bytes (rd H) ++
  be_bytes word_bytes (re H) ++ be_bytes word_bytes (rf H) ++
  be_bytes word_bytes (rg H) ++ be_bytes word_bytes (rh H).

Definition sha2 (msg : list Z) : list Z :=
  let padded := pad msg in
  regs_bytes (fold_left compress (chunks block_bytes (List.length padded) padded) (Hinit p)).

(** ** HMAC (RFC 2104) and PBKDF2 (RFC 8018) over this hash *)

Definition hmac_key (key : list Z) : list Z :=
  let k := if (block_bytes <? List.length key)%nat then sha2 key else key in
  k ++ repeat 0 (block_bytes - List.length k).

Definition hmac (key msg : list Z) : list Z :=
  let k := hmac_key key in
  sha2 (List.map (Z.lxor 0x5C) k ++ sha2 (List.map (Z.lxor 0x36) k ++ msg)).

Fixpoint xor_bytes (a b : list Z) : list Z :=
  match a, b with
  | x :: a', y :: b' => Z.lxor x y :: xor_bytes a' b'
  | _, _ => []
  end.

(** [pbkdf2_iter n u t]: [n] more applications of the PRF, [u] the last
    output and [t] the running exclusive-or. *)
Fixpoint pbkdf2_iter (password : list Z) (n : nat) (u t : list Z) : list Z :=
  match n with
  | O => t
  | S n' => let u' := hmac password u in
            pbkdf2_iter password n' u' (xor_bytes t u')
  end.

Definition pbkdf2_block (password salt : list Z) (c : nat) (i : Z) : list Z :=
  let u1 := hmac password (salt ++ be_bytes 4 i) in
  pbkdf2_iter password (c - 1) u1 u1.

Fixpoint pbkdf2_blocks (password salt : list Z) (c : nat) (l : nat) (i : Z) : list Z :=
  match l with
  | O => []
  | S l' => pbkdf2_block password salt c i ++ pbkdf2_blocks password salt c l' (i + 1)
  end.

Definition hash_bytes : nat := (8 * word_bytes)%nat.

Definition pbkdf2 (password salt : list Z) (c : nat) (dkLen : nat) : list Z :=
  let l := ((dkLen + hash_bytes - 1) / hash_bytes)%nat in
  firstn dkLen (pbkdf2_blocks password salt c l 1).

End Sha2.

(** The constants (FIPS 180-4, 4.2.2, 4.2.3, 5.3.3 and 5.3.5): the first
    [w] bits of the fractional parts of the cube roots of the first primes
    are the round constants, and of the square roots of the first eight primes
    the initial hash value. *)

Definition is_prime (n : Z) : bool :=
  (2 <=? n) &&
  forallb (fun d => negb (n mod d =? 0))
    (List.filter (fun d => d * d <=? n) (List.map Z.of_nat (List.seq 2 (Z.to_nat n - 2)))).

Definition first_primes (count : nat) : list Z :=
  firstn count (List.filter is_prime (List.map Z.of_nat (List.seq 2 420))).

(** The largest [r] below [2 ^ bits] with [r ^ k <= x], found bit by bit. *)
Fixpoint int_root (k x : Z) (bits : nat) (r : Z) : Z :=
  match bits with
  | O => r
  | S b =>
      let r' := r + Z.shiftl 1 (Z.of_nat b) in
      int_root k x b (if r' ^ k <=? x then r' else r)
  end.

Definition root_fraction (k w prime : Z) : Z :=
  Z.land (int_root k (Z.shiftl prime (k * w)) (Z.to_nat (w + 8)) 0) (Z.ones w).

Definition regs_of_list (l : list Z) : regs :=
  Regs (nth 0 l 0) (nth 1 l 0) (nth 2 l 0) (nth 3 l 0)
       (nth 4 l 0) (nth 5 l 0) (nth 6 l 0) (nth 7 l 0).

Definition K256 : list Z :=
  Eval vm_compute in List.map (root_fraction 3 32) (first_primes 64).
Definition H256 : regs :=
  Eval vm_compute in regs_of_list (List.map (root_fraction 2 32) (first_primes 8)).
Definition K512 : list Z :=
  Eval vm_compute in List.map (root_fraction 3 64) (first_primes 80).
Definition H512 : regs :=
  Eval vm_compute in regs_of_list (List.map (root_fraction 2 64) (first_primes 8)).

Definition sha256_params : sha2_params := {|
  wbits := 32;
  nrounds := 64;
  Kc := K256;
  Hinit := H256;
  Sig0 := (2, 13, 22); Sig1 := (6, 11, 25);
  sig0 := (7, 18, 3);  sig1 := (17, 19, 10)
|}.

Definition sha512_params : sha2_params := {|
  wbits := 64;
  nrounds := 80;
  Kc := K512;
  Hinit := H512;
  Sig0 := (28, 34, 39); Sig1 := (14, 18, 41);
  sig0 := (1, 8, 7);    sig1 := (19, 61, 6)
|}.

(** [crypto.createHash('sha256').update(s).digest('hex')]; [update] encodes
    a string argument as UTF-8. *)
Definition sha256 : list Z -> list Z := sha2 sha256_params.
Definition sha512 : list Z -> list Z := sha2 sha512_params.

Definition sha256_hex (s : Js.jsstring) : Js.jsstring :=
  Js.toString_hex (sha256 (Js.utf8_encode s)).

(** [crypto.pbkdf2Sync(password, salt, iterations, keylen, 'sha512')] with
    string [password] and [salt] (encoded as UTF-8). *)
Definition pbkdf2Sync_sha512 (password salt : Js.jsstring) (iterations keylen : nat) : list Z :=
  pbkdf2 sha512_params (Js.utf8_encode password) (Js.utf8_encode salt) iterations keylen.

(** [crypto.timingSafeEqual(a, b)]: throws ([None]) when the byte lengths
    differ; otherwise accumulates the exclusive-or of every pair of bytes and
    tests the accumulator once, as OpenSSL's [CRYPTO_memcmp] does. *)
Fixpoint memcmp_acc (acc : Z) (a b : list Z) : Z :=
  match a, b with
  | x :: a', y :: b' => memcmp_acc (Z.lor acc (Z.lxor x y)) a' b'
  | _, _ => acc
  end.

(** The elements of a [Buffer]. *)
Definition is_byte (b : Z) : Prop := 0 <= b < 256.

Definition timingSafeEqual (a b : list Z) : option bool :=
  if (List.length a =? List.length b)%nat
  then Some (memcmp_acc 0 a b =? 0)
  else None.

End Crypto.

(* ===================================================================== *)
(** * Regular expressions *)
(* ===================================================================== *)

Module Regex.

(** The fragment of regular expressions that the key-format guard is written
    in: literals, character classes given by ranges, sequence, alternation
    and counted repetition [{lo,hi}] ([+] is [{1,}]). *)
Inductive re : Type :=
| Eps
| Chr (c : Z)
| Cls (ranges : list (Z * Z))
| Seq (a b : re)
| Alt (a b : re)
| Rep (lo : nat) (hi : option nat) (a : re).

Definition in_ranges (c : Z) (rs : list (Z * Z)) : bool :=
  existsb (fun r => (fst r <=? c) && (c <=? snd r)) rs.

Definition at_most (n : nat) (hi : option nat) : Prop :=
  match hi with
  | Some h => (n <= h)%nat
  | None => True
  end.

(** [matches r s]: the whole of [s] is a word of [r], which is how an
    expression anchored by [^] and [$] (without the [m] flag) is tested. *)
Fixpoint matches (r : re) (s : Js.jsstring) : Prop :=
  match r with
  | Eps => s = []
  | Chr c => s = [c]
  | Cls rs => exists c, s = [c] /\ in_ranges c rs = true
  | Seq a b => exists s1 s2, s = s1 ++ s2 /\ matches a s1 /\ matches b s2
  | Alt a b => matches a s \/ matches b s
  | Rep lo hi a =>
      exists ss, s = List.concat ss /\ (lo <= List.length ss)%nat /\
                 at_most (List.length ss) hi /\ List.Forall (matches a) ss
  end.

Fixpoint lit (s : Js.jsstring) : re :=
  match s with
  | [] => Eps
  | c :: s' => Seq (Chr c) (lit s')
  end.

(** [[A-Za-z0-9_]] *)
Definition word_class : re := Cls [(65, 90); (97, 122); (48, 57); (95, 95)].

(** The guard of the specification:
    [^(sk_|cr_|pk_)[A-Za-z0-9_]{17,253}$] *)
Definition guard : re :=
  Seq (Alt (lit (Js.str "sk_")) (Alt (lit (Js.str "cr_")) (lit (Js.str "pk_"))))
      (Rep 17 (Some 253%nat) word_class).

(** The expression of the source: [/^[a-zA-Z0-9_]+$/] *)
Definition key_part : re :=
  Rep 1 None (Cls [(97, 122); (65, 90); (48, 57); (95, 95)]).

End Regex.

(* ===================================================================== *)
(** * [src/utils/security.js] *)
(* ===================================================================== *)

Module SecurityUtils.
Import Js.

Definition is_string (v : value) : bool :=
  match typeof v with TString => true | _ => false end.

(** [static constantTimeCompare(a, b)] *)
Definition constantTimeCompare (a b : value) : bool :=
  if negb (is_string a) || negb (is_string b) then false
  else
    match a, b with
    | VString sa, VString sb =>
        let lengthA := Buffer_byteLength sa in
        let lengthB := Buffer_byteLength sb in
        if negb (lengthA =? lengthB)%nat then false
        else
          let bufferA := Buffer_from sa in
          let bufferB := Buffer_from sb in
          match Crypto.timingSafeEqual bufferA bufferB with
          | Some r => r
          | None => false            (* catch *)
          end
    | _, _ => false
    end.

Record hashed : Type := { hash : jsstring; salt : jsstring }.

(** [static hashApiKey(apiKey, salt = null)]. [random16] is what
    [crypto.randomBytes(16)] returns on this call; [None] is a [null] or
    omitted salt. *)
Definition hashApiKey (random16 : list Z) (apiKey : jsstring) (salt0 : option jsstring)
  : hashed :=
  let salt1 :=
    match salt0 with
    | Some s => if truthy (VString s) then s else toString_hex random16
    | None => toString_hex random16
    end in
  let hash1 := toString_hex (Crypto.pbkdf2Sync_sha512 apiKey salt1 (Z.to_nat 10000) 64) in
  {| hash := hash1; salt := salt1 |}.

(** [static verifyApiKey(apiKey, hash, salt)] *)
Definition verifyApiKey (apiKey hash0 salt0 : jsstring) : bool :=
  let computedHash := toString_hex (Crypto.pbkdf2Sync_sha512 apiKey salt0 (Z.to_nat 10000) 64) in
  constantTimeCompare (VString computedHash) (VString hash0).

Definition validPrefixes : list jsstring := [str "sk_"; str "cr_"; str "pk_"].

Definition is_key_char (c : Z) : bool :=
  ((97 <=? c) && (c <=? 122)) || ((65 <=? c) && (c <=? 90))
  || ((48 <=? c) && (c <=? 57)) || (c =? 95).

(** [/^[a-zA-Z0-9_]+$/.test(s)]: one or more characters, each of the class,
    and nothing else up to the end of the input. *)
Definition key_part_test (s : jsstring) : bool :=
  match s with
  | [] => false
  | _ :: _ => forallb is_key_char s
  end.

(** [static isValidApiKeyFormat(apiKey)] *)
Definition isValidApiKeyFormat (apiKey : value) : bool :=
  if negb (truthy apiKey) || negb (is_string apiKey) then false
  else
    match apiKey with
    | VString s =>
        if (List.length s <? 20)%nat || (256 <? List.length s)%nat then false
        else
          let hasValidPrefix := existsb (fun prefix => startsWith s prefix) validPrefixes in
          if negb hasValidPrefix then false
          else
            let keyPart := substring 3 s in
            if negb (key_part_test keyPart) then false
            else true
    | _ => false
    end.

(** What the function computes on a string, in words: a listed prefix, then
    17 to 253 characters of the class. *)
Definition well_formed_key (s : jsstring) : Prop :=
  exists prefix rest,
    s = prefix ++ rest /\
    List.In prefix validPrefixes /\
    (17 <= List.length rest <= 253)%nat /\
    List.Forall (fun c => is_key_char c = true) rest.

End SecurityUtils.

(* ===================================================================== *)
(** * The health router: [GET /readiness] *)
(* ===================================================================== *)

Module HealthRoutes.
Import Js.

(** What [res.status(code).json(body)] sends. *)
Record response : Type := { status : Z; body : value }.

(** The handler of [router.get('/readiness', ...)]. [healthStatus] is the
    value of [monitoringService.healthStatus] when the request arrives,
    [timestamp] the value of [new Date().toISOString()]. *)
Definition readiness (healthStatus : value) (timestamp : jsstring) : response :=
  try_catch
    (let health := healthStatus in
     bind (get health (str "services")) (fun services =>
     bind (get services (str "redis")) (fun redis =>
     (* Service is ready if Redis is healthy *)
     let isReady := strict_eq_true (get_opt redis (str "healthy")) in
     bind (get services (str "database")) (fun database =>
     Ok {| status := if isReady then 200 else 503;
           body := VObject
             [(str "ready", VBool isReady);
              (str "timestamp", VString timestamp);
              (str "redis", or_else (get_opt redis (str "healthy")) (VBool false));
              (str "database", or_else (get_opt database (str "healthy")) (VBool false))]
        |}))))
    (fun message =>
       {| status := 503;
          body := VObject [(str "ready", VBool false); (str "error", VString message)] |}).

(** The [ready] member of the body that was sent. *)
Definition ready (r : response) : value := get_opt (body r) (str "ready").

(** [healthStatus.services.redis.healthy === true], with no error on the
    way: Redis is currently reported healthy. *)
Definition redis_reported_healthy (healthStatus : value) : Prop :=
  exists hfields sfields rfields,
    healthStatus = VObject hfields /\
    lookup_field (str "services") hfields = VObject sfields /\
    lookup_field (str "redis") sfields = VObject rfields /\
    lookup_field (str "healthy") rfields = VBool true.

(** The value the constructor of [MonitoringService] gives [healthStatus]. *)
Definition service_entry (healthy : bool) : value :=
  VObject [(str "healthy", VBool healthy); (str "lastCheck", VNull); (str "message", VNull)].

Definition initial_healthStatus : value :=
  VObject
    [(str "healthy", VBool true);
     (str "lastCheck", VNull);
     (str "services",
       VObject [(str "redis", service_entry false);
                (str "database", service_entry false);
                (str "memory", service_entry true);
                (str "api", service_entry true)])].

(** [healthStatus] after [checkRedis] has stored its verdict. *)
Definition with_redis (healthy : bool) : value :=
  VObject
    [(str "healthy", VBool healthy);
     (str "lastCheck", VNull);
     (str "services",
       VObject [(str "redis", service_entry healthy);
                (str "database", service_entry true);
                (str "memory", service_entry true);
                (str "api", service_entry true)])].

End HealthRoutes.

(* ===================================================================== *)
(** * [src/services/databaseService.js] *)
(* ===================================================================== *)

Module DatabaseService.
Import Js.

(** ** The tables of the shared SQLite database

    Only the columns that the prepared statements read or write. Tables are
    lists of rows in storage order, except [usage_daily], whose upsert is
    [ON CONFLICT(user_id, date)]: that pair is a unique key of the table. *)

Record token_row : Type := {
  t_id : Z;
  t_user_id : Z;
  t_name : jsstring;
  t_token : jsstring;              (* the stored hash of the key *)
  t_created_at : jsstring;
  t_last_used : option jsstring    (* NULL until first use *)
}.

Record user_row : Type := {
  u_id : Z;
  u_email : jsstring;
  u_name : jsstring
}.

Record credit_row : Type := {
  c_user_id : Z;
  c_balance : Q;
  c_daily_allocation : Q;
  c_last_updated : option jsstring
}.

Record usage_log_row : Type := {
  l_user_id : Z;
  l_token_id : Z;
  l_model : jsstring;
  l_input_tokens : Z;
  l_output_tokens : Z;
  l_cache_creation_tokens : Z;
  l_cache_read_tokens : Z;
  l_total_tokens : Z;
  l_cost : Q;
  l_request_id : option jsstring;
  l_endpoint : jsstring;
  l_status_code : Z
}.

Record daily_row : Type := {
  d_total_input_tokens : Z;
  d_total_output_tokens : Z;
  d_total_cache_creation_tokens : Z;
  d_total_cache_read_tokens : Z;
  d_total_cost : Q;
  d_request_count : Z;
  d_updated_at : option jsstring   (* set by the upsert's UPDATE branch only *)
}.

Record database : Type := {
  tokens : list token_row;
  users : list user_row;
  credits : list credit_row;
  usage_logs : list usage_log_row;
  usage_daily : gmap (Z * list Z) daily_row   (* keyed by (user_id, date) *)
}.

(** A callback handed to [setImmediate]. *)
Inductive task : Type :=
| UpdateLastUsed (id : Z).

(** The service object: [this.db] ([None] before [initialize] succeeds) and
    the callbacks queued for a later turn of the event loop. *)
Record service : Type := {
  db : option database;
  immediates : list task
}.

(** The clock: [new Date().toISOString()] and SQLite's [datetime('now')]. *)
Record clock : Type := {
  iso_now : jsstring;
  sql_now : jsstring
}.

(** ** Prepared statements *)

(** A row of the [getTokenByHash] query. *)
Record token_info : Type := {
  ti_id : Z;
  ti_user_id : Z;
  ti_name : jsstring;
  ti_created_at : jsstring;
  ti_last_used : option jsstring;
  ti_user_email : jsstring;
  ti_user_name : jsstring;
  ti_credits_balance : option Q;
  ti_daily_allocation : option Q;
  ti_last_updated : option jsstring
}.

Definition join_row (t : token_row) (u : user_row) (c : option credit_row) : token_info := {|
  ti_id := t_id t;
  ti_user_id := t_user_id t;
  ti_name := t_name t;
  ti_created_at := t_created_at t;
  ti_last_used := t_last_used t;
  ti_user_email := u_email u;
  ti_user_name := u_name u;
  ti_credits_balance := option_map c_balance c;
  ti_daily_allocation := option_map c_daily_allocation c;
  ti_last_updated := match c with Some c' => c_last_updated c' | None => None end
|}.

(** [LEFT JOIN]: every matching row, or one all-NULL row when none matches. *)
Definition left_join {A : Type} (matching : list A) : list (option A) :=
  match matching with
  | [] => [None]
  | _ => List.map Some matching
  end.

(** [FROM tokens t JOIN users u ON t.user_id = u.id
     LEFT JOIN credits c ON u.id = c.user_id WHERE t.token = ?] *)
Definition getTokenByHash_rows (d : database) (hashedToken : jsstring) : list token_info :=
  List.flat_map (fun t =>
    List.flat_map (fun u =>
      List.flat_map (fun c =>
        if jsstring_eqb (t_token t) hashedToken then [join_row t u c] else [])
        (left_join (List.filter (fun c => u_id u =? c_user_id c) (credits d))))
      (List.filter (fun u => t_user_id t =? u_id u) (users d)))
    (tokens d).

(** [statement.get(...)]: the first row, or [undefined]. *)
Definition getTokenByHash (d : database) (hashedToken : jsstring) : option token_info :=
  List.head (getTokenByHash_rows d hashedToken).

(** [UPDATE tokens SET last_used = datetime('now') WHERE id = ?] *)
Definition updateLastUsed (now : clock) (id : Z) (d : database) : database := {|
  tokens := List.map (fun t =>
    if t_id t =? id
    then {| t_id := t_id t; t_user_id := t_user_id t; t_name := t_name t;
            t_token := t_token t; t_created_at := t_created_at t;
            t_last_used := Some (sql_now now) |}
    else t) (tokens d);
  users := users d;
  credits := credits d;
  usage_logs := usage_logs d;
  usage_daily := usage_daily d
|}.

(** [SELECT balance, daily_allocation, last_updated FROM credits
     WHERE user_id = ?] *)
Definition getUserCredits (d : database) (userId : Z) : option credit_row :=
  List.find (fun c => c_user_id c =? userId) (credits d).

(** [UPDATE credits SET balance = ? WHERE user_id = ?] *)
Definition updateCreditsBalance (newBalance : Q) (userId : Z) (d : database) : database := {|
  tokens := tokens d;
  users := users d;
  credits := List.map (fun c =>
    if c_user_id c =? userId
    then {| c_user_id := c_user_id c; c_balance := newBalance;
            c_daily_allocation := c_daily_allocation c;
            c_last_updated := c_last_updated c |}
    else c) (credits d);
  usage_logs := usage_logs d;
  usage_daily := usage_daily d
|}.

(** [INSERT INTO usage_logs (...) VALUES (...)] *)
Definition insertUsageLog (row : usage_log_row) (d : database) : database := {|
  tokens := tokens d;
  users := users d;
  credits := credits d;
  usage_logs := usage_logs d ++ [row];
  usage_daily := usage_daily d
|}.

(** [INSERT INTO usage_daily (...) VALUES (...)
     ON CONFLICT(user_id, date) DO UPDATE SET
       total_x = total_x + excluded.total_x, ..., updated_at = datetime('now')]

    The token totals and the request count are integers. [total_cost] is
    the sum of the two costs as rationals: SQLite adds them as doubles and
    stores the double nearest to that sum. *)
Definition upsert_daily (now : clock) (excluded : daily_row) (old : option daily_row) : daily_row :=
  match old with
  | None => excluded
  | Some r => {|
      d_total_input_tokens := d_total_input_tokens r + d_total_input_tokens excluded;
      d_total_output_tokens := d_total_output_tokens r + d_total_output_tokens excluded;
      d_total_cache_creation_tokens :=
        d_total_cache_creation_tokens r + d_total_cache_creation_tokens excluded;
      d_total_cache_read_tokens :=
        d_total_cache_read_tokens r + d_total_cache_read_tokens excluded;
      d_total_cost := (d_total_cost r + d_total_cost excluded)%Q;
      d_request_count := d_request_count r + d_request_count excluded;
      d_updated_at := Some (sql_now now)
    |}
  end.

Definition updateDailyUsage (now : clock) (user_id : Z) (date : jsstring)
    (input output cache_creation cache_read : Z) (cost : Q) (count : Z)
    (d : database) : database :=
  let excluded := {|
    d_total_input_tokens := input;
    d_total_output_tokens := output;
    d_total_cache_creation_tokens := cache_creation;
    d_total_cache_read_tokens := cache_read;
    d_total_cost := cost;
    d_request_count := count;
    d_updated_at := None |} in
  {| tokens := tokens d;
     users := users d;
     credits := credits d;
     usage_logs := usage_logs d;
     usage_daily :=
       <[(user_id, date) := upsert_daily now excluded (usage_daily d !! (user_id, date))]>
         (usage_daily d) |}.

(** ** [validateApiKey] *)

Record credits_info : Type := {
  balance : Q;
  dailyAllocation : Q;
  lastUpdated : option jsstring
}.

Record limits_info : Type := {
  maxTokensPerMinute : Z;
  maxRequestsPerMinute : Z;
  maxConcurrentRequests : Z;
  dailyCostLimit : Q
}.

Record key_info : Type := {
  id : jsstring;
  userId : Z;
  name : jsstring;
  userEmail : jsstring;
  userName : jsstring;
  active : bool;
  createdAt : jsstring;
  lastUsed : option jsstring;
  credits_of : credits_info;
  limits : limits_info
}.

(** Truthiness of a nullable number column. *)
Definition truthy_number (x : option Q) : bool :=
  match x with
  | Some q => truthy (VNumber (Num q))
  | None => false
  end.

(** [x || 0] *)
Definition or_zero (x : option Q) : Q :=
  match x with
  | Some q => if truthy_number x then q else 0%Q
  | None => 0%Q
  end.

(** [x ? x / 100 : 10], the division being that of doubles *)
Definition credits_to_cost (x : option Q) : Q :=
  match x with
  | Some q => if truthy_number x then Float64.div q 100 else 10%Q
  | None => 10%Q
  end.

(** The object literal returned on success. *)
Definition format_token_info (tokenInfo : token_info) : key_info := {|
  id := str "db_" ++ of_Z (ti_id tokenInfo);
  userId := ti_user_id tokenInfo;
  name := ti_name tokenInfo;
  userEmail := ti_user_email tokenInfo;
  userName := ti_user_name tokenInfo;
  active := true;
  createdAt := ti_created_at tokenInfo;
  lastUsed := ti_last_used tokenInfo;
  credits_of := {|
    balance := or_zero (ti_credits_balance tokenInfo);
    dailyAllocation := or_zero (ti_daily_allocation tokenInfo);
    lastUpdated := ti_last_updated tokenInfo |};
  limits := {|
    maxTokensPerMinute := 100000;
    maxRequestsPerMinute := 100;
    maxConcurrentRequests := 5;
    dailyCostLimit := credits_to_cost (ti_credits_balance tokenInfo) |}
|}.

(** [async validateApiKey(apiKey)]: the value the promise resolves to
    ([None] is [null]) and the service afterwards. [sql_ok = false]: the
    lookup [this.statements.getTokenByHash.get(hashedToken)] throws
    ([this.statements] was never set because [prepareStatements] threw in
    [initialize], the handle has been closed, the database is busy); the
    [catch] block logs the error and the promise resolves to [null], with
    nothing queued. *)
Definition validateApiKey_with (sql_ok : bool) (apiKey : jsstring) (svc : service)
  : option key_info * service :=
  match db svc with
  | None => (None, svc)
  | Some d =>
      (* try { *)
      let hashedToken := Crypto.sha256_hex apiKey in
      if sql_ok then
        match getTokenByHash d hashedToken with
        | None => (None, svc)
        | Some tokenInfo =>
            (* setImmediate(() => ...updateLastUsed.run(tokenInfo.id)) *)
            let svc' := {| db := db svc;
                           immediates := immediates svc ++ [UpdateLastUsed (ti_id tokenInfo)] |} in
            (Some (format_token_info tokenInfo), svc')
        end
      else
        (* } catch (error) { logger.error(...); return null } *)
        (None, svc)
  end.

(** The call in which the lookup returns. *)
Definition validateApiKey (apiKey : jsstring) (svc : service) : option key_info * service :=
  validateApiKey_with true apiKey svc.

(** One queued callback runs. [sql_ok = false]: the statement throws; the
    callback catches the error and logs it. *)
Definition run_task (now : clock) (sql_ok : bool) (t : task) (d : option database)
  : option database :=
  match t with
  | UpdateLastUsed id =>
      match d with
      | Some d' => if sql_ok then Some (updateLastUsed now id d') else d
      | None => d
      end
  end.

(** The check phase of the event loop: every queued callback runs, each
    with its own outcome ([oks], [true] where the list is exhausted). *)
Fixpoint run_tasks (now : clock) (oks : list bool) (ts : list task) (d : option database)
  : option database :=
  match ts with
  | [] => d
  | t :: ts' =>
      run_tasks now (List.tl oks) ts' (run_task now (List.hd true oks) t d)
  end.

Definition run_immediates (now : clock) (oks : list bool) (svc : service) : service :=
  {| db := run_tasks now oks (immediates svc) (db svc); immediates := [] |}.

(** ** [recordUsage] *)

(** The [usageData] argument; [None] is a property that is absent or
    [undefined], for which the destructuring pattern has a default. *)
Record usage_data : Type := {
  ud_userId : Z;
  ud_tokenId : Z;
  ud_model : jsstring;
  ud_inputTokens : option Z;
  ud_outputTokens : option Z;
  ud_cacheCreationTokens : option Z;
  ud_cacheReadTokens : option Z;
  ud_cost : option Q;
  ud_requestId : option jsstring;
  ud_endpoint : option jsstring;
  ud_statusCode : option Z
}.

Definition default {A : Type} (d : A) (x : option A) : A :=
  match x with
  | Some a => a
  | None => d
  end.

(** The row that [insertUsageLog.run(...)] is given. *)
Definition usage_log_of (usageData : usage_data) : usage_log_row :=
  let inputTokens := default 0 (ud_inputTokens usageData) in
  let outputTokens := default 0 (ud_outputTokens usageData) in
  let cacheCreationTokens := default 0 (ud_cacheCreationTokens usageData) in
  let cacheReadTokens := default 0 (ud_cacheReadTokens usageData) in
  (* Calculate total tokens: three additions of doubles, from the left *)
  let totalTokens :=
    Float64.plus (Float64.plus (Float64.plus inputTokens outputTokens) cacheCreationTokens)
                 cacheReadTokens in
  {| l_user_id := ud_userId usageData;
     l_token_id := ud_tokenId usageData;
     l_model := ud_model usageData;
     l_input_tokens := inputTokens;
     l_output_tokens := outputTokens;
     l_cache_creation_tokens := cacheCreationTokens;
     l_cache_read_tokens := cacheReadTokens;
     l_total_tokens := totalTokens;
     l_cost := default 0%Q (ud_cost usageData);
     l_request_id := ud_requestId usageData;
     l_endpoint := default (str "/v1/messages") (ud_endpoint usageData);
     l_status_code := default 200 (ud_statusCode usageData) |}.

(** The body of [this.db.transaction(() => { ... })]. *)
Definition usage_transaction (now : clock) (usageData : usage_data) (d : database) : database :=
  let row := usage_log_of usageData in
  let userId := ud_userId usageData in
  let cost := l_cost row in
  (* Insert usage log *)
  let d1 := insertUsageLog row d in
  (* Update daily usage *)
  let today := before 84 (iso_now now) in
  let d2 := updateDailyUsage now userId today
              (l_input_tokens row) (l_output_tokens row)
              (l_cache_creation_tokens row) (l_cache_read_tokens row)
              cost 1 d1 in
  (* Get current balance *)
  match getUserCredits d2 userId with
  | Some credits0 =>
      (* Deduct cost from balance *)
      let newBalance := Math_max 0 (c_balance credits0 - cost)%Q in
      updateCreditsBalance newBalance userId d2
  | None => d2
  end.

(** [async recordUsage(usageData)]. [sql_ok = false]: a statement of the
    transaction throws, the transaction is rolled back and the error is
    logged. *)
Definition recordUsage (now : clock) (sql_ok : bool) (usageData : usage_data) (svc : service)
  : service :=
  match db svc with
  | None => svc
  | Some d =>
      if sql_ok
      then {| db := Some (usage_transaction now usageData d); immediates := immediates svc |}
      else svc
  end.

(** ** Notions used to state the properties of the service *)

Definition cost_of (usageData : usage_data) : Q := default 0%Q (ud_cost usageData).







(** Two token rows that differ at most in [last_used]. *)
Definition token_frame (t t' : token_row) : Prop :=
  t_id t' = t_id t /\ t_user_id t' = t_user_id t /\ t_name t' = t_name t /\
  t_token t' = t_token t /\ t_created_at t' = t_created_at t.

(** Two databases that differ at most in the [last_used] column of
    [tokens]. *)
Definition db_frame (d d' : database) : Prop :=
  List.Forall2 token_frame (tokens d) (tokens d') /\
  users d' = users d /\ credits d' = credits d /\
  usage_logs d' = usage_logs d /\ usage_daily d' = usage_daily d.

(** Two returned records that differ at most in [lastUsed]. *)
Definition info_frame (r r' : key_info) : Prop :=
  id r' = id r /\ userId r' = userId r /\ name r' = name r /\
  userEmail r' = userEmail r /\ userName r' = userName r /\
  active r' = active r /\ createdAt r' = createdAt r /\
  credits_of r' = credits_of r /\ limits r' = limits r.

(** A request handled to the end: the call, then the turn of the event
    loop in which the queued callbacks run with outcomes [oks]. *)
Definition validate_then_settle (now : clock) (oks : list bool) (apiKey : jsstring)
    (svc : service) : option key_info * service :=
  let '(r, svc') := validateApiKey apiKey svc in
  (r, run_immediates now oks svc').

(** The number of stored token rows that hold the hash [h]. *)
Definition digest_count (d : database) (h : jsstring) : nat :=
  List.length (List.filter (fun t => jsstring_eqb (t_token t) h) (tokens d)).

(** No two token rows hold the same hash. *)
Definition unique_hashes (d : database) : Prop := List.NoDup (List.map t_token (tokens d)).

(** Every token row has its user row. *)
Definition users_present (d : database) : Prop :=
  forall t, List.In t (tokens d) -> exists u, List.In u (users d) /\ t_user_id t = u_id u.



End DatabaseService.

(* ===================================================================== *)
(** * Sample data *)
(* ===================================================================== *)

Module Sample.
Import Js DatabaseService.

(** The key of the integration test, and a key that was never issued. *)
Definition TEST_API_KEY : jsstring :=
  str "sk_32e1b80291673d5fc340a7bde1e68f36fac8678ba859aad40832389d2c7eb818".
Definition invalid_key : jsstring := str "sk_invalid_key_12345".

Definition test_key_hash : jsstring :=
  str "badfae7fc48ac3c570cd686d7f5ce600375f42699b70fa28b4ff1fa3ecd9f561".

Definition token1 : token_row := {|
  t_id := 1; t_user_id := 7; t_name := str "laptop"; t_token := test_key_hash;
  t_created_at := str "2025-01-01 09:00:00"; t_last_used := None |}.

(** A second row holding the same hash. *)
Definition token2 : token_row := {|
  t_id := 2; t_user_id := 7; t_name := str "desktop"; t_token := test_key_hash;
  t_created_at := str "2025-01-02 09:00:00"; t_last_used := None |}.

Definition user7 : user_row := {|
  u_id := 7; u_email := str "dev@example.com"; u_name := str "Dev" |}.

Definition credit7 (b : Q) : credit_row := {|
  c_user_id := 7; c_balance := b; c_daily_allocation := 1000%Q;
  c_last_updated := None |}.

Definition database_with (ts : list token_row) (us : list user_row) (cs : list credit_row)
  : database :=
  {| tokens := ts; users := us; credits := cs; usage_logs := []; usage_daily := ∅ |}.

Definition service_of (d : database) : service := {| db := Some d; immediates := [] |}.

(** One key, its user, a balance of 500 credits. *)
Definition svc1 : service := service_of (database_with [token1] [user7] [credit7 500%Q]).

(** Two token rows with one hash. *)
Definition svc_duplicate : service :=
  service_of (database_with [token1; token2] [user7] [credit7 500%Q]).

(** A token row whose user row is gone. *)
Definition svc_orphan : service := service_of (database_with [token1] [] []).


(** What validation of the test key returns on [svc1], and the service
    afterwards. *)
Definition info1 : key_info :=
  format_token_info (join_row token1 user7 (Some (credit7 500%Q))).
Definition svc1_validated : service :=
  {| db := db svc1; immediates := [UpdateLastUsed 1] |}.

Definition noon : clock := {|
  iso_now := str "2025-01-15T12:00:00.000Z"; sql_now := str "2025-01-15 12:00:00" |}.

Definition usage (tokenId : Z) (model : string) (input output : Z) (cost : Q) : usage_data := {|
  ud_userId := 7; ud_tokenId := tokenId; ud_model := str model;
  ud_inputTokens := Some input; ud_outputTokens := Some output;
  ud_cacheCreationTokens := None; ud_cacheReadTokens := Some 30;
  ud_cost := Some cost; ud_requestId := None; ud_endpoint := None; ud_statusCode := None |}.

Definition usage1 : usage_data := usage 1 "claude-3-5-sonnet" 100 20 10%Q.

End Sample.

(* ===================================================================== *)
(** * Node's [path] module (POSIX) *)
(* ===================================================================== *)

Module NodePath.
Import Js.

(** [s.split(String.fromCharCode(c))] *)
Fixpoint split_on (c : Z) (s : jsstring) : list jsstring :=
  match s with
  | [] => [[]]
  | x :: s' =>
      match split_on c s' with
      | seg :: segs => if x =? c then [] :: seg :: segs else (x :: seg) :: segs
      | [] => [[x]]
      end
  end.

(** [segs.join(String.fromCharCode(c))] *)
Fixpoint join_with (c : Z) (segs : list jsstring) : jsstring :=
  match segs with
  | [] => []
  | [seg] => seg
  | seg :: segs' => seg ++ c :: join_with c segs'
  end.

Definition slash : Z := 47.
Definition dot : jsstring := [46].
Definition dotdot : jsstring := [46; 46].

(** One segment of [normalizeString]: the segments kept so far are held last
    first. Empty segments and [.] are dropped, [..] removes the last segment
    kept (or, above the root of a relative path, is kept itself). *)
Definition normalize_step (allowAboveRoot : bool) (kept : list jsstring) (seg : jsstring)
  : list jsstring :=
  if jsstring_eqb seg [] || jsstring_eqb seg dot then kept
  else if jsstring_eqb seg dotdot then
    match kept with
    | last :: rest =>
        if jsstring_eqb last dotdot
        then (if allowAboveRoot then dotdot :: kept else kept)
        else rest
    | [] => if allowAboveRoot then [dotdot] else []
    end
  else seg :: kept.

Definition normalize_segments (allowAboveRoot : bool) (path : jsstring) : list jsstring :=
  List.rev (fold_left (normalize_step allowAboveRoot) (split_on slash path) []).

(** The loop of [path.resolve]: arguments are taken from the last one until an
    absolute one is met, the working directory coming after the first. *)
Fixpoint resolve_loop (args_rev : list jsstring) (cwd : jsstring) (resolvedPath : jsstring)
  : jsstring * bool :=
  match args_rev with
  | [] =>
      if Nat.eqb (List.length cwd) 0 then (resolvedPath, false)
      else (cwd ++ slash :: resolvedPath, Z.eqb (List.hd 0 cwd) slash)
  | path :: rest =>
      if Nat.eqb (List.length path) 0 then resolve_loop rest cwd resolvedPath
      else if Z.eqb (List.hd 0 path) slash then (path ++ slash :: resolvedPath, true)
      else resolve_loop rest cwd (path ++ slash :: resolvedPath)
  end.

(** [path.resolve(...args)], [cwd] being [process.cwd()]. *)
Definition resolve (cwd : jsstring) (args : list jsstring) : jsstring :=
  let '(resolvedPath, resolvedAbsolute) := resolve_loop (List.rev args) cwd [] in
  let normalized :=
    join_with slash (normalize_segments (negb resolvedAbsolute) resolvedPath) in
  if resolvedAbsolute then slash :: normalized
  else if (0 <? List.length normalized)%nat then normalized else dot.

(** A segment that normalisation keeps as it is. *)
Definition plain_segment (seg : jsstring) : Prop :=
  seg <> [] /\ seg <> dot /\ seg <> dotdot /\ ~ List.In slash seg.

Definition plain_segmentb (seg : jsstring) : bool :=
  negb (jsstring_eqb seg []) && negb (jsstring_eqb seg dot)
  && negb (jsstring_eqb seg dotdot) && forallb (fun c => negb (c =? slash)) seg.

(** The absolute path of a list of segments. *)
Definition render (segs : list jsstring) : jsstring := slash :: join_with slash segs.

(** A path that starts at the root, as [process.cwd()] always does. *)
Definition absolute (path : jsstring) : Prop := List.hd 0 path = slash.

(** The segments of the resolved base directory, [path.resolve(basePath)]. *)
Definition base_segments (cwd basePath : jsstring) : list jsstring :=
  normalize_segments false (fst (resolve_loop [basePath] cwd [])).

End NodePath.

(* ===================================================================== *)
(** * [src/utils/security.js]: the other static methods *)
(* ===================================================================== *)

Module SecurityUtilsRest.
Import Js.

(** [static generateSecureSecret(length = 32)]; [random] is what
    [crypto.randomBytes(length)] returns. *)
Definition generateSecureSecret (random : list Z) : jsstring := toString_hex random.

(** [buf.toString('base64url')] *)
Definition base64url_char (n : Z) : Z :=
  if n <? 26 then 65 + n
  else if n <? 52 then 97 + (n - 26)
  else if n <? 62 then 48 + (n - 52)
  else if n =? 62 then 45
  else 95.

Fixpoint toString_base64url (buf : list Z) : jsstring :=
  match buf with
  | [] => []
  | [a] =>
      [base64url_char (Z.shiftr a 2);
       base64url_char (Z.shiftl (Z.land a 3) 4)]
  | [a; b] =>
      [base64url_char (Z.shiftr a 2);
       base64url_char (Z.lor (Z.shiftl (Z.land a 3) 4) (Z.shiftr b 4));
       base64url_char (Z.shiftl (Z.land b 15) 2)]
  | a :: b :: c :: rest =>
      base64url_char (Z.shiftr a 2)
      :: base64url_char (Z.lor (Z.shiftl (Z.land a 3) 4) (Z.shiftr b 4))
      :: base64url_char (Z.lor (Z.shiftl (Z.land b 15) 2) (Z.shiftr c 6))
      :: base64url_char (Z.land c 63)
      :: toString_base64url rest
  end.

(** [static generateSessionToken()]; [random] is what
    [crypto.randomBytes(32)] returns. *)
Definition generateSessionToken (random : list Z) : jsstring := toString_base64url random.

Definition is_base64url_char (c : Z) : bool :=
  ((65 <=? c) && (c <=? 90)) || ((97 <=? c) && (c <=? 122))
  || ((48 <=? c) && (c <=? 57)) || (c =? 45) || (c =? 95).

(** [static validatePath(path, basePath)]; [None] is [null]. *)
Definition validatePath (cwd : jsstring) (path : value) (basePath : jsstring)
  : option jsstring :=
  if negb (truthy path) || negb (SecurityUtils.is_string path) then None
  else
    match path with
    | VString p =>
        (* Normalize and resolve the path *)
        let resolvedPath := NodePath.resolve cwd [basePath; p] in
        let resolvedBase := NodePath.resolve cwd [basePath] in
        (* Ensure the resolved path is within the base directory *)
        if negb (startsWith resolvedPath resolvedBase) then None
        else Some resolvedPath
    | _ => None
    end.

(** The [options] of [sanitizeInput]: [maxLength] absent or an integer, the
    three flags by their truthiness. *)
Record sanitize_options : Type := {
  maxLength : option Z;
  allowControlChars : bool;
  escapeSql : bool;
  escapeHtml : bool
}.

Definition no_options : sanitize_options :=
  {| maxLength := None; allowControlChars := false; escapeSql := false; escapeHtml := false |}.

(** [[\x00-\x08\x0B\x0C\x0E-\x1F\x7F]] *)
Definition is_control_char (c : Z) : bool :=
  ((0 <=? c) && (c <=? 8)) || (c =? 11) || (c =? 12)
  || ((14 <=? c) && (c <=? 31)) || (c =? 127).

(** The class of the SQL expression: single quote, double quote, semicolon,
    backslash. *)
Definition is_sql_special (c : Z) : bool :=
  (c =? 39) || (c =? 34) || (c =? 59) || (c =? 92).

(** The [htmlEscapes] table, for the ampersand, the angle brackets and the
    two quotes. *)
Definition html_escape (c : Z) : jsstring :=
  if c =? 38 then str "&amp;"
  else if c =? 60 then str "&lt;"
  else if c =? 62 then str "&gt;"
  else if c =? 34 then str "&quot;"
  else if c =? 39 then str "&#39;"
  else [c].

(** [options.maxLength || 1000] *)
Definition effective_maxLength (options : sanitize_options) : Z :=
  match maxLength options with
  | Some n => if n =? 0 then 1000 else n
  | None => 1000
  end.

(** [static sanitizeInput(input, options = {})] *)
Definition sanitizeInput (input : value) (options : sanitize_options) : jsstring :=
  match input with
  | VString s =>
      let sanitized := s in
      (* Remove null bytes *)
      let sanitized := List.filter (fun c => negb (c =? 0)) sanitized in
      (* Limit length *)
      let maxLength := effective_maxLength options in
      let sanitized :=
        if Z.of_nat (List.length sanitized) >? maxLength
        then firstn (Z.to_nat maxLength) sanitized
        else sanitized in
      (* Remove control characters except newlines and tabs *)
      let sanitized :=
        if negb (allowControlChars options)
        then List.filter (fun c => negb (is_control_char c)) sanitized
        else sanitized in
      (* Escape SQL special characters if needed *)
      let sanitized :=
        if escapeSql options
        then List.flat_map (fun c => if is_sql_special c then [92; c] else [c]) sanitized
        else sanitized in
      (* Escape HTML if needed *)
      let sanitized :=
        if escapeHtml options
        then List.flat_map html_escape sanitized
        else sanitized in
      sanitized
  | _ => []
  end.

(** The five steps of [sanitizeInput], one by one. *)

Definition remove_nul (s : jsstring) : jsstring := List.filter (fun c => negb (c =? 0)) s.

Definition truncate (options : sanitize_options) (s : jsstring) : jsstring :=
  if Z.of_nat (List.length s) >? effective_maxLength options
  then firstn (Z.to_nat (effective_maxLength options)) s
  else s.

Definition remove_control (options : sanitize_options) (s : jsstring) : jsstring :=
  if negb (allowControlChars options)
  then List.filter (fun c => negb (is_control_char c)) s
  else s.

Definition sql_stage (options : sanitize_options) (s : jsstring) : jsstring :=
  if escapeSql options
  then List.flat_map (fun c => if is_sql_special c then [92; c] else [c]) s
  else s.

Definition html_stage (options : sanitize_options) (s : jsstring) : jsstring :=
  if escapeHtml options then List.flat_map html_escape s else s.

(** Every quote, semicolon and backslash of [s] is the second character of a
    pair that starts with a backslash. *)
Fixpoint sql_escaped (s : jsstring) : bool :=
  match s with
  | [] => true
  | c :: rest =>
      if c =? 92 then
        match rest with
        | d :: rest' => is_sql_special d && sql_escaped rest'
        | [] => false
        end
      else negb (is_sql_special c) && sql_escaped rest
  end.

End SecurityUtilsRest.

(* ===================================================================== *)
(** * [SecurityUtils.RateLimiter] *)
(* ===================================================================== *)

Module RateLimiter.
Import Js.

(** The [options] of the constructor. *)
Record options : Type := {
  opt_maxAttempts : option Z;
  opt_windowMs : option Z;
  opt_backoffMultiplier : option Q
}.

(** The object: [this.attempts] maps an identifier to the times, in
    milliseconds, of its recorded attempts, in the order of recording.
    [maxAttempts] and [windowMs] are integers, as every caller gives them;
    the multiplier is a rational, and its powers are exact. *)
Record limiter : Type := {
  attempts : gmap (list Z) (list Z);
  maxAttempts : Z;
  windowMs : Z;
  backoffMultiplier : Q
}.

(** [x || d] on an optional integer. *)
Definition or_default (x : option Z) (d : Z) : Z :=
  match x with
  | Some n => if n =? 0 then d else n
  | None => d
  end.

(** [constructor(options = {})] *)
Definition new (o : options) : limiter := {|
  attempts := ∅;
  maxAttempts := or_default (opt_maxAttempts o) 5;
  windowMs := or_default (opt_windowMs o) 900000;
  backoffMultiplier :=
    match opt_backoffMultiplier o with
    | Some q => if Qeq_bool q 0 then 2%Q else q
    | None => 2%Q
    end
|}.

Definition with_attempts (l : limiter) (m : gmap (list Z) (list Z)) : limiter := {|
  attempts := m;
  maxAttempts := maxAttempts l;
  windowMs := windowMs l;
  backoffMultiplier := backoffMultiplier l
|}.

(** What [check] returns; [resetTime] and [retryAfter] are present only in
    the answer for a limited identifier, and a [Date] is its time value. *)
Record status : Type := {
  limited : bool;
  remainingAttempts : Z;
  resetTime : option (option Z);
  retryAfter : option Z
}.

(** [calculateLockoutTime(attemptCount)] *)
Definition calculateLockoutTime (l : limiter) (attemptCount : Z) : Q :=
  let baseLockout := windowMs l in
  let excessAttempts := Z.max 0 (attemptCount - maxAttempts l) in
  (inject_Z baseLockout * backoffMultiplier l ^ excessAttempts)%Q.

(** The time value of [new Date(x)]: [x] without its fraction, and no
    time value ([NaN], an invalid date) beyond 8.64e15 milliseconds. *)
Definition time_clip (x : Q) : option Z :=
  if Qle_bool (Qabs x) (inject_Z 8640000000000000) then
    Some (if Qle_bool 0 x then Qfloor x else Qceiling x)
  else None.

(** [record.attempts.filter((timestamp) => now - timestamp < span)] *)
Definition recent (now span : Z) (record : list Z) : list Z :=
  List.filter (fun timestamp => now - timestamp <? span) record.

(** [check(identifier)]; [now] is [Date.now()]. The record read is
    overwritten with its recent attempts. *)
Definition check (now : Z) (identifier : list Z) (l : limiter) : status * limiter :=
  match attempts l !! identifier with
  | None =>
      ({| limited := false; remainingAttempts := maxAttempts l;
          resetTime := None; retryAfter := None |}, l)
  | Some record =>
      (* Clean old attempts *)
      let kept := recent now (windowMs l) record in
      let l' := with_attempts l (<[identifier := kept]> (attempts l)) in
      let open := ({| limited := false;
                      remainingAttempts := maxAttempts l - Z.of_nat (List.length kept);
                      resetTime := None; retryAfter := None |}, l') in
      if Z.of_nat (List.length kept) >=? maxAttempts l then
        match kept with
        | oldestAttempt :: _ =>
            let lockoutTime := calculateLockoutTime l (Z.of_nat (List.length kept)) in
            let timeUntilReset :=
              (inject_Z oldestAttempt + lockoutTime - inject_Z now)%Q in
            if negb (Qle_bool timeUntilReset 0) then
              ({| limited := true; remainingAttempts := 0;
                  resetTime := Some (time_clip (inject_Z now + timeUntilReset)%Q);
                  retryAfter := Some (Qceiling (timeUntilReset / 1000)%Q) |}, l')
            else open
        | [] => open      (* [undefined + lockoutTime - now] is [NaN] *)
        end
      else open
  end.

(** [cleanup()]; [now] is [Date.now()]. *)
Definition cleanup (now : Z) (l : limiter) : limiter :=
  with_attempts l
    (omap (fun record =>
             let kept := recent now (windowMs l * 2) record in
             if Nat.eqb (List.length kept) 0 then None else Some kept)
          (attempts l)).

(** [recordAttempt(identifier)]; [now] is [Date.now()], [random] is
    [Math.random()] and [later] the [Date.now()] of the clean-up it may
    start. *)
Definition recordAttempt (now : Z) (random : Q) (later : Z) (identifier : list Z)
    (l : limiter) : limiter :=
  let record :=
    match attempts l !! identifier with
    | Some record => record
    | None => []
    end in
  let l' := with_attempts l (<[identifier := record ++ [now]]> (attempts l)) in
  (* Cleanup old records periodically *)
  if negb (Qle_bool (1 # 100) random) then cleanup later l' else l'.

(** [reset(identifier)] *)
Definition reset (identifier : list Z) (l : limiter) : limiter :=
  with_attempts l (delete identifier (attempts l)).

(** ** Notions used to state the properties of the limiter *)

(** The attempts of an identifier that are younger than the window. *)
Definition in_window (now : Z) (identifier : list Z) (l : limiter) : list Z :=
  match attempts l !! identifier with
  | Some record => recent now (windowMs l) record
  | None => []
  end.

(** The settings a caller is expected to give: a positive number of
    attempts, a window that is not negative, a multiplier of at least one. *)
Definition well_configured (l : limiter) : Prop :=
  0 < maxAttempts l /\ 0 <= windowMs l /\ (1 <= backoffMultiplier l)%Q.

(** No identifier has more recorded attempts than [maxAttempts]. *)
Definition bounded (l : limiter) : Prop :=
  forall identifier record,
    attempts l !! identifier = Some record ->
    Z.of_nat (List.length record) <= maxAttempts l.

(** The use that [test-security-improvements.js] makes of the limiter, the
    body of its loop: an attempt is recorded only when [check] does not
    report a limit. [now], [now'] and [later] are the three readings of
    the clock. *)
Definition checked_attempt (now now' : Z) (random : Q) (later : Z)
    (identifier : list Z) (l : limiter) : status * limiter :=
  let '(s, l') := check now identifier l in
  if limited s then (s, l') else (s, recordAttempt now' random later identifier l').

End RateLimiter.

(* ===================================================================== *)
(** * A history of [recordUsage] calls *)
(* ===================================================================== *)

Module UsageHistory.
Import Js DatabaseService.

(** One call of [recordUsage]: the clock it reads, whether its transaction
    commits, and its argument. *)
Record call : Type := {
  call_now : clock;
  call_ok : bool;
  call_data : usage_data
}.








(** A row of the [getTokenByHash] query after [updateCreditsBalance] has
    run for [userId]: the balance, where the row has one, is the new one. *)
Definition adjust (newBalance : Q) (userId : Z) (ti : token_info) : token_info :=
  if ti_user_id ti =? userId then
    {| ti_id := ti_id ti; ti_user_id := ti_user_id ti; ti_name := ti_name ti;
       ti_created_at := ti_created_at ti; ti_last_used := ti_last_used ti;
       ti_user_email := ti_user_email ti; ti_user_name := ti_user_name ti;
       ti_credits_balance := option_map (fun _ => newBalance) (ti_credits_balance ti);
       ti_daily_allocation := ti_daily_allocation ti;
       ti_last_updated := ti_last_updated ti |}
  else ti.



End UsageHistory.

(* ===================================================================== *)
(** * Arithmetic on doubles *)
(* ===================================================================== *)

Module Double.

(** Where the source computes with fractions, on IEEE doubles, the
    arithmetic is a parameter of the model: what is proved holds for every
    arithmetic, the one of JavaScript among them. Counters and times in
    milliseconds are integers, exact in a double below 2^53, and are
    integers here. *)
Class arithmetic : Type := {
  double : Type;
  of_Z : Z -> double;                      (* an integer, as a double *)
  literal : Q -> double;                   (* a decimal literal *)
  fadd : double -> double -> double;
  fsub : double -> double -> double;
  fmul : double -> double -> double;
  fdiv : double -> double -> double;
  flt : double -> double -> bool;          (* [a < b] *)
  fround : double -> double;               (* [Math.round] *)
  to_number : double -> Js.number
}.

(** The arithmetic of the rationals, without rounding. *)
Definition exact : arithmetic := {|
  double := Q;
  of_Z := inject_Z;
  literal := fun q => q;
  fadd := Qplus;
  fsub := Qminus;
  fmul := Qmult;
  fdiv := Qdiv;
  flt := fun a b => negb (Qle_bool b a);
  fround := fun q => inject_Z (Qfloor (q + (1 # 2)));
  to_number := Js.Num
|}.

End Double.

(* ===================================================================== *)
(** * [src/services/monitoringService.js] *)
(* ===================================================================== *)

Module MonitoringService.
Import Js.

(** An error object: its [code] and its [message], where it has them. *)
Record js_error : Type := {
  code : option jsstring;
  message : option jsstring
}.

(** What an awaited call settles to. *)
Inductive reply (T : Type) : Type :=
| Resolved (t : T)
| Rejected (e : js_error).
Arguments Resolved {T} t.
Arguments Rejected {T} e.

(** A string that may be [undefined], as a value. *)
Definition string_or_undefined (s : option jsstring) : value :=
  match s with
  | Some s' => VString s'
  | None => VUndefined
  end.

(** An array, as the object of its indices and its [length]. *)
Definition array (vs : list value) : value :=
  VObject (List.combine (List.map (fun i => of_Z (Z.of_nat i)) (List.seq 0 (List.length vs))) vs
           ++ [(str "length", VNumber (Num (inject_Z (Z.of_nat (List.length vs)))))]).

(** ** A [Map] from strings to numbers, in insertion order *)

Fixpoint map_get (k : jsstring) (m : list (jsstring * Z)) : option Z :=
  match m with
  | [] => None
  | (k', v) :: m' => if jsstring_eqb k k' then Some v else map_get k m'
  end.

Fixpoint map_set (k : jsstring) (v : Z) (m : list (jsstring * Z)) : list (jsstring * Z) :=
  match m with
  | [] => [(k, v)]
  | (k', v') :: m' =>
      if jsstring_eqb k k' then (k, v) :: m' else (k', v') :: map_set k v m'
  end.

(** ** [parseRedisInfo] *)

(** [info.split('\r\n')] *)
Fixpoint split_crlf (s : jsstring) : list jsstring :=
  match s with
  | [] => [[]]
  | c :: s' =>
      match s' with
      | d :: s'' =>
          if (c =? 13) && (d =? 10) then [] :: split_crlf s''
          else match split_crlf s' with
               | line :: lines => (c :: line) :: lines
               | [] => [[c]]
               end
      | [] => [[c]]
      end
  end.

Definition colon : Z := 58.

(** [parseRedisInfo(info, key)] *)
Definition parseRedisInfo (info key : jsstring) : value :=
  let lines := split_crlf info in
  match List.find (fun line => startsWith line (key ++ [colon])) lines with
  | Some line =>
      match List.nth_error (NodePath.split_on colon line) 1 with
      | Some field => VString field
      | None => VUndefined
      end
  | None => VNull
  end.

(** [lines.join('\r\n')] *)
Fixpoint join_crlf (lines : list jsstring) : jsstring :=
  match lines with
  | [] => []
  | [line] => line
  | line :: lines' => line ++ 13 :: 10 :: join_crlf lines'
  end.

(** ** The state of the service *)

Section Monitoring.
Context {A : Double.arithmetic}.

(** [this.metrics.requests] *)
Record request_metrics : Type := {
  total : Z;
  success : Z;
  failed : Z;
  avgResponseTime : Double.double
}.

(** [this.metrics.apiKeys]; [keys_failed] is its member [failed]. *)
Record apiKey_metrics : Type := {
  validated : Z;
  keys_failed : Z;
  cached : Z
}.

Record slow_query : Type := {
  query : value;
  duration : value;
  timestamp : Z
}.

(** [this.metrics] *)
Record metrics_record : Type := {
  requests : request_metrics;
  apiKeys : apiKey_metrics;
  errors : list (jsstring * Z);
  slowQueries : list slow_query
}.

(** [this.healthStatus.services] *)
Record services_record : Type := {
  redis : value;
  database : value;
  memory : value;
  api : value
}.

(** [this.healthStatus]; [checkDuration] is [undefined] until the first
    health check has ended. *)
Record health_status : Type := {
  healthy : bool;
  lastCheck : value;
  checkDuration : value;
  services : services_record
}.

(** The service object, without its timers. [lastReset] is [None] while
    the member is [undefined] or [null]. *)
Record monitor : Type := {
  healthStatus : health_status;
  memoryThreshold : Double.double;
  heapThreshold : Double.double;
  metrics : metrics_record;
  lastReset : option jsstring
}.

Definition zero_requests : request_metrics :=
  {| total := 0; success := 0; failed := 0; avgResponseTime := Double.of_Z 0 |}.

Definition zero_apiKeys : apiKey_metrics :=
  {| validated := 0; keys_failed := 0; cached := 0 |}.

(** [constructor()]; [NODE_ENV] is [process.env.NODE_ENV]. *)
Definition new (NODE_ENV : option jsstring) : monitor :=
  let production :=
    match NODE_ENV with
    | Some env => jsstring_eqb env (str "production")
    | None => false
    end in
  {| healthStatus := {|
       healthy := true;
       lastCheck := VNull;
       checkDuration := VUndefined;
       services := {|
         redis := VObject [(str "healthy", VBool false); (str "lastCheck", VNull);
                           (str "message", VNull)];
         database := VObject [(str "healthy", VBool false); (str "lastCheck", VNull);
                              (str "message", VNull)];
         memory := VObject [(str "healthy", VBool true); (str "lastCheck", VNull);
                            (str "usage", VObject [])];
         api := VObject [(str "healthy", VBool true); (str "lastCheck", VNull);
                         (str "stats", VObject [])] |} |};
     memoryThreshold := if production then Double.literal (8 # 10) else Double.literal (95 # 100);
     heapThreshold := if production then Double.literal (85 # 100) else Double.literal (95 # 100);
     metrics := {| requests := zero_requests; apiKeys := zero_apiKeys;
                   errors := []; slowQueries := [] |};
     lastReset := None |}.

Definition with_metrics (m : monitor) (x : metrics_record) : monitor :=
  {| healthStatus := healthStatus m;
     memoryThreshold := memoryThreshold m;
     heapThreshold := heapThreshold m;
     metrics := x;
     lastReset := lastReset m |}.

Definition with_healthStatus (m : monitor) (h : health_status) : monitor :=
  {| healthStatus := h;
     memoryThreshold := memoryThreshold m;
     heapThreshold := heapThreshold m;
     metrics := metrics m;
     lastReset := lastReset m |}.

(** The object that the routes read as [monitoringService.healthStatus]. *)
Definition services_value (s : services_record) : value :=
  VObject [(str "redis", redis s); (str "database", database s);
           (str "memory", memory s); (str "api", api s)].

Definition healthStatus_value (h : health_status) : value :=
  VObject [(str "healthy", VBool (healthy h));
           (str "lastCheck", lastCheck h);
           (str "services", services_value (services h));
           (str "checkDuration", checkDuration h)].

(** ** Recording *)

(** [error.code || error.message || 'unknown'] *)
Definition errorKey_of (error : js_error) : jsstring :=
  match code error with
  | Some (c :: s) => c :: s
  | _ =>
      match message error with
      | Some (c :: s) => c :: s
      | _ => str "unknown"
      end
  end.

(** [x || 0] on what [Map.get] returns *)
Definition count_or_zero (x : option Z) : Z :=
  match x with
  | Some n => n
  | None => 0
  end.

(** [recordRequest(success, responseTime, error = null)] *)
Definition recordRequest (success0 : bool) (responseTime : Double.double)
    (error : option js_error) (m : monitor) : monitor :=
  let r := requests (metrics m) in
  let total1 := total r + 1 in
  let errors1 :=
    if success0 then errors (metrics m)
    else match error with
         | Some e =>
             let errorKey := errorKey_of e in
             map_set errorKey (count_or_zero (map_get errorKey (errors (metrics m))) + 1)
               (errors (metrics m))
         | None => errors (metrics m)
         end in
  (* Update average response time *)
  let currentAvg := avgResponseTime r in
  with_metrics m
    {| requests := {|
         total := total1;
         success := if success0 then success r + 1 else success r;
         failed := if success0 then failed r else failed r + 1;
         avgResponseTime :=
           Double.fdiv
             (Double.fadd (Double.fmul currentAvg (Double.of_Z (total1 - 1))) responseTime)
             (Double.of_Z total1) |};
       apiKeys := apiKeys (metrics m);
       errors := errors1;
       slowQueries := slowQueries (metrics m) |}.

(** [recordApiKeyValidation(success, cached = false)] *)
Definition recordApiKeyValidation (success0 cached0 : bool) (m : monitor) : monitor :=
  let k := apiKeys (metrics m) in
  with_metrics m
    {| requests := requests (metrics m);
       apiKeys :=
         if success0 then
           {| validated := validated k + 1;
              keys_failed := keys_failed k;
              cached := if cached0 then cached k + 1 else cached k |}
         else
           {| validated := validated k;
              keys_failed := keys_failed k + 1;
              cached := cached k |};
       errors := errors (metrics m);
       slowQueries := slowQueries (metrics m) |}.

(** [array.slice(-n)] *)
Definition slice_last {T : Type} (n : nat) (l : list T) : list T :=
  List.skipn (List.length l - n) l.

(** [recordSlowQuery(query, duration)]; [now] is [Date.now()]. *)
Definition recordSlowQuery (now : Z) (query0 duration0 : value) (m : monitor) : monitor :=
  let pushed :=
    slowQueries (metrics m)
    ++ [{| query := query0; duration := duration0; timestamp := now |}] in
  with_metrics m
    {| requests := requests (metrics m);
       apiKeys := apiKeys (metrics m);
       errors := errors (metrics m);
       (* Keep only last 100 slow queries *)
       slowQueries :=
         if (100 <? List.length pushed)%nat then slice_last 100 pushed else pushed |}.

(** [resetMetricsIfNeeded()]; [hour] is [now.getHours()] and [dateString]
    is [now.toDateString()]. *)
Definition resetMetricsIfNeeded (hour : Z) (dateString : jsstring) (m : monitor) : monitor :=
  let lastReset_truthy :=
    match lastReset m with
    | Some (_ :: _) => true
    | _ => false
    end in
  (* Reset at midnight *)
  if (hour =? 0) && negb lastReset_truthy then
    {| healthStatus := healthStatus m;
       memoryThreshold := memoryThreshold m;
       heapThreshold := heapThreshold m;
       metrics := {| requests := zero_requests; apiKeys := zero_apiKeys;
                     errors := errors (metrics m);
                     slowQueries := slowQueries (metrics m) |};
       lastReset := Some dateString |}
  else if negb (hour =? 0) then
    {| healthStatus := healthStatus m;
       memoryThreshold := memoryThreshold m;
       heapThreshold := heapThreshold m;
       metrics := metrics m;
       lastReset := None |}
  else m.

(** [performMemoryCleanup()]; [now] is [Date.now()]. The loop over the
    error map reads each value of the map, a count, as [timestamp]. *)
Definition performMemoryCleanup (now : Z) (m : monitor) : monitor :=
  (* Clear old error metrics *)
  let oneHourAgo := now - 3600000 in
  with_metrics m
    {| requests := requests (metrics m);
       apiKeys := apiKeys (metrics m);
       errors :=
         List.filter (fun entry => negb (snd entry <? oneHourAgo)) (errors (metrics m));
       (* Clear old slow query logs *)
       slowQueries :=
         List.filter (fun q => oneHourAgo <? timestamp q) (slowQueries (metrics m)) |}.

(** ** The four checks *)

(** The Redis client, by what its two calls settle to. *)
Record redis_client : Type := {
  ping : reply unit;
  info : reply jsstring
}.

(** What [checkRedis] meets: the client that [redis.getClientSafe()]
    returns, if any, and the clock. *)
Record redis_probe : Type := {
  client : option redis_client;
  ping_start : Z;
  ping_end : Z;
  redis_time : jsstring
}.

Definition redis_failure (p : redis_probe) (error : js_error) : value :=
  VObject [(str "healthy", VBool false);
           (str "lastCheck", VString (redis_time p));
           (str "message", string_or_undefined (message error));
           (str "error", string_or_undefined (code error))].

Definition with_redis (m : monitor) (entry : value) : monitor :=
  with_healthStatus m
    {| healthy := healthy (healthStatus m);
       lastCheck := lastCheck (healthStatus m);
       checkDuration := checkDuration (healthStatus m);
       services := {| redis := entry;
                      database := database (services (healthStatus m));
                      memory := memory (services (healthStatus m));
                      api := api (services (healthStatus m)) |} |}.

Definition with_database (m : monitor) (entry : value) : monitor :=
  with_healthStatus m
    {| healthy := healthy (healthStatus m);
       lastCheck := lastCheck (healthStatus m);
       checkDuration := checkDuration (healthStatus m);
       services := {| redis := redis (services (healthStatus m));
                      database := entry;
                      memory := memory (services (healthStatus m));
                      api := api (services (healthStatus m)) |} |}.

Definition with_memory (m : monitor) (entry : value) : monitor :=
  with_healthStatus m
    {| healthy := healthy (healthStatus m);
       lastCheck := lastCheck (healthStatus m);
       checkDuration := checkDuration (healthStatus m);
       services := {| redis := redis (services (healthStatus m));
                      database := database (services (healthStatus m));
                      memory := entry;
                      api := api (services (healthStatus m)) |} |}.

Definition with_api (m : monitor) (entry : value) : monitor :=
  with_healthStatus m
    {| healthy := healthy (healthStatus m);
       lastCheck := lastCheck (healthStatus m);
       checkDuration := checkDuration (healthStatus m);
       services := {| redis := redis (services (healthStatus m));
                      database := database (services (healthStatus m));
                      memory := memory (services (healthStatus m));
                      api := entry |} |}.

Definition integer (n : Z) : value := VNumber (Num (inject_Z n)).

Definition number_of (x : Double.double) : value := VNumber (Double.to_number x).

(** [async checkRedis()] *)
Definition checkRedis (p : redis_probe) (m : monitor) : bool * monitor :=
  match client p with
  | None =>
      (false,
       with_redis m
         (redis_failure p {| code := None;
                             message := Some (str "Redis client not available") |}))
  | Some c =>
      (* Ping Redis *)
      match ping c with
      | Rejected error => (false, with_redis m (redis_failure p error))
      | Resolved _ =>
          let latency := ping_end p - ping_start p in
          (* Check memory usage *)
          match info c with
          | Rejected error => (false, with_redis m (redis_failure p error))
          | Resolved info0 =>
              let memoryUsed := parseRedisInfo info0 (str "used_memory_human") in
              (true,
               with_redis m
                 (VObject [(str "healthy", VBool true);
                           (str "lastCheck", VString (redis_time p));
                           (str "message", VString (str "Redis is healthy"));
                           (str "latency", integer latency);
                           (str "memoryUsed", memoryUsed)]))
          end
      end
  end.

(** What [checkDatabase] meets: [databaseService.db], what the two queries
    settle to (the first by the [health] column of its row), and the clock. *)
Record database_probe : Type := {
  db : option DatabaseService.database;
  select_health : reply Z;
  select_count : reply unit;
  query_start : Z;
  query_end : Z;
  database_time : jsstring
}.

Definition database_failure (p : database_probe) (error : js_error) : value :=
  VObject [(str "healthy", VBool false);
           (str "lastCheck", VString (database_time p));
           (str "message", string_or_undefined (message error))].

(** [async checkDatabase()] *)
Definition checkDatabase (p : database_probe) (m : monitor) : bool * monitor :=
  match db p with
  | None =>
      (* Database is optional (can run Redis-only) *)
      (true,
       with_database m
         (VObject [(str "healthy", VBool true);
                   (str "lastCheck", VString (database_time p));
                   (str "message",
                    VString (str "Database not configured (Redis-only mode)"))]))
  | Some d =>
      (* Run a simple query *)
      match select_health p with
      | Rejected error => (false, with_database m (database_failure p error))
      | Resolved health =>
          let latency := query_end p - query_start p in
          if negb (health =? 1) then
            (false,
             with_database m
               (database_failure p
                  {| code := None;
                     message := Some (str "Database query returned unexpected result") |}))
          else
            (* Get database stats *)
            match select_count p with
            | Rejected error => (false, with_database m (database_failure p error))
            | Resolved _ =>
                (true,
                 with_database m
                   (VObject [(str "healthy", VBool true);
                             (str "lastCheck", VString (database_time p));
                             (str "message", VString (str "Database is healthy"));
                             (str "latency", integer latency);
                             (str "tokenCount",
                              integer (Z.of_nat (List.length (DatabaseService.tokens d))))]))
            end
      end
  end.

(** What [checkMemory] meets: the numbers of [process.memoryUsage()],
    [v8.getHeapStatistics()] and [os], in bytes, and the clock. *)
Record memory_probe : Type := {
  heapUsed : Z;
  rss : Z;
  external : Z;
  heap_size_limit : Z;
  totalmem : Z;
  freemem : Z;
  memory_time : jsstring;
  cleanup_now : Z
}.

(** [Math.round(x / 1024 / 1024)] *)
Definition megabytes (x : Z) : value :=
  number_of
    (Double.fround (Double.fdiv (Double.fdiv (Double.of_Z x) (Double.of_Z 1024))
                      (Double.of_Z 1024))).

(** [Math.round(x * 100)] *)
Definition percent (x : Double.double) : value :=
  number_of (Double.fround (Double.fmul x (Double.of_Z 100))).

(** [checkMemory()] *)
Definition checkMemory (p : memory_probe) (m : monitor) : bool * monitor :=
  let used := totalmem p - freemem p in
  (* Calculate percentages *)
  let heapPercent := Double.fdiv (Double.of_Z (heapUsed p)) (Double.of_Z (heap_size_limit p)) in
  let systemPercent := Double.fdiv (Double.of_Z used) (Double.of_Z (totalmem p)) in
  (* Check if memory usage is too high *)
  let isHealthy :=
    Double.flt heapPercent (heapThreshold m) && Double.flt systemPercent (memoryThreshold m) in
  let m1 :=
    with_memory m
      (VObject [(str "healthy", VBool isHealthy);
                (str "lastCheck", VString (memory_time p));
                (str "usage",
                 VObject [(str "heap",
                           VObject [(str "used", megabytes (heapUsed p));
                                    (str "total", megabytes (heap_size_limit p));
                                    (str "percent", percent heapPercent)]);
                          (str "rss", megabytes (rss p));
                          (str "external", megabytes (external p));
                          (str "system",
                           VObject [(str "used", megabytes used);
                                    (str "total", megabytes (totalmem p));
                                    (str "percent", percent systemPercent)])])]) in
  (* Trigger cleanup if memory is high *)
  (isHealthy, if isHealthy then m1 else performMemoryCleanup (cleanup_now p) m1).

(** [entries.sort((a, b) => b[1] - a[1])]: by count, largest first, entries
    of equal count in their order. *)
Fixpoint insert_by_count (x : jsstring * Z) (sorted : list (jsstring * Z))
  : list (jsstring * Z) :=
  match sorted with
  | [] => [x]
  | y :: rest => if snd y <? snd x then x :: y :: rest else y :: insert_by_count x rest
  end.

Definition sort_by_count (entries : list (jsstring * Z)) : list (jsstring * Z) :=
  List.fold_left (fun sorted x => insert_by_count x sorted) entries [].

(** [async checkApiHealth()]; [now] is [new Date().toISOString()]. *)
Definition checkApiHealth (now : jsstring) (m : monitor) : bool * monitor :=
  let r := requests (metrics m) in
  (* Calculate success rate *)
  let successRate :=
    if 0 <? total r then Double.fdiv (Double.of_Z (success r)) (Double.of_Z (total r))
    else Double.of_Z 1 in
  (* Check for high error rates *)
  let errorRate := Double.fsub (Double.of_Z 1) successRate in
  let isHealthy := Double.flt errorRate (Double.literal (1 # 10)) in
  (* Get top errors *)
  let topErrors :=
    List.map (fun entry => VObject [(str "error", VString (fst entry));
                                    (str "count", integer (snd entry))])
      (List.firstn 5 (sort_by_count (errors (metrics m)))) in
  (isHealthy,
   with_api m
     (VObject [(str "healthy", VBool isHealthy);
               (str "lastCheck", VString now);
               (str "stats",
                VObject [(str "totalRequests", integer (total r));
                         (str "successRate", percent successRate);
                         (str "errorRate", percent errorRate);
                         (str "avgResponseTime",
                          number_of (Double.fround (avgResponseTime r)));
                         (str "topErrors", array topErrors)])])).

(** ** [performHealthCheck] *)

(** What one health check meets. *)
Record probes : Type := {
  startTime : Z;
  of_redis : redis_probe;
  of_database : database_probe;
  of_memory : memory_probe;
  api_time : jsstring;
  check_time : jsstring;
  endTime : Z
}.

(** [async performHealthCheck()], with nothing else running between its
    steps. The checks are started in the order of the source; [checkRedis]
    ends last, after its awaited calls, and writes to an entry that no
    other check reads. Each check settles to the boolean it returns. *)
Definition performHealthCheck (p : probes) (m : monitor) : health_status * monitor :=
  let '(database_ok, m1) := checkDatabase (of_database p) m in
  let '(memory_ok, m2) := checkMemory (of_memory p) m1 in
  let '(api_ok, m3) := checkApiHealth (api_time p) m2 in
  let '(redis_ok, m4) := checkRedis (of_redis p) m3 in
  let results := [redis_ok; database_ok; memory_ok; api_ok] in
  (* Update overall health status *)
  let allHealthy := List.forallb (fun result => result) results in
  let h := {| healthy := allHealthy;
              lastCheck := VString (check_time p);
              checkDuration := integer (endTime p - startTime p);
              services := services (healthStatus m4) |} in
  (h, with_healthStatus m4 h).

(** The handler of [router.get('/health', ...)], with nothing else running
    between the call of [performHealthCheck] and the response;
    [HealthRequests] has the handler turn by turn. *)
Definition health (p : probes) (m : monitor) : HealthRoutes.response * monitor :=
  let '(h, m1) := performHealthCheck p m in
  (* Determine HTTP status code based on health *)
  let statusCode := if healthy h then 200 else 503 in
  ({| HealthRoutes.status := statusCode;
      HealthRoutes.body :=
        VObject [(str "status",
                  VString (if healthy h then str "healthy" else str "unhealthy"));
                 (str "timestamp", lastCheck h);
                 (str "checkDuration", checkDuration h);
                 (str "services", services_value (services h))] |}, m1).

(** ** Notions used to state the properties of the service *)

(** Redis answers: there is a client, and both of its calls resolve. *)
Definition redis_answers (p : redis_probe) : Prop :=
  exists c info0, client p = Some c /\ ping c = Resolved tt /\ info c = Resolved info0.

(** The database is absent, or answers both queries as expected. *)
Definition database_answers (p : database_probe) : Prop :=
  db p = None \/ (select_health p = Resolved 1 /\ select_count p = Resolved tt).

(** A call of one of the methods that change the metrics. *)
Inductive event : Type :=
| RecordRequest (success0 : bool) (responseTime : Double.double) (error : option js_error)
| RecordApiKeyValidation (success0 cached0 : bool)
| RecordSlowQuery (now : Z) (query0 duration0 : value)
| ResetMetricsIfNeeded (hour : Z) (dateString : jsstring)
| PerformMemoryCleanup (now : Z)
| PerformHealthCheck (p : probes).

Definition step (m : monitor) (e : event) : monitor :=
  match e with
  | RecordRequest success0 responseTime error => recordRequest success0 responseTime error m
  | RecordApiKeyValidation success0 cached0 => recordApiKeyValidation success0 cached0 m
  | RecordSlowQuery now query0 duration0 => recordSlowQuery now query0 duration0 m
  | ResetMetricsIfNeeded hour dateString => resetMetricsIfNeeded hour dateString m
  | PerformMemoryCleanup now => performMemoryCleanup now m
  | PerformHealthCheck p => snd (performHealthCheck p m)
  end.

Definition run (events : list event) (m : monitor) : monitor :=
  List.fold_left step events m.

(** The counters agree with each other. *)
Definition consistent (m : monitor) : Prop :=
  let r := requests (metrics m) in
  let k := apiKeys (metrics m) in
  total r = success r + failed r /\ 0 <= success r /\ 0 <= failed r /\
  0 <= cached k /\ cached k <= validated k /\ 0 <= keys_failed k /\
  (List.length (slowQueries (metrics m)) <= 100)%nat /\
  List.NoDup (List.map fst (errors (metrics m))) /\
  List.Forall (fun entry => 1 <= snd entry) (errors (metrics m)).

(** An event that records and does not reset. *)
Definition recording (e : event) : bool :=
  match e with
  | ResetMetricsIfNeeded _ _ => false
  | _ => true
  end.

End Monitoring.

End MonitoringService.

(* ===================================================================== *)
(** * [GET /health], turn by turn *)
(* ===================================================================== *)

(** [performHealthCheck] and its caller are [async]: between two of their
    [await]s other callbacks run, a second health check among them, and all
    of them write to the one [this.healthStatus]. Here the service is shared
    by the calls in progress, and a call advances one turn at a time: from
    its start to the first [await], from one [await] to the next. *)

Module HealthRequests.
Import Js MonitoringService.

Section Requests.
Context {A : Double.arithmetic}.

(** Who called [performHealthCheck]: the handler of [GET /health], which
    awaits what it returns, or the timer set by [start], which does not. *)
Inductive caller : Type :=
| Route
| Timer.

(** Where a call is. [others] are the results of [checkDatabase],
    [checkMemory] and [checkApiHealth], which end in the turn of the call;
    [results] are those of all four checks, [checkRedis] first. *)
Inductive flight : Type :=
| Pinging (who : caller) (p : probes) (c : redis_client) (others : list bool)
    (* [checkRedis] is at [await client.ping()] *)
| Informing (who : caller) (p : probes) (c : redis_client) (others : list bool)
    (* [checkRedis] is at [await client.info('memory')] *)
| Settled (who : caller) (p : probes) (results : list bool)
    (* every check has ended; [await Promise.allSettled(checks)] has not resumed *)
| Returned.
    (* [performHealthCheck] has returned [this.healthStatus]; the handler,
       at [await monitoringService.performHealthCheck()], has not resumed *)

(** The service, the calls in progress and the responses sent, the last one
    first. *)
Record world : Type := {
  service : monitor;
  flights : gmap nat flight;
  responses : list (nat * HealthRoutes.response)
}.

Definition with_service (w : world) (m : monitor) : world :=
  {| service := m; flights := flights w; responses := responses w |}.

(** The entry that [checkRedis] stores when both calls have resolved. *)
Definition redis_success (p : redis_probe) (info0 : jsstring) : value :=
  let latency := ping_end p - ping_start p in
  let memoryUsed := parseRedisInfo info0 (str "used_memory_human") in
  VObject [(str "healthy", VBool true);
           (str "lastCheck", VString (redis_time p));
           (str "message", VString (str "Redis is healthy"));
           (str "latency", integer latency);
           (str "memoryUsed", memoryUsed)].

(** The first turn of [performHealthCheck()]: the four checks are started
    in the order of the source. [checkRedis] runs to its first [await], or
    to its end where there is no client; the three others run to their
    end. The call then waits at [await Promise.allSettled(checks)]. *)
Definition call (id : nat) (who : caller) (p : probes) (w : world) : world :=
  let m := service w in
  let m0 :=
    match client (of_redis p) with
    | Some _ => m
    | None =>
        with_redis m
          (redis_failure (of_redis p)
             {| code := None; message := Some (str "Redis client not available") |})
    end in
  let '(database_ok, m1) := checkDatabase (of_database p) m0 in
  let '(memory_ok, m2) := checkMemory (of_memory p) m1 in
  let '(api_ok, m3) := checkApiHealth (api_time p) m2 in
  let others := [database_ok; memory_ok; api_ok] in
  {| service := m3;
     flights :=
       <[id := match client (of_redis p) with
               | Some c => Pinging who p c others
               | None => Settled who p (false :: others)
               end]> (flights w);
     responses := responses w |}.

(** What the handler sends when [await performHealthCheck()] resumes with
    [health], which is [this.healthStatus] as it is in that turn. *)
Definition respond (h : health_status) : HealthRoutes.response :=
  (* Determine HTTP status code based on health *)
  let statusCode := if healthy h then 200 else 503 in
  {| HealthRoutes.status := statusCode;
     HealthRoutes.body :=
       VObject [(str "status",
                 VString (if healthy h then str "healthy" else str "unhealthy"));
                (str "timestamp", lastCheck h);
                (str "checkDuration", checkDuration h);
                (str "services", services_value (services h))] |}.

(** One turn of the event loop. *)
Inductive action : Type :=
| Call (id : nat) (who : caller) (p : probes)   (* [performHealthCheck()] is called *)
| PingSettles (id : nat)                        (* [await client.ping()] resumes *)
| InfoSettles (id : nat)                        (* [await client.info('memory')] resumes *)
| Resume (id : nat)                             (* [await Promise.allSettled(checks)] resumes *)
| Respond (id : nat)                            (* the handler resumes *)
| MemoryTimer (p : memory_probe)                (* the timer of [checkMemory] fires *)
| Other (e : event).                            (* a method that changes the metrics is called *)

(** A turn that cannot be taken leaves the world as it is. A call takes an
    [id] that no call in progress has. A health check is not one of the
    [Other] events: it takes the turns above. *)
Definition step (w : world) (a : action) : world :=
  match a with
  | Call id who p =>
      match flights w !! id with
      | None => call id who p w
      | Some _ => w
      end
  | PingSettles id =>
      match flights w !! id with
      | Some (Pinging who p c others) =>
          match ping c with
          | Resolved _ =>
              {| service := service w;
                 flights := <[id := Informing who p c others]> (flights w);
                 responses := responses w |}
          | Rejected error =>
              {| service := with_redis (service w) (redis_failure (of_redis p) error);
                 flights := <[id := Settled who p (false :: others)]> (flights w);
                 responses := responses w |}
          end
      | _ => w
      end
  | InfoSettles id =>
      match flights w !! id with
      | Some (Informing who p c others) =>
          match info c with
          | Resolved info0 =>
              {| service := with_redis (service w) (redis_success (of_redis p) info0);
                 flights := <[id := Settled who p (true :: others)]> (flights w);
                 responses := responses w |}
          | Rejected error =>
              {| service := with_redis (service w) (redis_failure (of_redis p) error);
                 flights := <[id := Settled who p (false :: others)]> (flights w);
                 responses := responses w |}
          end
      | _ => w
      end
  | Resume id =>
      match flights w !! id with
      | Some (Settled who p results) =>
          (* Update overall health status *)
          let allHealthy := List.forallb (fun result => result) results in
          let m := service w in
          {| service :=
               with_healthStatus m
                 {| healthy := allHealthy;
                    lastCheck := VString (check_time p);
                    checkDuration := integer (endTime p - startTime p);
                    services := services (healthStatus m) |};
             flights :=
               match who with
               | Route => <[id := Returned]> (flights w)
               | Timer => delete id (flights w)
               end;
             responses := responses w |}
      | _ => w
      end
  | Respond id =>
      match flights w !! id with
      | Some Returned =>
          {| service := service w;
             flights := delete id (flights w);
             responses := (id, respond (healthStatus (service w))) :: responses w |}
      | _ => w
      end
  | MemoryTimer p => with_service w (snd (checkMemory p (service w)))
  | Other e =>
      match e with
      | PerformHealthCheck _ => w
      | _ => with_service w (MonitoringService.step (service w) e)
      end
  end.

(** The turns, one after the other. *)
Definition run (turns : list action) (w : world) : world :=
  List.fold_left step turns w.

(** A service with no call in progress. *)
Definition idle (m : monitor) : world :=
  {| service := m; flights := ∅; responses := [] |}.

(** ** Notions used to state the properties of the turns *)

Definition is_call (id : nat) (a : action) : bool :=
  match a with
  | Call id' _ _ => Nat.eqb id id'
  | _ => false
  end.

Definition is_resume (a : action) : bool :=
  match a with
  | Resume _ => true
  | _ => false
  end.

Definition is_settled (f : option flight) : bool :=
  match f with
  | Some (Settled _ _ _) => true
  | _ => false
  end.

(** The results of the four checks of a call made on the service [m]. *)
Definition results_of (p : probes) (m : monitor) : list bool :=
  [fst (checkRedis (of_redis p) m); fst (checkDatabase (of_database p) m);
   fst (checkMemory (of_memory p) m); fst (checkApiHealth (api_time p) m)].

(** The call in progress, if any, is the one made by [who] on the service
    [m], which met [p]. *)
Definition tracks (who : caller) (p : probes) (m : monitor) (f : option flight) : Prop :=
  match f with
  | Some (Pinging who' p' c others) =>
      who' = who /\ p' = p /\ client (of_redis p) = Some c /\
      others = List.tl (results_of p m)
  | Some (Informing who' p' c others) =>
      who' = who /\ p' = p /\ client (of_redis p) = Some c /\
      (exists u, ping c = Resolved u) /\ others = List.tl (results_of p m)
  | Some (Settled who' p' results) =>
      who' = who /\ p' = p /\ results = results_of p m
  | Some Returned | None => True
  end.

End Requests.

End HealthRequests.

(* ===================================================================== *)
(** * Samples for the monitoring service *)
(* ===================================================================== *)

Module MonitoringSample.
Import Js MonitoringService.

(** A health check that meets a Redis that answers, no database, a tenth
    of the heap in use and [free] bytes of 3000 free. *)
Definition sample_probes (free : Z) : probes := {|
  startTime := 1736942400000;
  of_redis := {| client := Some {| ping := Resolved tt;
                                   info := Resolved (str "used_memory_human:1.00M") |};
                 ping_start := 1736942400001; ping_end := 1736942400003;
                 redis_time := str "2025-01-15T12:00:00.003Z" |};
  of_database := {| db := None; select_health := Resolved 1; select_count := Resolved tt;
                    query_start := 0; query_end := 0;
                    database_time := str "2025-01-15T12:00:00.001Z" |};
  of_memory := {| heapUsed := 100; rss := 300; external := 10; heap_size_limit := 1000;
                  totalmem := 3000; freemem := free;
                  memory_time := str "2025-01-15T12:00:00.001Z";
                  cleanup_now := 1736942400001 |};
  api_time := str "2025-01-15T12:00:00.002Z";
  check_time := str "2025-01-15T12:00:00.004Z";
  endTime := 1736942400004
|}.

(** The same, with a Redis that refuses the connection. *)
Definition refused_probes (free : Z) : probes := {|
  startTime := 1736942400000;
  of_redis := {| client :=
                   Some {| ping := Rejected {| code := Some (str "ECONNREFUSED");
                                               message := Some (str "connect ECONNREFUSED") |};
                           info := Resolved (str "used_memory_human:1.00M") |};
                 ping_start := 1736942400001; ping_end := 1736942400003;
                 redis_time := str "2025-01-15T12:00:00.003Z" |};
  of_database := of_database (sample_probes free);
  of_memory := of_memory (sample_probes free);
  api_time := str "2025-01-15T12:00:00.002Z";
  check_time := str "2025-01-15T12:00:00.004Z";
  endTime := 1736942400004
|}.

End MonitoringSample.

Module HealthSample.
Import Js MonitoringService HealthRequests.

(** A service that has just been constructed, in exact arithmetic, and
    what two health checks meet: a Redis that answers, and one that refuses
    the connection. *)
Definition fresh : @world Double.exact := idle (@new Double.exact None).
Definition passing : probes := MonitoringSample.sample_probes 1500.
Definition refused : probes := MonitoringSample.refused_probes 1500.

(** A request that is alone. *)
Definition alone : list (@action Double.exact) :=
  [Call 0 Route passing; PingSettles 0; InfoSettles 0; Resume 0; Respond 0].

(** Two requests, the second called while the first waits for Redis. The
    check of the second resumes after that of the first, and before the
    handler of the first. *)
Definition overlapping : list (@action Double.exact) :=
  [Call 0 Route passing; Call 1 Route refused; PingSettles 0; InfoSettles 0;
   PingSettles 1; Resume 0; Resume 1; Respond 0; Respond 1].

End HealthSample.

(* ===================================================================== *)
(** * The production configuration: what happens when it is loaded *)
(* ===================================================================== *)

Module ProductionConfig.
Import Js.

(** [process.env]: the value of a variable, if it is set. *)
Definition environment : Type := jsstring -> option jsstring.

Definition requiredEnvVars : list jsstring :=
  [str "JWT_SECRET"; str "ENCRYPTION_KEY"; str "WEB_SESSION_SECRET";
   str "REDIS_HOST"; str "REDIS_PASSWORD"].

(** The negation of [!process.env[varName]] *)
Definition is_set (env : environment) (varName : jsstring) : bool :=
  match env varName with
  | Some (_ :: _) => true
  | _ => false
  end.

Definition missingVars (env : environment) : list jsstring :=
  List.filter (fun varName => negb (is_set env varName)) requiredEnvVars.

(** [array.includes(s)] *)
Definition includes (l : list jsstring) (s : jsstring) : bool :=
  List.existsb (jsstring_eqb s) l.

(** What is written to the console. *)
Inductive output : Type :=
| Error_list (text : jsstring) (items : list jsstring)   (* [console.error(text, array)] *)
| Error_line (text : jsstring)                           (* [console.error(text)] *)
| Log_line (text : jsstring).                            (* [console.log(text)] *)

(** The part of the exported object that [validateConfig] reads. *)
Record config : Type := {
  jwtSecret : option jsstring;        (* [security.jwtSecret] *)
  encryptionKey : option jsstring;    (* [security.encryptionKey] *)
  redis_host : option jsstring        (* [redis.host] *)
}.

(** How the load of the module ends. *)
Inductive outcome : Type :=
| Exit (code : Z)                 (* [process.exit(code)] *)
| Uncaught (message : jsstring)   (* an error that nothing catches *)
| Loaded (exported : config).

(** [s.length], for a member that may be [undefined] *)
Definition length_of (s : option jsstring) : result Z :=
  match s with
  | Some s' => Ok (Z.of_nat (List.length s'))
  | None => Throw (cannot_read (str "undefined") (str "length"))
  end.

(** The [errors] that [validateConfig(config)] collects. *)
Definition validation_errors (c : config) : result (list jsstring) :=
  (* Validate JWT secret length *)
  bind (length_of (jwtSecret c)) (fun jwt_length =>
  (* Validate encryption key length *)
  bind (length_of (encryptionKey c)) (fun key_length =>
  Ok ((if jwt_length <? 32
       then [str "JWT_SECRET should be at least 32 characters long"] else [])
      ++ (if key_length <? 32
          then [str "ENCRYPTION_KEY should be at least 32 characters long"] else [])
      (* Validate Redis connection *)
      ++ (if negb (match redis_host c with Some (_ :: _) => true | _ => false end)
          then [str "REDIS_HOST is required"] else [])))).

(** The suggestion printed for a missing secret; [random] is
    [crypto.randomBytes(32)]. *)
Definition suggestion (missing : list jsstring) (name : string) (random : list Z)
  : list output :=
  if includes missing (str name)
  then [Log_line (str "Suggested " ++ str name ++ str ": " ++ toString_hex random)]
  else [].

(** The module is loaded: the console output and the outcome. [random1],
    [random2] and [random3] are what the three calls of
    [crypto.randomBytes(32)] return. *)
Definition load (env : environment) (random1 random2 random3 : list Z)
  : list output * outcome :=
  let missing := missingVars env in
  if (0 <? List.length missing)%nat then
    ([Error_list (str "Missing required environment variables:") missing;
      Error_line (str "Please set these variables before starting in production mode")]
     (* Generate secure suggestions for missing secrets *)
     ++ suggestion missing "JWT_SECRET" random1
     ++ suggestion missing "ENCRYPTION_KEY" random2
     ++ suggestion missing "WEB_SESSION_SECRET" random3,
     Exit 1)
  else
    let exported := {| jwtSecret := env (str "JWT_SECRET");
                       encryptionKey := env (str "ENCRYPTION_KEY");
                       redis_host := env (str "REDIS_HOST") |} in
    (* Validate on load *)
    match validation_errors exported with
    | Throw message => ([], Uncaught message)
    | Ok [] => ([], Loaded exported)
    | Ok errors =>
        (Error_line (str "Configuration validation errors:")
         :: List.map (fun error => Error_line (str "  - " ++ error)) errors,
         Exit 1)
    end.

(** [redis.retryStrategy(times)] *)
Definition retryStrategy (times : Z) : Z := Z.min (times * 50) 2000.

(** ** Notions used to state the properties of the load *)

(** The variable is set to a string of at least 32 UTF-16 code units. *)
Definition long_enough (env : environment) (varName : jsstring) : Prop :=
  exists s, env varName = Some s /\ (32 <= List.length s)%nat.

End ProductionConfig.

Example utf8_ascii : Js.utf8_encode (Js.str "sk_1") = [115; 107; 95; 49].
Proof. reflexivity. Qed.

Example utf8_euro : Js.utf8_encode [0x20AC] = [0xE2; 0x82; 0xAC].
Proof. reflexivity. Qed.

Example utf8_astral : Js.utf8_encode [0xD83D; 0xDE00] = [0xF0; 0x9F; 0x98; 0x80].
Proof. reflexivity. Qed.

Example utf8_lone_surrogate : Js.utf8_encode [0xD800; 0x41] = [0xEF; 0xBF; 0xBD; 0x41].
Proof. reflexivity. Qed.

Example hex_of_bytes : Js.toString_hex [0; 0xAB; 0xFF] = Js.str "00abff".
Proof. reflexivity. Qed.

Example round_constants :
  List.map Js.toString_hex
    [Crypto.be_bytes 4 (nth 0 (Crypto.Kc Crypto.sha256_params) 0);
     Crypto.be_bytes 4 (nth 63 (Crypto.Kc Crypto.sha256_params) 0);
     Crypto.be_bytes 8 (nth 79 (Crypto.Kc Crypto.sha512_params) 0)]
  = [Js.str "428a2f98"; Js.str "c67178f2"; Js.str "6c44198c4a475817"].
Proof. vm_compute. reflexivity. Qed.

Example sha256_abc :
  Crypto.sha256_hex (Js.str "abc")
  = Js.str "ba7816bf8f01cfea414140de5dae2223b00361a396177a9cb410ff61f20015ad".
Proof. vm_compute. reflexivity. Qed.

Example sha256_empty :
  Crypto.sha256_hex []
  = Js.str "e3b0c44298fc1c149afbf4c8996fb92427ae41e4649b934ca495991b7852b855".
Proof. vm_compute. reflexivity. Qed.

Example sha256_two_blocks :
  Js.toString_hex (Crypto.sha256 (repeat 97 64))
  = Js.str "ffe054fe7ae0cb6dc65c3af9b61d5209f439851db43d0ba5997337df154668eb".
Proof. vm_compute. reflexivity. Qed.

Example sha512_abc :
  Js.toString_hex (Crypto.sha512 (Js.utf8_encode (Js.str "abc")))
  = Js.str "ddaf35a193617abacc417349ae20413112e6fa4e89a97ea20a9eeee64b55d39a2192992a274fc1a836ba3c23a3feebbd454d4423643ce80e2a9ac94fa54ca49f".
Proof. vm_compute. reflexivity. Qed.

Example hmac_sha512_fox :
  Js.toString_hex
    (Crypto.hmac Crypto.sha512_params (Js.utf8_encode (Js.str "key"))
       (Js.utf8_encode (Js.str "The quick brown fox jumps over the lazy dog")))
  = Js.str "b42af09057bac1e2d41708e48a902e09b5ff7f12ab428a4fe86653c73dd248fb82f948a549f7b791a5b41915ee4d1ec3935357e4e2317250d0372afa2ebeeb3a".
Proof. vm_compute. reflexivity. Qed.

Example pbkdf2_two_iterations :
  Js.toString_hex
    (Crypto.pbkdf2Sync_sha512 (Js.str "sk_test_secure_key_123456") (Js.str "00ff") 2 64)
  = Js.str "85bf01131f2e9781545571d1ace403e3bfde98a2b6884838f9ed0a5d5c8b3272cd27b79839338f38f3d32591878ea3003fac429b120999300db23075b2da7389".
Proof. vm_compute. reflexivity. Qed.

Example pbkdf2_two_blocks :
  Js.toString_hex (Crypto.pbkdf2Sync_sha512 (Js.str "pw") (Js.str "salt") 3 100)
  = Js.str "6a7be24f5b46c5c3769d73a6689b3ad79f9f245a1cdb20e41ee9d5a31bea14445f54a362850dd4dc7d6a22b714d3d05635425c3f127951dfb8f1d9bf88f143538798e0acae2ca6a88b3f109a4e8c2cc1e64f77a4131b3b721cdaafd197d350736d920b41".
Proof. vm_compute. reflexivity. Qed.

(** The calls of [test-security-improvements.js], tests 2 and 4. *)
Example compare_identical :
  SecurityUtils.constantTimeCompare
    (Js.VString (Js.str "sk_test123456789")) (Js.VString (Js.str "sk_test123456789")) = true.
Proof. vm_compute. reflexivity. Qed.

Example compare_different :
  SecurityUtils.constantTimeCompare
    (Js.VString (Js.str "sk_test123456789")) (Js.VString (Js.str "sk_test123456788")) = false.
Proof. vm_compute. reflexivity. Qed.

Example format_valid_keys :
  List.map (fun k => SecurityUtils.isValidApiKeyFormat (Js.VString (Js.str k)))
    ["sk_1234567890abcdef1234567890abcdef"; "cr_test_key_with_underscores_123"]%string
  = [true; true].
Proof. vm_compute. reflexivity. Qed.

(** Two different strings with the same encoding: each is one unpaired
    surrogate, written as U+FFFD. *)
Example compare_unpaired_surrogates :
  SecurityUtils.constantTimeCompare (Js.VString [0xD800]) (Js.VString [0xDC01]) = true.
Proof. vm_compute. reflexivity. Qed.

(** Equal [.length], different byte lengths. *)
Example compare_byte_lengths :
  SecurityUtils.constantTimeCompare (Js.VString (Js.str "e")) (Js.VString [0xE9]) = false.
Proof. vm_compute. reflexivity. Qed.

Example compare_not_strings :
  SecurityUtils.constantTimeCompare Js.VUndefined Js.VUndefined = false
  /\ SecurityUtils.constantTimeCompare (Js.VNumber (Js.Num 1)) (Js.VString (Js.str "1")) = false.
Proof. split; reflexivity. Qed.

(** The bounds of the length check, and a character outside the class. *)
Example format_boundaries :
  List.map (fun n => SecurityUtils.isValidApiKeyFormat (Js.VString (Js.str "sk_" ++ repeat 97 n)))
    [16; 17; 253; 254]%nat
  ++ [SecurityUtils.isValidApiKeyFormat (Js.VString (Js.str "pk_" ++ repeat 97 17 ++ [10]));
      SecurityUtils.isValidApiKeyFormat (Js.VString (Js.str "cr_" ++ repeat 0xE9 17));
      SecurityUtils.isValidApiKeyFormat (Js.VString (Js.str "ab_" ++ repeat 97 17));
      SecurityUtils.isValidApiKeyFormat Js.VNull]
  = [false; true; true; false; false; false; false; false].
Proof. vm_compute. reflexivity. Qed.

Example format_invalid_keys :
  List.map (fun k => SecurityUtils.isValidApiKeyFormat (Js.VString (Js.str k)))
    ["invalid_key"; "sk_"; "sk_short"; "sk_invalid-chars!@#"]%string
  ++ [SecurityUtils.isValidApiKeyFormat (Js.VString (repeat 120 300))]
  = [false; false; false; false; false].
Proof. vm_compute. reflexivity. Qed.

(* ===================================================================== *)
(** * Facts about double arithmetic *)
(* ===================================================================== *)

Section Float64Facts.
Import Float64.
Local Open Scope Q_scope.

Lemma two_positive (e : Z) : 0 < 2 ^ e.
Proof. apply Qpower_0_lt. reflexivity. Qed.

Lemma two_to_Z (k : Z) : (0 <= k)%Z -> 2 ^ k == inject_Z (2 ^ k).
Proof. intros Hk. symmetry. apply (Zpower_Qpower 2 k Hk). Qed.

(** [2 ^ ilog2 a] is at most [a]. *)
Lemma ilog2_below (a : Q) : 0 < a -> 2 ^ ilog2 a <= a.
Proof.
  intros Ha. unfold ilog2.
  destruct (Qle_bool (2 ^ (Z.log2 (Qnum a) - Z.log2 (Z.pos (Qden a)))) a) eqn:E.
  - apply Qle_bool_iff. exact E.
  - clear E. destruct a as [n d]. cbn [Qnum Qden].
    assert (Hn : (0 < n)%Z) by (unfold Qlt in Ha; simpl in Ha; lia).
    pose proof (Z.log2_spec n Hn) as [Hln _].
    pose proof (Z.log2_spec (Z.pos d) ltac:(lia)) as [_ Hld].
    pose proof (Z.log2_nonneg n) as Hln0.
    pose proof (Z.log2_nonneg (Z.pos d)) as Hld0.
    replace (Z.log2 n - Z.log2 (Z.pos d) - 1)%Z
      with (Z.log2 n - (Z.log2 (Z.pos d) + 1))%Z by lia.
    rewrite Qpower_minus by discriminate.
    rewrite (Qmake_Qdiv n d), !two_to_Z by lia.
    apply Qle_shift_div_l; [rewrite <- (Zlt_Qlt 0); lia|].
    apply Qle_trans with (inject_Z (2 ^ Z.log2 n) * 1).
    + unfold Qdiv. rewrite <- Qmult_assoc.
      apply Qmult_le_compat_nonneg.
      * split; [rewrite <- (Zle_Qle 0); apply Z.pow_nonneg; lia | apply Qle_refl].
      * split.
        -- apply Qmult_le_0_compat.
           ++ apply Qlt_le_weak, Qinv_lt_0_compat. rewrite <- (Zlt_Qlt 0).
              apply Z.pow_pos_nonneg; lia.
           ++ rewrite <- (Zle_Qle 0). lia.
        -- rewrite Qmult_comm. apply Qle_shift_div_r.
           ++ rewrite <- (Zlt_Qlt 0). apply Z.pow_pos_nonneg; lia.
           ++ rewrite Qmult_1_l, <- Zle_Qle. rewrite Z.add_1_r. lia.
    + rewrite Qmult_1_r, <- Zle_Qle. exact Hln.
Qed.



Lemma nearest_even_positive (y : Q) : 1 # 2 < y -> (1 <= nearest_even y)%Z.
Proof.
  intros Hy. unfold nearest_even.
  assert (Hf : (0 <= Qfloor y)%Z).
  { change 0%Z with (Qfloor 0). apply Qfloor_resp_le.
    apply Qlt_le_weak. eapply Qlt_trans; [|exact Hy]. reflexivity. }
  assert (Hpos : y - inject_Z (Qfloor y) <= 1 # 2 -> (1 <= Qfloor y)%Z).
  { intros Hle. destruct (Z.eq_dec (Qfloor y) 0%Z) as [H0|H0]; [|lia].
    rewrite H0 in Hle. exfalso. apply (Qlt_not_le _ _ Hy).
    setoid_replace y with (y - inject_Z 0) using relation Qeq
        by (unfold inject_Z; ring). exact Hle. }
  destruct (y - inject_Z (Qfloor y) ?= 1 # 2) eqn:E.
  - apply Qeq_alt in E.
    assert (H1 : (1 <= Qfloor y)%Z) by (apply Hpos; rewrite E; apply Qle_refl).
    destruct (Z.even (Qfloor y)); lia.
  - apply Qlt_alt in E. apply Hpos. apply Qlt_le_weak. exact E.
  - lia.
Qed.

(** A number of magnitude above [2 ^ -1075] is not rounded to zero. *)
Lemma round_not_0 (x : Q) : 1 # 2 ^ 1075 < Qabs x -> ~ round x == 0.
Proof.
  intros Hx. unfold round.
  assert (Ha : 0 < Qabs x) by (eapply Qlt_trans; [|exact Hx]; reflexivity).
  destruct (Qeq_bool x 0) eqn:E0.
  { apply Qeq_bool_iff in E0. rewrite E0 in Ha. discriminate Ha. }
  cbv zeta. rewrite Qred_correct.
  set (a := Qabs x) in *. set (e := exponent a).
  assert (Hy : 1 # 2 < a / 2 ^ e).
  { apply Qlt_shift_div_l; [apply two_positive|].
    unfold e, exponent.
    destruct (Z.max_spec (ilog2 a - 52)%Z (- 1074)%Z) as [[_ ->]|[_ ->]].
    - eapply Qle_lt_trans; [|exact Hx]. vm_compute. discriminate.
    - apply Qlt_le_trans with (2 ^ (ilog2 a - 52)).
      + rewrite <- (Qmult_1_l (2 ^ (ilog2 a - 52))) at 2.
        apply Qmult_lt_compat_r; [apply two_positive | reflexivity].
      + apply Qle_trans with (2 ^ ilog2 a); [|apply ilog2_below; exact Ha].
        apply Qpower_le_compat_l; [lia | discriminate]. }
  pose proof (nearest_even_positive _ Hy) as Hm.
  intros H. apply Qmult_integral in H as [H|H].
  - apply Qmult_integral in H as [H|H].
    + destruct (Qle_bool 0 x); discriminate H.
    + unfold Qeq in H. simpl in H. lia.
  - pose proof (two_positive e) as He. rewrite H in He. discriminate He.
Qed.


(** Exactly the numbers of magnitude at most [2 ^ -1075], half the least
    positive double, are rounded to zero. *)
Lemma round_0 (x : Q) : round x == 0 <-> Qabs x <= 1 # 2 ^ 1075.
Proof.
  split.
  - intros H. destruct (Qlt_le_dec (1 # 2 ^ 1075) (Qabs x)) as [Hlt|Hle]; [|exact Hle].
    exfalso. exact (round_not_0 x Hlt H).
  - intros Hx. unfold round.
    destruct (Qeq_bool x 0) eqn:E0; [reflexivity|].
    apply Qeq_bool_neq in E0. cbv zeta. rewrite Qred_correct.
    assert (Ha : 0 < Qabs x).
    { destruct (Qlt_le_dec 0 (Qabs x)) as [H|H]; [exact H|].
      exfalso. apply E0. apply Qabs_Qle_condition in H as [H1 H2].
      apply Qle_antisym; [exact H2 | exact H1]. }
    set (a := Qabs x) in *.
    assert (He : exponent a = (- 1074)%Z).
    { unfold exponent. apply Z.max_r.
      destruct (Z_le_gt_dec (ilog2 a - 52)%Z (- 1074)%Z) as [Hk|Hk]; [exact Hk|].
      exfalso.
      assert (H1 : 2 ^ (- 1021) <= 2 ^ ilog2 a)
        by (apply Qpower_le_compat_l; [lia | discriminate]).
      pose proof (Qle_trans _ _ _ (Qle_trans _ _ _ H1 (ilog2_below a Ha)) Hx) as H2.
      apply Qle_bool_iff in H2. vm_compute in H2. discriminate H2. }
    rewrite He.
    assert (Hy0 : 0 <= a / 2 ^ (- 1074)).
    { apply Qle_shift_div_l; [apply two_positive|]. rewrite Qmult_0_l.
      apply Qlt_le_weak. exact Ha. }
    assert (Hy1 : a / 2 ^ (- 1074) <= 1 # 2).
    { apply Qle_shift_div_r; [apply two_positive|].
      eapply Qle_trans; [exact Hx|]. vm_compute. discriminate. }
    assert (Hf : Qfloor (a / 2 ^ (- 1074)) = 0%Z).
    { apply Z.le_antisymm.
      - change 0%Z with (Qfloor (1 # 2)). apply Qfloor_resp_le. exact Hy1.
      - change 0%Z with (Qfloor 0). apply Qfloor_resp_le. exact Hy0. }
    assert (Hm : nearest_even (a / 2 ^ (- 1074)) = 0%Z).
    { unfold nearest_even. rewrite Hf.
      destruct (a / 2 ^ (- 1074) - inject_Z 0 ?= 1 # 2) eqn:E; try reflexivity.
      exfalso. apply Qgt_alt in E. apply (Qlt_not_le _ _ E).
      setoid_replace (a / 2 ^ (- 1074) - inject_Z 0) with (a / 2 ^ (- 1074)) using relation Qeq
        by (unfold inject_Z; ring).
      exact Hy1. }
    rewrite Hm. change (inject_Z 0) with 0. ring.
Qed.



End Float64Facts.

(** The model against doubles computed by a JavaScript engine: [0.1], the
    subnormal [1e-320], [0.1 + 0.2], [0.07 / 100] (which is not the double
    [0.0007]), a tie that goes to the even digit, and sums of integers
    beyond [2 ^ 53]. *)
Example float64_tenth : Float64.round (1 # 10) = (3602879701896397 # 36028797018963968)%Q.
Proof. vm_compute. reflexivity. Qed.

Example float64_subnormal : Float64.round (1 # 10 ^ 320) = (253 # 2 ^ 1071)%Q.
Proof. vm_compute. reflexivity. Qed.

Example float64_sum :
  Float64.round (Float64.round (1 # 10) + Float64.round (2 # 10))
  = (1351079888211149 # 4503599627370496)%Q.
Proof. vm_compute. reflexivity. Qed.

Example float64_quotient :
  Float64.div (Float64.round (7 # 100)) 100 = (807045053224793 # 1152921504606846976)%Q
  /\ Float64.round (7 # 10000) = (6456360425798343 # 9223372036854775808)%Q.
Proof. split; vm_compute; reflexivity. Qed.

Example float64_least :
  Float64.div (50 # 2 ^ 1074) 100 = 0%Q
  /\ Float64.div (51 # 2 ^ 1074) 100 = (1 # 2 ^ 1074)%Q
  /\ Float64.div 500 100 = 5%Q.
Proof. repeat split; vm_compute; reflexivity. Qed.

Example float64_integers :
  Float64.plus 100 20 = 120
  /\ Float64.plus (2 ^ 53) 1 = 2 ^ 53
  /\ Float64.plus (2 ^ 53) 3 = 2 ^ 53 + 4
  /\ Float64.plus (Float64.plus (2 ^ 53) 1) 1 = 2 ^ 53
  /\ Float64.plus (2 ^ 53) (1 + 1) = 2 ^ 53 + 2.
Proof. repeat split; vm_compute; reflexivity. Qed.

(* ===================================================================== *)
(** * Facts about the run-time model *)
(* ===================================================================== *)

Section BufferFacts.
Import Js.

Lemma is_string_true (v : value) :
  SecurityUtils.is_string v = true <-> exists s, v = VString s.
Proof.
  split.
  - destruct v; simpl; try discriminate. intros _. eexists; reflexivity.
  - intros [s ->]. reflexivity.
Qed.

(** The accumulator of the comparison loop is zero at the end exactly when
    it was zero at the start and no pair of bytes differed. *)
Lemma memcmp_acc_zero (a : list Z) :
  forall (b : list Z) (acc : Z),
    List.length a = List.length b ->
    (Crypto.memcmp_acc acc a b = 0 <-> acc = 0 /\ a = b).
Proof.
  induction a as [|x a IH]; intros [|y b] acc Hlen; simpl in *; try discriminate.
  - tauto.
  - injection Hlen as Hlen. rewrite (IH b _ Hlen), Z.lor_eq_0_iff. split.
    + intros [[Hacc Hx] Hab]. apply Z.lxor_eq in Hx. subst. tauto.
    + intros [Hacc Heq]. injection Heq as -> ->. rewrite Z.lxor_nilpotent. tauto.
Qed.

Lemma timingSafeEqual_spec (a b : list Z) :
  List.length a = List.length b ->
  Crypto.timingSafeEqual a b = Some (bool_decide (a = b)).
Proof.
  intros Hlen. unfold Crypto.timingSafeEqual.
  rewrite (proj2 (Nat.eqb_eq _ _) Hlen). f_equal.
  destruct (Z.eqb_spec (Crypto.memcmp_acc 0 a b) 0) as [H|H].
  - apply (memcmp_acc_zero a b 0 Hlen) in H as [_ ->].
    symmetry. apply bool_decide_eq_true. reflexivity.
  - symmetry. apply bool_decide_eq_false. intros ->. apply H.
    apply (memcmp_acc_zero b b 0 Hlen). tauto.
Qed.

Lemma timingSafeEqual_throws (a b : list Z) :
  List.length a <> List.length b -> Crypto.timingSafeEqual a b = None.
Proof.
  intros Hlen. unfold Crypto.timingSafeEqual.
  destruct (Nat.eqb_spec (List.length a) (List.length b)); [contradiction | reflexivity].
Qed.

(** On two strings the function is the equality test of their encodings. *)
Lemma constantTimeCompare_strings (sa sb : jsstring) :
  SecurityUtils.constantTimeCompare (VString sa) (VString sb)
  = bool_decide (Buffer_from sa = Buffer_from sb).
Proof.
  unfold SecurityUtils.constantTimeCompare, Buffer_byteLength, Buffer_from. simpl.
  destruct (Nat.eqb_spec (List.length (utf8_encode sa)) (List.length (utf8_encode sb)))
    as [Hlen|Hlen]; simpl.
  - rewrite (timingSafeEqual_spec _ _ Hlen). reflexivity.
  - symmetry. apply bool_decide_eq_false. intros Heq. apply Hlen. rewrite Heq. reflexivity.
Qed.

End BufferFacts.

(** ** C9 *)

(** C9. [constantTimeCompare(a, b)] is defined on every pair of values, and is
    [true] exactly when both are strings whose UTF-8 encodings have the same
    number of bytes and the same bytes. It is [false], and nothing is thrown,
    when an argument is not a string or when the byte lengths differ; the call
    of [crypto.timingSafeEqual] it reaches never throws. *)
Theorem constantTimeCompare_correct (a b : Js.value) :
  (SecurityUtils.constantTimeCompare a b = true <->
   exists sa sb,
     a = Js.VString sa /\ b = Js.VString sb /\
     Js.Buffer_byteLength sa = Js.Buffer_byteLength sb /\
     Js.Buffer_from sa = Js.Buffer_from sb)
  /\ (Js.typeof a <> Js.TString \/ Js.typeof b <> Js.TString ->
      SecurityUtils.constantTimeCompare a b = false)
  /\ (forall sa sb,
        a = Js.VString sa -> b = Js.VString sb ->
        (Js.Buffer_byteLength sa <> Js.Buffer_byteLength sb ->
         SecurityUtils.constantTimeCompare a b = false)
        /\ (Js.Buffer_byteLength sa = Js.Buffer_byteLength sb ->
            Crypto.timingSafeEqual (Js.Buffer_from sa) (Js.Buffer_from sb)
            = Some (SecurityUtils.constantTimeCompare a b))).
Proof.
  split; [|split].
  - split.
    + intros H.
      destruct a as [| | | |sa|]; try discriminate H.
      destruct b as [| | | |sb|]; try discriminate H.
      rewrite constantTimeCompare_strings in H. apply bool_decide_eq_true in H.
      exists sa, sb. repeat split; trivial.
      unfold Js.Buffer_byteLength. unfold Js.Buffer_from in H. rewrite H. reflexivity.
    + intros (sa & sb & -> & -> & _ & Heq).
      rewrite constantTimeCompare_strings. apply bool_decide_eq_true. exact Heq.
  - intros [H|H].
    + destruct a; try reflexivity. exfalso. apply H. reflexivity.
    + destruct b; try (destruct a; reflexivity). exfalso. apply H. reflexivity.
  - intros sa sb -> ->. split.
    + intros Hlen. rewrite constantTimeCompare_strings.
      apply bool_decide_eq_false. intros Heq. apply Hlen.
      unfold Js.Buffer_byteLength. unfold Js.Buffer_from in Heq. rewrite Heq. reflexivity.
    + intros Hlen. rewrite constantTimeCompare_strings.
      apply timingSafeEqual_spec. exact Hlen.
Qed.

(* ===================================================================== *)
(** * The key-format guard *)
(* ===================================================================== *)

Section RegexFacts.
Import Js.

Lemma matches_lit (p s : jsstring) : Regex.matches (Regex.lit p) s <-> s = p.
Proof.
  revert s. induction p as [|c p IH]; intros s; simpl.
  - reflexivity.
  - split.
    + intros (s1 & s2 & -> & -> & H2). apply IH in H2. subst. reflexivity.
    + intros ->. exists [c], p. repeat split. apply IH. reflexivity.
Qed.

(** A counted repetition of a character class matches the strings of an
    allowed length made of characters of the class. *)
Lemma matches_rep_class (lo : nat) (hi : option nat) (rs : list (Z * Z)) (s : jsstring) :
  Regex.matches (Regex.Rep lo hi (Regex.Cls rs)) s <->
  (lo <= List.length s)%nat /\ Regex.at_most (List.length s) hi /\
  List.Forall (fun c => Regex.in_ranges c rs = true) s.
Proof.
  simpl. split.
  - intros (ss & -> & Hlo & Hhi & Hall).
    assert (Hlen : List.length (List.concat ss) = List.length ss
                   /\ List.Forall (fun c => Regex.in_ranges c rs = true) (List.concat ss)).
    { clear Hlo Hhi. induction Hall as [|x ss (c & -> & Hc) _ [IH1 IH2]]; simpl.
      - split; constructor.
      - split; [congruence | constructor; assumption]. }
    destruct Hlen as [Hlen Hcs]. rewrite Hlen. auto.
  - intros (Hlo & Hhi & Hall).
    exists (List.map (fun c => [c]) s).
    rewrite List.length_map. repeat split; trivial.
    + clear. induction s as [|c s IH]; simpl; congruence.
    + clear Hlo Hhi. induction Hall as [|c s Hc _ IH]; simpl; constructor; trivial.
      exists c. auto.
Qed.

Ltac key_char_cases c :=
  unfold SecurityUtils.is_key_char, Regex.in_ranges; simpl;
  destruct (Z.leb_spec 97 c), (Z.leb_spec c 122), (Z.leb_spec 65 c), (Z.leb_spec c 90),
    (Z.leb_spec 48 c), (Z.leb_spec c 57), (Z.eqb_spec c 95), (Z.leb_spec 95 c),
    (Z.leb_spec c 95); simpl; try reflexivity; lia.

(** The class as the specification writes it, [[A-Za-z0-9_]]. *)
Lemma is_key_char_class (c : Z) :
  SecurityUtils.is_key_char c = Regex.in_ranges c [(65, 90); (97, 122); (48, 57); (95, 95)].
Proof. key_char_cases c. Qed.

(** The class as the source writes it, [[a-zA-Z0-9_]]. *)
Lemma is_key_char_source (c : Z) :
  SecurityUtils.is_key_char c = Regex.in_ranges c [(97, 122); (65, 90); (48, 57); (95, 95)].
Proof. key_char_cases c. Qed.

Lemma forallb_key_char (rs : list (Z * Z)) (s : jsstring) :
  (forall c, SecurityUtils.is_key_char c = Regex.in_ranges c rs) ->
  forallb SecurityUtils.is_key_char s = true <->
  List.Forall (fun c => Regex.in_ranges c rs = true) s.
Proof.
  intros Hrs. rewrite List.forallb_forall, List.Forall_forall.
  split; intros H x Hx; specialize (H x Hx); rewrite Hrs in *; exact H.
Qed.

(** The test of the source's expression agrees with the expression. *)
Lemma key_part_test_matches (s : jsstring) :
  SecurityUtils.key_part_test s = true <-> Regex.matches Regex.key_part s.
Proof.
  unfold Regex.key_part. rewrite matches_rep_class. simpl Regex.at_most.
  rewrite <- (forallb_key_char _ s is_key_char_source).
  destruct s as [|c s].
  - simpl. split; [discriminate | intros [H _]; lia].
  - unfold SecurityUtils.key_part_test. simpl List.length. split.
    + intros H. repeat split; [lia | exact H].
    + intros (_ & _ & H). exact H.
Qed.

Lemma startsWith_app (p s : jsstring) :
  startsWith s p = true <-> exists rest, s = p ++ rest.
Proof.
  revert s. induction p as [|a p IH]; intros s.
  - destruct s; simpl; split; trivial; intros _; eexists; reflexivity.
  - destruct s as [|b s]; simpl.
    + split; [discriminate | intros [rest H]; discriminate].
    + rewrite andb_true_iff, Z.eqb_eq, IH. split.
      * intros [-> [rest ->]]. exists rest. reflexivity.
      * intros [rest H]. injection H as -> ->. split; [reflexivity | exists rest; reflexivity].
Qed.

Lemma validPrefixes_cases (prefix : jsstring) :
  List.In prefix SecurityUtils.validPrefixes <->
  prefix = str "sk_" \/ prefix = str "cr_" \/ prefix = str "pk_".
Proof.
  unfold SecurityUtils.validPrefixes. simpl List.In.
  split; [intros [<-|[<-|[<-|H]]]; auto; destruct H | intros [-> | [-> | ->]]; auto].
Qed.

Lemma validPrefixes_length (prefix : jsstring) :
  List.In prefix SecurityUtils.validPrefixes -> List.length prefix = 3%nat.
Proof.
  intros H. apply validPrefixes_cases in H. destruct H as [-> | [-> | ->]]; reflexivity.
Qed.


Lemma substring_prefix (prefix rest : jsstring) :
  List.length prefix = 3%nat -> substring 3 (prefix ++ rest) = rest.
Proof.
  intros H. unfold substring. rewrite <- H, List.skipn_app, Nat.sub_diag, List.skipn_all.
  reflexivity.
Qed.

(** The chain of early returns, as one conjunction. *)
Lemma isValidApiKeyFormat_string (s : jsstring) :
  SecurityUtils.isValidApiKeyFormat (VString s) =
  truthy (VString s)
  && negb ((List.length s <? 20)%nat || (256 <? List.length s)%nat)
  && existsb (fun prefix => startsWith s prefix) SecurityUtils.validPrefixes
  && SecurityUtils.key_part_test (substring 3 s).
Proof.
  unfold SecurityUtils.isValidApiKeyFormat.
  change (SecurityUtils.is_string (VString s)) with true.
  destruct (truthy (VString s)); [|reflexivity]. cbn [negb orb andb].
  destruct ((List.length s <? 20)%nat || (256 <? List.length s)%nat); [reflexivity|].
  cbn [negb andb].
  destruct (existsb _ SecurityUtils.validPrefixes); [|reflexivity]. cbn [negb andb].
  destruct (SecurityUtils.key_part_test _); reflexivity.
Qed.

Lemma key_part_test_true (s : jsstring) :
  SecurityUtils.key_part_test s = true <->
  (1 <= List.length s)%nat /\ List.Forall (fun c => SecurityUtils.is_key_char c = true) s.
Proof.
  rewrite List.Forall_forall, <- List.forallb_forall. destruct s as [|c s]; simpl.
  - split; [discriminate | intros [H _]; lia].
  - split; [intros H; split; [lia | exact H] | intros [_ H]; exact H].
Qed.

Lemma isValidApiKeyFormat_well_formed (s : jsstring) :
  SecurityUtils.isValidApiKeyFormat (VString s) = true <-> SecurityUtils.well_formed_key s.
Proof.
  rewrite isValidApiKeyFormat_string, !andb_true_iff, negb_true_iff, orb_false_iff,
    !Nat.ltb_ge, List.existsb_exists, key_part_test_true.
  unfold SecurityUtils.well_formed_key. split.
  - intros ((( _ & Hlo & Hhi) & prefix & Hin & Hsw) & _ & Hall).
    apply startsWith_app in Hsw as [rest ->].
    pose proof (validPrefixes_length _ Hin) as Hlen.
    rewrite (substring_prefix _ _ Hlen) in Hall. rewrite List.length_app in *.
    exists prefix, rest. repeat split; trivial; lia.
  - intros (prefix & rest & -> & Hin & [Hlo Hhi] & Hall).
    pose proof (validPrefixes_length _ Hin) as Hlen.
    rewrite (substring_prefix _ _ Hlen), List.length_app.
    repeat split; trivial; try lia.
    + destruct prefix; [discriminate | reflexivity].
    + exists prefix. split; [exact Hin|]. apply startsWith_app. exists rest. reflexivity.
Qed.

Lemma guard_well_formed (s : jsstring) :
  Regex.matches Regex.guard s <-> SecurityUtils.well_formed_key s.
Proof.
  unfold SecurityUtils.well_formed_key. split.
  - intros (s1 & s2 & -> & Hpre & Hrep).
    apply matches_rep_class in Hrep as (Hlo & Hhi & Hall). simpl in Hhi.
    exists s1, s2. repeat split; trivial.
    + cbn [Regex.matches] in Hpre. rewrite !matches_lit in Hpre.
      apply validPrefixes_cases. exact Hpre.
    + apply (forallb_key_char _ s2 is_key_char_class) in Hall.
      apply List.Forall_forall. apply List.forallb_forall. exact Hall.
  - intros (prefix & rest & -> & Hin & [Hlo Hhi] & Hall).
    exists prefix, rest. repeat split.
    + cbn [Regex.matches]. rewrite !matches_lit. apply validPrefixes_cases. exact Hin.
    + apply matches_rep_class. repeat split; trivial.
      apply (forallb_key_char _ rest is_key_char_class).
      apply List.forallb_forall. apply List.Forall_forall. exact Hall.
Qed.

End RegexFacts.

(** ** C3 *)

(** C3. For every string [s], [isValidApiKeyFormat(s)] is [true] exactly when
    [s] matches [^(sk_|cr_|pk_)[A-Za-z0-9_]{17,253}$]; equivalently, when [s]
    is one of the prefixes [sk_], [cr_], [pk_] followed by 17 to 253 letters,
    digits or underscores, 20 to 256 characters in all. *)
Theorem isValidApiKeyFormat_guard (s : Js.jsstring) :
  (SecurityUtils.isValidApiKeyFormat (Js.VString s) = true <-> Regex.matches Regex.guard s)
  /\ (Regex.matches Regex.guard s <->
      exists prefix rest,
        s = prefix ++ rest /\
        (prefix = Js.str "sk_" \/ prefix = Js.str "cr_" \/ prefix = Js.str "pk_") /\
        (17 <= List.length rest <= 253)%nat /\
        List.Forall (fun c => 65 <= c <= 90 \/ 97 <= c <= 122 \/ 48 <= c <= 57 \/ c = 95) rest /\
        (20 <= List.length s <= 256)%nat).
Proof.
  split.
  - rewrite isValidApiKeyFormat_well_formed, guard_well_formed. reflexivity.
  - rewrite guard_well_formed. unfold SecurityUtils.well_formed_key.
    assert (Hchar : forall c, SecurityUtils.is_key_char c = true <->
                      65 <= c <= 90 \/ 97 <= c <= 122 \/ 48 <= c <= 57 \/ c = 95).
    { intros c. unfold SecurityUtils.is_key_char.
      rewrite !orb_true_iff, !andb_true_iff, !Z.leb_le, Z.eqb_eq. lia. }
    split.
    + intros (prefix & rest & -> & Hin & Hlen & Hall).
      assert (Hp : List.length prefix = 3%nat).
      { apply validPrefixes_length. exact Hin. }
      exists prefix, rest. repeat split; try lia.
      * apply validPrefixes_cases. exact Hin.
      * eapply List.Forall_impl; [|exact Hall]. intros c. apply Hchar.
      * rewrite List.length_app. lia.
      * rewrite List.length_app. lia.
    + intros (prefix & rest & -> & Hin & Hlen & Hall & _).
      exists prefix, rest. repeat split; try lia.
      * apply validPrefixes_cases. exact Hin.
      * eapply List.Forall_impl; [|exact Hall]. intros c. apply Hchar.
Qed.

(* ===================================================================== *)
(** * The readiness probe *)
(* ===================================================================== *)

Section ReadinessFacts.
Import Js HealthRoutes.

Lemma ready_of_body (isReady : bool) (rest : list (jsstring * value)) (code : Z) :
  ready {| status := code; body := VObject ((str "ready", VBool isReady) :: rest) |}
  = VBool isReady.
Proof. reflexivity. Qed.

(** The two answers of the handler, and when each is given. *)
Lemma readiness_cases (healthStatus : value) (timestamp : jsstring) :
  (redis_reported_healthy healthStatus /\
   status (readiness healthStatus timestamp) = 200 /\
   ready (readiness healthStatus timestamp) = VBool true)
  \/
  (~ redis_reported_healthy healthStatus /\
   status (readiness healthStatus timestamp) = 503 /\
   ready (readiness healthStatus timestamp) = VBool false).
Proof.
  unfold readiness, redis_reported_healthy.
  destruct healthStatus as [| |b|n|s|hfields];
    try (right; split;
         [intros (hf & sf & rf & H & _); discriminate H | split; reflexivity]).
  cbn [get bind].
  destruct (lookup_field (str "services") hfields) as [| |b|n|s|sfields] eqn:Hs;
    try (right; split;
         [intros (hf & sf & rf & H1 & H2 & _); injection H1 as <-; congruence
         | split; reflexivity]).
  cbn [get bind].
  destruct (lookup_field (str "redis") sfields) as [| |b|n|s|rfields] eqn:Hr;
    try (right; split;
         [intros (hf & sf & rf & H1 & H2 & H3 & _); injection H1 as <-;
          rewrite Hs in H2; injection H2 as <-; congruence
         | split; reflexivity]).
  cbn [get_opt try_catch].
  destruct (lookup_field (str "healthy") rfields) as [| |[|]|n|s|fields] eqn:Hh;
    try (right; split;
         [intros (hf & sf & rf & H1 & H2 & H3 & H4); injection H1 as <-;
          rewrite Hs in H2; injection H2 as <-;
          rewrite Hr in H3; injection H3 as <-; congruence
         | split; reflexivity]).
  left. split; [|split; reflexivity].
  exists hfields, sfields, rfields. auto.
Qed.

End ReadinessFacts.

(** ** C6 *)

(** C6. Whatever value [monitoringService.healthStatus] holds, the readiness
    handler answers 200 with [ready: true] exactly when Redis is reported
    healthy ([healthStatus.services.redis.healthy === true]), and 503 with
    [ready: false] in every other case, a thrown error included. *)
Theorem readiness_iff_redis_healthy (healthStatus : Js.value) (timestamp : Js.jsstring) :
  (HealthRoutes.redis_reported_healthy healthStatus <->
   HealthRoutes.status (HealthRoutes.readiness healthStatus timestamp) = 200 /\
   HealthRoutes.ready (HealthRoutes.readiness healthStatus timestamp) = Js.VBool true)
  /\
  (~ HealthRoutes.redis_reported_healthy healthStatus <->
   HealthRoutes.status (HealthRoutes.readiness healthStatus timestamp) = 503 /\
   HealthRoutes.ready (HealthRoutes.readiness healthStatus timestamp) = Js.VBool false).
Proof.
  destruct (readiness_cases healthStatus timestamp) as [(H & Hs & Hr)|(H & Hs & Hr)];
    rewrite Hs, Hr; split; split; try tauto; try (intros [? ?]; discriminate).
Qed.

Example readiness_initial :
  HealthRoutes.status (HealthRoutes.readiness HealthRoutes.initial_healthStatus []) = 503.
Proof. reflexivity. Qed.

Example readiness_redis_up :
  HealthRoutes.readiness (HealthRoutes.with_redis true) (Js.str "2025-01-15T10:30:00.000Z")
  = {| HealthRoutes.status := 200;
       HealthRoutes.body := Js.VObject
         [(Js.str "ready", Js.VBool true);
          (Js.str "timestamp", Js.VString (Js.str "2025-01-15T10:30:00.000Z"));
          (Js.str "redis", Js.VBool true);
          (Js.str "database", Js.VBool true)] |}.
Proof. reflexivity. Qed.

Example readiness_redis_down :
  HealthRoutes.status (HealthRoutes.readiness (HealthRoutes.with_redis false) []) = 503
  /\ HealthRoutes.ready (HealthRoutes.readiness (HealthRoutes.with_redis false) [])
     = Js.VBool false.
Proof. split; reflexivity. Qed.

Example readiness_no_services :
  HealthRoutes.readiness (Js.VObject [(Js.str "healthy", Js.VBool true)]) []
  = {| HealthRoutes.status := 503;
       HealthRoutes.body := Js.VObject
         [(Js.str "ready", Js.VBool false);
          (Js.str "error",
            Js.VString (Js.str "Cannot read properties of undefined (reading 'redis')"))] |}.
Proof. reflexivity. Qed.

(* ===================================================================== *)
(** * Database-backed validation *)
(* ===================================================================== *)

Section ValidationFacts.
Import Js DatabaseService.

(** The three ways out of [validateApiKey]. *)
Lemma validateApiKey_unfold (apiKey : jsstring) (svc : service) :
  validateApiKey apiKey svc =
  match db svc with
  | None => (None, svc)
  | Some d =>
      match getTokenByHash d (Crypto.sha256_hex apiKey) with
      | None => (None, svc)
      | Some tokenInfo =>
          (Some (format_token_info tokenInfo),
           {| db := db svc;
              immediates := immediates svc ++ [UpdateLastUsed (ti_id tokenInfo)] |})
      end
  end.
Proof. reflexivity. Qed.

Lemma validateApiKey_Some (apiKey : jsstring) (svc svc' : service) (r : key_info) :
  validateApiKey apiKey svc = (Some r, svc') <->
  exists d tokenInfo,
    db svc = Some d /\
    getTokenByHash d (Crypto.sha256_hex apiKey) = Some tokenInfo /\
    r = format_token_info tokenInfo /\
    svc' = {| db := db svc;
              immediates := immediates svc ++ [UpdateLastUsed (ti_id tokenInfo)] |}.
Proof.
  rewrite validateApiKey_unfold. split.
  - destruct (db svc) as [d|]; [|discriminate].
    destruct (getTokenByHash d _) as [tokenInfo|] eqn:Hget; [|discriminate].
    intros H. injection H as <- <-. exists d, tokenInfo. auto.
  - intros (d & tokenInfo & -> & Hget & -> & ->). rewrite Hget. reflexivity.
Qed.

Lemma truthy_number_Some (q : Q) : truthy_number (Some q) = negb (Qeq_bool q 0).
Proof. reflexivity. Qed.

Lemma credits_to_cost_number (b : Q) :
  ~ (b == 0)%Q -> credits_to_cost (Some b) = Float64.div b 100.
Proof.
  intros Hb. unfold credits_to_cost. rewrite truthy_number_Some.
  destruct (Qeq_bool b 0) eqn:E; [|reflexivity].
  apply Qeq_bool_iff in E. contradiction.
Qed.

Lemma credits_to_cost_zero (b : Q) : (b == 0)%Q -> credits_to_cost (Some b) = 10%Q.
Proof.
  intros Hb. unfold credits_to_cost. rewrite truthy_number_Some.
  apply Qeq_bool_iff in Hb. rewrite Hb. reflexivity.
Qed.

(** The quotient of a balance by 100 is rounded to zero exactly when the
    balance is at most [100 * 2 ^ -1075] in magnitude. *)
Lemma hundredth_0 (b : Q) : (Float64.div b 100 == 0)%Q <-> (Qabs b <= 25 # 2 ^ 1073)%Q.
Proof.
  unfold Float64.div. rewrite round_0. unfold Qdiv. rewrite Qabs_Qmult.
  change (Qabs (/ 100)) with (1 # 100)%Q.
  rewrite <- (Qmult_le_r (Qabs b * (1 # 100)) (1 # 2 ^ 1075) 100) by reflexivity.
  assert (H1 : (Qabs b * (1 # 100) * 100 == Qabs b)%Q) by ring.
  assert (H2 : ((1 # 2 ^ 1075) * 100 == 25 # 2 ^ 1073)%Q) by (vm_compute; reflexivity).
  rewrite H1, H2. reflexivity.
Qed.

Lemma credits_to_cost_0 (x : option Q) :
  (credits_to_cost x == 0)%Q <->
  exists b, x = Some b /\ ~ (b == 0)%Q /\ (Qabs b <= 25 # 2 ^ 1073)%Q.
Proof.
  destruct x as [b|].
  - destruct (Qeq_dec b 0) as [Hb|Hb].
    + rewrite (credits_to_cost_zero b Hb). split; [discriminate|].
      intros (b' & Heq & Hb' & _). injection Heq as <-. contradiction.
    + rewrite (credits_to_cost_number b Hb), hundredth_0. split.
      * intros H. exists b. auto.
      * intros (b' & Heq & _ & H). injection Heq as <-. exact H.
  - split; [discriminate|]. intros (b & Heq & _). discriminate Heq.
Qed.

End ValidationFacts.

(** ** C10 *)

(** C10, amended. When database-backed validation accepts a key, the
    [dailyCostLimit] it returns is the double [credits_balance / 100] if the
    joined credit balance is a number other than zero (positive or
    negative) and the default 10 if the balance is zero or NULL (no credits
    row). It is 0 exactly when the balance is not zero and at most
    [100 * 2 ^ -1075] in magnitude, the quotient then being rounded to
    zero; so a zero or absent balance never gives a limit of 0, and a
    balance of at least [2 ^ -1068] does not either. *)
Theorem validateApiKey_dailyCostLimit
    (apiKey : Js.jsstring) (svc svc' : DatabaseService.service) (r : DatabaseService.key_info) :
  DatabaseService.validateApiKey apiKey svc = (Some r, svc') ->
  exists d tokenInfo,
    DatabaseService.db svc = Some d /\
    DatabaseService.getTokenByHash d (Crypto.sha256_hex apiKey) = Some tokenInfo /\
    (forall b, DatabaseService.ti_credits_balance tokenInfo = Some b -> ~ (b == 0)%Q ->
               DatabaseService.dailyCostLimit (DatabaseService.limits r) = Float64.div b 100) /\
    (forall b, DatabaseService.ti_credits_balance tokenInfo = Some b -> (b == 0)%Q ->
               DatabaseService.dailyCostLimit (DatabaseService.limits r) = 10%Q) /\
    (DatabaseService.ti_credits_balance tokenInfo = None ->
     DatabaseService.dailyCostLimit (DatabaseService.limits r) = 10%Q) /\
    ((DatabaseService.dailyCostLimit (DatabaseService.limits r) == 0)%Q <->
     exists b, DatabaseService.ti_credits_balance tokenInfo = Some b /\
               ~ (b == 0)%Q /\ (Qabs b <= 25 # 2 ^ 1073)%Q) /\
    (forall b, DatabaseService.ti_credits_balance tokenInfo = Some b ->
               (1 # 2 ^ 1068 <= Qabs b)%Q ->
               ~ (DatabaseService.dailyCostLimit (DatabaseService.limits r) == 0)%Q).
Proof.
  intros H. apply validateApiKey_Some in H as (d & tokenInfo & Hdb & Hget & -> & _).
  exists d, tokenInfo. cbn [DatabaseService.limits DatabaseService.format_token_info
                            DatabaseService.dailyCostLimit].
  split; [exact Hdb|]. split; [exact Hget|].
  split; [intros b -> Hb; apply credits_to_cost_number; exact Hb|].
  split; [intros b -> Hb; apply credits_to_cost_zero; exact Hb|].
  split; [intros ->; reflexivity|].
  split; [apply credits_to_cost_0|].
  intros b -> Hb H0. apply credits_to_cost_0 in H0 as (b' & Heq & _ & Hle).
  injection Heq as <-.
  pose proof (Qle_trans _ _ _ Hb Hle) as Hc.
  apply Qle_bool_iff in Hc. vm_compute in Hc. discriminate Hc.
Qed.

(** A positive balance small enough gives a [dailyCostLimit] of 0: validation
    accepts the test key of a user whose balance is the least positive
    double, [2 ^ -1074], and the limit it returns is [2 ^ -1074 / 100],
    which is 0. *)
Lemma validateApiKey_dailyCostLimit_0 :
  let svc := Sample.service_of
               (Sample.database_with [Sample.token1] [Sample.user7]
                  [Sample.credit7 (1 # 2 ^ 1074)]) in
  exists r,
    fst (DatabaseService.validateApiKey Sample.TEST_API_KEY svc) = Some r
    /\ (0 < DatabaseService.balance (DatabaseService.credits_of r))%Q
    /\ DatabaseService.dailyCostLimit (DatabaseService.limits r) = 0%Q.
Proof.
  cbv zeta. eexists. split; [vm_compute; reflexivity|].
  split; reflexivity.
Qed.

Example sample_hash : Crypto.sha256_hex Sample.TEST_API_KEY = Sample.test_key_hash.
Proof. vm_compute. reflexivity. Qed.

Example sample_validate :
  fst (DatabaseService.validateApiKey Sample.TEST_API_KEY Sample.svc1)
  = Some {|
      DatabaseService.id := Js.str "db_1";
      DatabaseService.userId := 7;
      DatabaseService.name := Js.str "laptop";
      DatabaseService.userEmail := Js.str "dev@example.com";
      DatabaseService.userName := Js.str "Dev";
      DatabaseService.active := true;
      DatabaseService.createdAt := Js.str "2025-01-01 09:00:00";
      DatabaseService.lastUsed := None;
      DatabaseService.credits_of := {|
        DatabaseService.balance := 500%Q;
        DatabaseService.dailyAllocation := 1000%Q;
        DatabaseService.lastUpdated := None |};
      DatabaseService.limits := {|
        DatabaseService.maxTokensPerMinute := 100000;
        DatabaseService.maxRequestsPerMinute := 100;
        DatabaseService.maxConcurrentRequests := 5;
        DatabaseService.dailyCostLimit := 5%Q |} |}.
Proof. vm_compute. reflexivity. Qed.

Example sample_invalid :
  fst (DatabaseService.validateApiKey Sample.invalid_key Sample.svc1) = None.
Proof. vm_compute. reflexivity. Qed.

Example sample_usage_log :
  DatabaseService.usage_log_of Sample.usage1
  = {| DatabaseService.l_user_id := 7; DatabaseService.l_token_id := 1;
       DatabaseService.l_model := Js.str "claude-3-5-sonnet";
       DatabaseService.l_input_tokens := 100; DatabaseService.l_output_tokens := 20;
       DatabaseService.l_cache_creation_tokens := 0;
       DatabaseService.l_cache_read_tokens := 30;
       DatabaseService.l_total_tokens := 150; DatabaseService.l_cost := 10%Q;
       DatabaseService.l_request_id := None;
       DatabaseService.l_endpoint := Js.str "/v1/messages";
       DatabaseService.l_status_code := 200 |}.
Proof. reflexivity. Qed.

(** The theorem of C10 at the test key. *)
Lemma validateApiKey_dailyCostLimit_witness :
  DatabaseService.validateApiKey Sample.TEST_API_KEY Sample.svc1
  = (Some Sample.info1, Sample.svc1_validated)
  /\ exists d tokenInfo,
    DatabaseService.db Sample.svc1 = Some d /\
    DatabaseService.getTokenByHash d (Crypto.sha256_hex Sample.TEST_API_KEY) = Some tokenInfo /\
    (forall b, DatabaseService.ti_credits_balance tokenInfo = Some b -> ~ (b == 0)%Q ->
               DatabaseService.dailyCostLimit (DatabaseService.limits Sample.info1)
               = Float64.div b 100) /\
    (forall b, DatabaseService.ti_credits_balance tokenInfo = Some b -> (b == 0)%Q ->
               DatabaseService.dailyCostLimit (DatabaseService.limits Sample.info1) = 10%Q) /\
    (DatabaseService.ti_credits_balance tokenInfo = None ->
     DatabaseService.dailyCostLimit (DatabaseService.limits Sample.info1) = 10%Q) /\
    ((DatabaseService.dailyCostLimit (DatabaseService.limits Sample.info1) == 0)%Q <->
     exists b, DatabaseService.ti_credits_balance tokenInfo = Some b /\
               ~ (b == 0)%Q /\ (Qabs b <= 25 # 2 ^ 1073)%Q) /\
    (forall b, DatabaseService.ti_credits_balance tokenInfo = Some b ->
               (1 # 2 ^ 1068 <= Qabs b)%Q ->
               ~ (DatabaseService.dailyCostLimit (DatabaseService.limits Sample.info1) == 0)%Q).
Proof.
  split.
  - vm_compute. reflexivity.
  - apply (validateApiKey_dailyCostLimit Sample.TEST_API_KEY Sample.svc1 Sample.svc1_validated).
    vm_compute. reflexivity.
Defined.

(* ===================================================================== *)
(** * Usage accounting *)
(* ===================================================================== *)

Section UsageFacts.
Import Js DatabaseService.


Lemma recordUsage_unfold (now : clock) (sql_ok : bool) (usageData : usage_data) (svc : service) :
  db (recordUsage now sql_ok usageData svc) =
  match db svc with
  | Some d => Some (if sql_ok then usage_transaction now usageData d else d)
  | None => None
  end.
Proof.
  unfold recordUsage. destruct (db svc) as [d|] eqn:Hdb; [|exact Hdb].
  destruct sql_ok; [reflexivity | exact Hdb].
Qed.

Lemma recordUsage_immediates (now : clock) (sql_ok : bool) (usageData : usage_data)
    (svc : service) :
  immediates (recordUsage now sql_ok usageData svc) = immediates svc.
Proof. unfold recordUsage. destruct (db svc), sql_ok; reflexivity. Qed.

Section Transaction.
Variables (now : clock) (usageData : usage_data) (d : database).

Lemma transaction_tokens : tokens (usage_transaction now usageData d) = tokens d.
Proof. unfold usage_transaction. destruct (getUserCredits _ _); reflexivity. Qed.

Lemma transaction_users : users (usage_transaction now usageData d) = users d.
Proof. unfold usage_transaction. destruct (getUserCredits _ _); reflexivity. Qed.



Lemma transaction_credits :
  credits (usage_transaction now usageData d) =
  match getUserCredits d (ud_userId usageData) with
  | Some credits0 =>
      credits (updateCreditsBalance
                 (Math_max 0 (c_balance credits0 - cost_of usageData)%Q)
                 (ud_userId usageData) d)
  | None => credits d
  end.
Proof.
  unfold usage_transaction.
  change (getUserCredits (updateDailyUsage _ _ _ _ _ _ _ _ _ _) ?u)
    with (getUserCredits d u).
  destruct (getUserCredits d _); reflexivity.
Qed.

End Transaction.







End UsageFacts.

(** ** C5 *)





(** ** C4 *)





(** ** C7 *)

Section DailyFacts.
Import Js DatabaseService.



End DailyFacts.




(** ** C8 *)

Section LastUsedFacts.
Import Js DatabaseService.

Lemma token_frame_refl (t : token_row) : token_frame t t.
Proof. unfold token_frame. auto. Qed.

Lemma token_frame_trans (a b c : token_row) :
  token_frame a b -> token_frame b c -> token_frame a c.
Proof. unfold token_frame. intuition congruence. Qed.

Lemma Forall2_token_frame_refl (l : list token_row) : List.Forall2 token_frame l l.
Proof. induction l; constructor; auto using token_frame_refl. Qed.

Lemma Forall2_token_frame_trans (l1 l2 l3 : list token_row) :
  List.Forall2 token_frame l1 l2 -> List.Forall2 token_frame l2 l3 ->
  List.Forall2 token_frame l1 l3.
Proof.
  intros H. revert l3. induction H as [|a b l1 l2 Hab _ IH]; intros l3 H3.
  - inversion H3. constructor.
  - inversion H3 as [|b' c l2' l3' Hbc Hrest]; subst. constructor.
    + eapply token_frame_trans; eassumption.
    + apply IH. exact Hrest.
Qed.

Lemma db_frame_refl (d : database) : db_frame d d.
Proof. unfold db_frame. auto using Forall2_token_frame_refl. Qed.

Lemma db_frame_trans (a b c : database) : db_frame a b -> db_frame b c -> db_frame a c.
Proof.
  unfold db_frame. intros (Ht & Hu & Hc & Hl & Hd) (Ht' & Hu' & Hc' & Hl' & Hd').
  split; [eapply Forall2_token_frame_trans; eassumption|]. repeat split; congruence.
Qed.

(** The [UPDATE] of the callback writes the [last_used] column only. *)
Lemma updateLastUsed_frame (now : clock) (id0 : Z) (d : database) :
  db_frame d (updateLastUsed now id0 d).
Proof.
  unfold db_frame, updateLastUsed. cbn [tokens users credits usage_logs usage_daily].
  split; [|auto]. induction (tokens d) as [|t l IH]; cbn [List.map]; constructor; trivial.
  destruct (t_id t =? id0); unfold token_frame; auto.
Qed.

Lemma run_tasks_frame (now : clock) (ts : list task) :
  forall (oks : list bool) (d : database),
  exists d', run_tasks now oks ts (Some d) = Some d' /\ db_frame d d'.
Proof.
  induction ts as [|[id0] ts IH]; intros oks d; cbn [run_tasks run_task].
  - exists d. split; [reflexivity | apply db_frame_refl].
  - destruct (List.hd true oks).
    + destruct (IH (List.tl oks) (updateLastUsed now id0 d)) as (d' & Hrun & Hframe).
      exists d'. split; [exact Hrun|].
      eapply db_frame_trans; [apply updateLastUsed_frame | exact Hframe].
    + apply IH.
Qed.

Lemma run_tasks_closed (now : clock) (ts : list task) (oks : list bool) :
  run_tasks now oks ts None = None.
Proof. revert oks. induction ts as [|[id0] ts IH]; intros oks; [reflexivity | apply IH]. Qed.

Lemma Forall2_flat_map {A B C : Type} (R : B -> C -> Prop) (f : A -> list B) (g : A -> list C)
    (l : list A) :
  (forall x, List.Forall2 R (f x) (g x)) ->
  List.Forall2 R (List.flat_map f l) (List.flat_map g l).
Proof.
  intros H. induction l as [|x l IH]; cbn [List.flat_map]; [constructor|].
  apply List.Forall2_app; auto.
Qed.

(** The rows of the query on two databases that differ in [last_used]
    only give records that differ in [lastUsed] only. *)
Lemma getTokenByHash_rows_frame (d d' : database) (h : jsstring) :
  db_frame d d' ->
  List.Forall2 (fun ti ti' => info_frame (format_token_info ti) (format_token_info ti'))
    (getTokenByHash_rows d h) (getTokenByHash_rows d' h).
Proof.
  intros (Ht & Hu & Hc & _ & _). unfold getTokenByHash_rows. rewrite Hu, Hc.
  induction Ht as [|t t' l l' (Hid & Huid & Hname & Htok & Hcreated) _ IH];
    cbn [List.flat_map]; [constructor|].
  apply List.Forall2_app; [|exact IH].
  rewrite Huid, Htok. apply Forall2_flat_map. intros u.
  apply Forall2_flat_map. intros c.
  destruct (jsstring_eqb (t_token t) h); constructor; [|constructor].
  unfold info_frame, format_token_info, join_row.
  cbn [id userId name userEmail userName active createdAt credits_of limits
       ti_id ti_user_id ti_name ti_created_at ti_user_email ti_user_name
       ti_credits_balance ti_daily_allocation ti_last_updated].
  rewrite Hid, Huid, Hname, Hcreated. repeat split.
Qed.

Lemma validateApiKey_frame (apiKey : jsstring) (q q' : list task) (d d' : database) :
  db_frame d d' ->
  match fst (validateApiKey apiKey {| db := Some d; immediates := q |}),
        fst (validateApiKey apiKey {| db := Some d'; immediates := q' |}) with
  | Some r, Some r' => info_frame r r'
  | None, None => True
  | _, _ => False
  end.
Proof.
  intros Hframe. rewrite !validateApiKey_unfold. cbn [db]. unfold getTokenByHash.
  destruct (getTokenByHash_rows_frame d d' (Crypto.sha256_hex apiKey) Hframe)
    as [|ti ti' l l' H _]; cbn [List.head fst]; [exact I | exact H].
Qed.

End LastUsedFacts.

Section EventLoopFacts.
Import Js DatabaseService.

Lemma skipn_tl {A : Type} (n : nat) (l : list A) :
  List.skipn (S n) l = List.skipn n (List.tl l).
Proof. destruct l; simpl; [rewrite List.skipn_nil|]; reflexivity. Qed.

Lemma hd_skipn {A : Type} (x : A) (n : nat) (l : list A) :
  List.hd x (List.skipn n l) = List.nth n l x.
Proof.
  revert l. induction n as [|n IH]; intros [|y l]; try reflexivity.
  cbn [List.skipn List.nth]. apply IH.
Qed.

(** Callbacks run in the order they were queued. *)
Lemma run_tasks_app (now : clock) (ts1 ts2 : list task) :
  forall (oks : list bool) (d : option database),
    run_tasks now oks (ts1 ++ ts2) d
    = run_tasks now (List.skipn (List.length ts1) oks) ts2 (run_tasks now oks ts1 d).
Proof.
  induction ts1 as [|t ts1 IH]; intros oks d; [reflexivity|].
  cbn [List.app run_tasks List.length]. rewrite IH, skipn_tl. reflexivity.
Qed.

Lemma updateLastUsed_sets (now : clock) (id0 : Z) (d : database) :
  List.Forall (fun t => t_id t = id0 -> t_last_used t = Some (sql_now now))
    (tokens (updateLastUsed now id0 d)).
Proof.
  unfold updateLastUsed. cbn [tokens].
  induction (tokens d) as [|t l IH]; cbn [List.map]; constructor; trivial.
  destruct (Z.eqb_spec (t_id t) id0); cbn [t_id t_last_used]; [reflexivity | contradiction].
Qed.

End EventLoopFacts.

(** C8. When [validateApiKey] accepts a key it returns at once: the database
    is as it was and the [last_used] update is the last callback in the queue
    of [setImmediate]. Whatever the outcomes of the queued callbacks, the
    record given to the caller is the same; the callbacks leave every table
    but [tokens], and every column of [tokens] but [last_used], as they were,
    so a later validation of the key returns a record that differs from the
    first at most in [lastUsed]; and an update that succeeds stores the
    current time in [last_used] of the key's row. *)
Theorem validateApiKey_lastUsed_deferred
    (now : DatabaseService.clock) (apiKey : Js.jsstring)
    (d : DatabaseService.database) (q : list DatabaseService.task)
    (r : DatabaseService.key_info) (svc' : DatabaseService.service) :
  let svc := {| DatabaseService.db := Some d; DatabaseService.immediates := q |} in
  DatabaseService.validateApiKey apiKey svc = (Some r, svc') ->
  DatabaseService.db svc' = Some d /\
  exists id0,
    DatabaseService.immediates svc' = q ++ [DatabaseService.UpdateLastUsed id0] /\
    DatabaseService.id r = Js.str "db_" ++ Js.of_Z id0 /\
    forall oks : list bool,
      let settled := DatabaseService.validate_then_settle now oks apiKey svc in
      fst settled = Some r /\
      DatabaseService.immediates (snd settled) = [] /\
      exists d',
        DatabaseService.db (snd settled) = Some d' /\
        DatabaseService.db_frame d d' /\
        (exists r' svc'',
           DatabaseService.validateApiKey apiKey (snd settled) = (Some r', svc'') /\
           DatabaseService.info_frame r r') /\
        (List.nth (List.length q) oks true = true ->
         List.Forall (fun t => DatabaseService.t_id t = id0 ->
                               DatabaseService.t_last_used t
                               = Some (DatabaseService.sql_now now))
           (DatabaseService.tokens d')).
Proof.
  intros svc Hv. pose proof Hv as Hv0.
  apply validateApiKey_Some in Hv as (d0 & tokenInfo & Hdb & Hget & -> & ->).
  cbn [DatabaseService.db svc] in Hdb. injection Hdb as <-.
  split; [reflexivity|]. exists (DatabaseService.ti_id tokenInfo).
  split; [reflexivity|]. split; [reflexivity|].
  intros oks. unfold DatabaseService.validate_then_settle. rewrite Hv0. cbv zeta.
  unfold DatabaseService.run_immediates.
  cbn [fst snd DatabaseService.immediates DatabaseService.db svc].
  split; [reflexivity|]. split; [reflexivity|].
  destruct (run_tasks_frame now (q ++ [DatabaseService.UpdateLastUsed
                                         (DatabaseService.ti_id tokenInfo)]) oks d)
    as (d' & Hrun & Hframe).
  exists d'. split; [exact Hrun|]. split; [exact Hframe|]. split.
  - rewrite Hrun.
    pose proof (validateApiKey_frame apiKey q [] d d' Hframe) as H.
    fold svc in H. rewrite Hv0 in H. cbn [fst] in H.
    destruct (DatabaseService.validateApiKey apiKey
                {| DatabaseService.db := Some d'; DatabaseService.immediates := [] |})
      as [[r'|] svc''] eqn:Hv'; cbn [fst] in H; [|contradiction].
    exists r', svc''. split; [reflexivity | exact H].
  - intros Hok. rewrite run_tasks_app in Hrun.
    destruct (run_tasks_frame now q oks d) as (d1 & Hrun1 & _). rewrite Hrun1 in Hrun.
    cbn [DatabaseService.run_tasks DatabaseService.run_task] in Hrun.
    rewrite hd_skipn, Hok in Hrun. injection Hrun as <-. apply updateLastUsed_sets.
Qed.

(** The theorem of C8 at the test key; the update fails in the first run of
    the queue and succeeds in the second. *)
Lemma validateApiKey_lastUsed_deferred_witness :
  DatabaseService.validateApiKey Sample.TEST_API_KEY Sample.svc1
  = (Some Sample.info1, Sample.svc1_validated)
  /\ fst (DatabaseService.validate_then_settle Sample.noon [false] Sample.TEST_API_KEY Sample.svc1)
     = fst (DatabaseService.validate_then_settle Sample.noon [true] Sample.TEST_API_KEY Sample.svc1)
  /\ DatabaseService.db Sample.svc1_validated = DatabaseService.db Sample.svc1.
Proof.
  assert (Hv : DatabaseService.validateApiKey Sample.TEST_API_KEY Sample.svc1
               = (Some Sample.info1, Sample.svc1_validated)) by (vm_compute; reflexivity).
  destruct (validateApiKey_lastUsed_deferred Sample.noon Sample.TEST_API_KEY _ _ _ _ Hv)
    as (Hdb & id0 & _ & _ & Hsettle).
  split; [exact Hv|]. split; [|exact Hdb].
  exact (eq_trans (proj1 (Hsettle [false])) (eq_sym (proj1 (Hsettle [true])))).
Defined.

Example lastUsed_after_success :
  option_map DatabaseService.tokens
    (DatabaseService.db
       (snd (DatabaseService.validate_then_settle Sample.noon [true]
               Sample.TEST_API_KEY Sample.svc1)))
  = Some [{| DatabaseService.t_id := 1; DatabaseService.t_user_id := 7;
             DatabaseService.t_name := Js.str "laptop";
             DatabaseService.t_token := Sample.test_key_hash;
             DatabaseService.t_created_at := Js.str "2025-01-01 09:00:00";
             DatabaseService.t_last_used := Some (Js.str "2025-01-15 12:00:00") |}].
Proof. vm_compute. reflexivity. Qed.

Example lastUsed_after_failure :
  DatabaseService.db
    (snd (DatabaseService.validate_then_settle Sample.noon [false]
            Sample.TEST_API_KEY Sample.svc1))
  = DatabaseService.db Sample.svc1.
Proof. vm_compute. reflexivity. Qed.

(* ===================================================================== *)
(** * Sizes and alphabets of the digests *)
(* ===================================================================== *)

Section DigestFacts.
Import Js Crypto.

Lemma length_toString_hex (buf : list Z) :
  List.length (toString_hex buf) = (2 * List.length buf)%nat.
Proof.
  unfold toString_hex. induction buf as [|b buf IH]; [reflexivity|].
  cbn [List.map List.concat]. rewrite List.length_app, IH. simpl. lia.
Qed.

Lemma hex_digit_is_hex (n : Z) : 0 <= n < 16 -> is_hex_char (hex_digit n) = true.
Proof.
  intros Hn. unfold is_hex_char, hex_digit.
  destruct (Z.ltb_spec n 10);
    rewrite orb_true_iff, !andb_true_iff, !Z.leb_le; lia.
Qed.

Lemma toString_hex_is_hex (buf : list Z) :
  List.Forall is_byte buf -> List.Forall (fun c => is_hex_char c = true) (toString_hex buf).
Proof.
  unfold toString_hex. induction 1 as [|b buf Hb _ IH]; [constructor|].
  cbn [List.map List.concat]. apply List.Forall_app. split; [|exact IH].
  unfold hex_byte, is_byte in *. repeat constructor; apply hex_digit_is_hex.
  - rewrite Z.shiftr_div_pow2 by lia. change (2 ^ 4) with 16.
    split; [apply Z.div_pos; lia | apply Z.div_lt_upper_bound; lia].
  - change 0xF with (Z.ones 4). rewrite Z.land_ones by lia. apply Z.mod_pos_bound. reflexivity.
Qed.

Lemma land_255_is_byte (x : Z) : is_byte (Z.land x 0xFF).
Proof.
  unfold is_byte. change 0xFF with (Z.ones 8). rewrite Z.land_ones by lia.
  apply Z.mod_pos_bound. reflexivity.
Qed.

Lemma lxor_is_byte (x y : Z) : is_byte x -> is_byte y -> is_byte (Z.lxor x y).
Proof.
  unfold is_byte. intros Hx Hy.
  assert (Hb : forall z, 0 <= z < 256 -> Z.land z (Z.ones 8) = z).
  { intros z Hz. rewrite Z.land_ones by lia. apply Z.mod_small. exact Hz. }
  assert (Hd : Z.lxor (Z.land x (Z.ones 8)) (Z.land y (Z.ones 8))
               = Z.land (Z.lxor x y) (Z.ones 8)).
  { apply Z.bits_inj'. intros n Hn.
    rewrite Z.lxor_spec, !Z.land_spec, Z.lxor_spec.
    destruct (Z.testbit x n), (Z.testbit y n), (Z.testbit (Z.ones 8) n); reflexivity. }
  rewrite <- (Hb x Hx), <- (Hb y Hy), Hd.
  apply (land_255_is_byte (Z.lxor x y)).
Qed.

Section Family.
Variable p : sha2_params.

Lemma length_be_bytes (n : nat) (x : Z) : List.length (be_bytes n x) = n.
Proof. induction n as [|n IH]; [reflexivity|]. cbn [be_bytes List.length]. congruence. Qed.

Lemma be_bytes_are_bytes (n : nat) (x : Z) : List.Forall is_byte (be_bytes n x).
Proof.
  induction n as [|n IH]; cbn [be_bytes]; constructor; trivial. apply land_255_is_byte.
Qed.

Lemma length_regs_bytes (H : regs) : List.length (regs_bytes p H) = hash_bytes p.
Proof.
  unfold regs_bytes, hash_bytes. rewrite !List.length_app, !length_be_bytes. lia.
Qed.

Lemma length_sha2 (msg : list Z) : List.length (sha2 p msg) = hash_bytes p.
Proof. apply length_regs_bytes. Qed.

Lemma sha2_bytes (msg : list Z) : List.Forall is_byte (sha2 p msg).
Proof.
  unfold sha2, regs_bytes. repeat (apply List.Forall_app; split);
    apply be_bytes_are_bytes.
Qed.

Lemma length_hmac (key msg : list Z) : List.length (hmac p key msg) = hash_bytes p.
Proof. apply length_sha2. Qed.

Lemma hmac_bytes (key msg : list Z) : List.Forall is_byte (hmac p key msg).
Proof. apply sha2_bytes. Qed.

Lemma length_xor_bytes (a : list Z) :
  forall b, List.length a = List.length b -> List.length (xor_bytes a b) = List.length a.
Proof.
  induction a as [|x a IH]; intros [|y b] H; try discriminate; [reflexivity|].
  cbn [xor_bytes List.length] in *. rewrite IH; congruence.
Qed.

Lemma xor_bytes_are_bytes (a : list Z) :
  forall b, List.Forall is_byte a -> List.Forall is_byte b ->
            List.Forall is_byte (xor_bytes a b).
Proof.
  induction a as [|x a IH]; intros [|y b] Ha Hb; cbn [xor_bytes]; try constructor.
  - inversion Ha; inversion Hb; subst. apply lxor_is_byte; assumption.
  - inversion Ha; inversion Hb; subst. apply IH; assumption.
Qed.

Lemma pbkdf2_iter_block (password : list Z) (n : nat) :
  forall u t,
    List.length t = hash_bytes p -> List.Forall is_byte t ->
    List.length (pbkdf2_iter p password n u t) = hash_bytes p /\
    List.Forall is_byte (pbkdf2_iter p password n u t).
Proof.
  induction n as [|n IH]; intros u t Hlen Hbytes; cbn [pbkdf2_iter]; [auto|].
  apply IH.
  - rewrite length_xor_bytes; [exact Hlen | rewrite length_hmac; exact Hlen].
  - apply xor_bytes_are_bytes; [exact Hbytes | apply hmac_bytes].
Qed.

Lemma pbkdf2_block_spec (password salt : list Z) (c : nat) (i : Z) :
  List.length (pbkdf2_block p password salt c i) = hash_bytes p /\
  List.Forall is_byte (pbkdf2_block p password salt c i).
Proof. apply pbkdf2_iter_block; [apply length_hmac | apply hmac_bytes]. Qed.

Lemma pbkdf2_blocks_spec (password salt : list Z) (c l : nat) :
  forall i,
    List.length (pbkdf2_blocks p password salt c l i) = (l * hash_bytes p)%nat /\
    List.Forall is_byte (pbkdf2_blocks p password salt c l i).
Proof.
  induction l as [|l IH]; intros i; cbn [pbkdf2_blocks]; [split; [reflexivity|constructor]|].
  destruct (pbkdf2_block_spec password salt c i) as [H1 H2].
  destruct (IH (i + 1)) as [H3 H4]. split.
  - rewrite List.length_app, H1, H3. reflexivity.
  - apply List.Forall_app. auto.
Qed.

(** The derived key has the requested length and is made of bytes. *)
Lemma pbkdf2_spec (password salt : list Z) (c dkLen : nat) :
  (0 < hash_bytes p)%nat ->
  List.length (pbkdf2 p password salt c dkLen) = dkLen /\
  List.Forall is_byte (pbkdf2 p password salt c dkLen).
Proof.
  intros Hpos. unfold pbkdf2.
  set (l := ((dkLen + hash_bytes p - 1) / hash_bytes p)%nat).
  destruct (pbkdf2_blocks_spec password salt c l 1) as [Hlen Hbytes]. split.
  - rewrite List.length_firstn, Hlen. apply Nat.min_l.
    pose proof (Nat.div_mod_eq (dkLen + hash_bytes p - 1) (hash_bytes p)) as Hdiv.
    pose proof (Nat.mod_upper_bound (dkLen + hash_bytes p - 1) (hash_bytes p)) as Hmod.
    fold l in Hdiv. nia.
  - apply Forall_take. exact Hbytes.
Qed.

End Family.

Lemma sha256_hex_spec (s : jsstring) :
  List.length (sha256_hex s) = 64%nat /\
  List.Forall (fun c => is_hex_char c = true) (sha256_hex s).
Proof.
  unfold sha256_hex, sha256. split.
  - rewrite length_toString_hex, length_sha2. reflexivity.
  - apply toString_hex_is_hex, sha2_bytes.
Qed.

Lemma pbkdf2Sync_sha512_hex_spec (password salt : jsstring) (iterations : nat) :
  List.length (toString_hex (pbkdf2Sync_sha512 password salt iterations 64)) = 128%nat /\
  List.Forall (fun c => is_hex_char c = true)
    (toString_hex (pbkdf2Sync_sha512 password salt iterations 64)).
Proof.
  unfold pbkdf2Sync_sha512.
  destruct (pbkdf2_spec sha512_params (utf8_encode password) (utf8_encode salt)
              iterations 64) as [Hlen Hbytes].
  - vm_compute. lia.
  - split; [rewrite length_toString_hex, Hlen; reflexivity
           | apply toString_hex_is_hex; exact Hbytes].
Qed.

End DigestFacts.

(** ** C2 *)

Section LookupFacts.
Import Js DatabaseService.

Lemma left_join_nonempty {A : Type} (l : list A) : left_join l <> [].
Proof. destruct l; discriminate. Qed.

(** The rows of the query: one for every token row with the hash, every
    user row it joins, and every credits row of that user (or none). *)
Lemma in_getTokenByHash_rows (d : database) (h : jsstring) (ti : token_info) :
  List.In ti (getTokenByHash_rows d h) <->
  exists t u c,
    List.In t (tokens d) /\ List.In u (users d) /\ t_user_id t = u_id u /\
    List.In c (left_join (List.filter (fun c => u_id u =? c_user_id c) (credits d))) /\
    t_token t = h /\ ti = join_row t u c.
Proof.
  unfold getTokenByHash_rows. rewrite List.in_flat_map. split.
  - intros (t & Ht & H). apply List.in_flat_map in H as (u & Hu & H).
    apply List.filter_In in Hu as [Hu Htu]. apply Z.eqb_eq in Htu.
    apply List.in_flat_map in H as (c & Hc & H).
    unfold jsstring_eqb in H. destruct (bool_decide_reflect (t_token t = h)) as [Hh|Hh].
    + destruct H as [<-|[]]. exists t, u, c. auto 10.
    + destruct H.
  - intros (t & u & c & Ht & Hu & Htu & Hc & Hh & ->).
    exists t. split; [exact Ht|]. apply List.in_flat_map. exists u. split.
    + apply List.filter_In. split; [exact Hu | apply Z.eqb_eq; exact Htu].
    + apply List.in_flat_map. exists c. split; [exact Hc|].
      unfold jsstring_eqb. rewrite bool_decide_eq_true_2 by exact Hh. left. reflexivity.
Qed.

Lemma getTokenByHash_Some (d : database) (h : jsstring) (ti : token_info) :
  getTokenByHash d h = Some ti -> List.In ti (getTokenByHash_rows d h).
Proof.
  unfold getTokenByHash. destruct (getTokenByHash_rows d h); [discriminate|].
  intros H. injection H as ->. left. reflexivity.
Qed.

Lemma getTokenByHash_None (d : database) (h : jsstring) :
  getTokenByHash d h = None <->
  ~ exists t u, List.In t (tokens d) /\ List.In u (users d) /\
                t_user_id t = u_id u /\ t_token t = h.
Proof.
  unfold getTokenByHash. split.
  - intros Hnone (t & u & Ht & Hu & Htu & Hh).
    destruct (left_join (List.filter (fun c => u_id u =? c_user_id c) (credits d)))
      as [|c l] eqn:Hj; [exact (left_join_nonempty _ Hj)|].
    assert (Hin : List.In (join_row t u c) (getTokenByHash_rows d h)).
    { apply in_getTokenByHash_rows. exists t, u, c. rewrite Hj. repeat split; trivial.
      left. reflexivity. }
    destruct (getTokenByHash_rows d h); [destruct Hin | discriminate].
  - intros Hnot. destruct (getTokenByHash_rows d h) as [|ti l] eqn:Hrows; [reflexivity|].
    exfalso. apply Hnot.
    assert (Hin : List.In ti (getTokenByHash_rows d h)) by (rewrite Hrows; left; reflexivity).
    apply in_getTokenByHash_rows in Hin as (t & u & c & Ht & Hu & Htu & _ & Hh & _).
    exists t, u. auto.
Qed.

Lemma digest_count_pos (d : database) (h : jsstring) :
  (0 < digest_count d h)%nat <-> exists t, List.In t (tokens d) /\ t_token t = h.
Proof.
  unfold digest_count. induction (tokens d) as [|t l IH]; cbn [List.filter List.In].
  - simpl. split; [lia | intros (t & [] & _)].
  - unfold jsstring_eqb at 1. destruct (bool_decide_reflect (t_token t = h)) as [Hh|Hh].
    + cbn [List.length]. split; [intros _; exists t; auto | lia].
    + rewrite IH. split.
      * intros (t' & Ht' & Hh'). exists t'. auto.
      * intros (t' & [<-|Ht'] & Hh'); [contradiction | exists t'; auto].
Qed.

Lemma digest_count_unique (d : database) (h : jsstring) :
  unique_hashes d -> (digest_count d h <= 1)%nat.
Proof.
  unfold unique_hashes, digest_count.
  induction (tokens d) as [|t l IH]; cbn [List.map List.filter]; intros Hnd; [simpl; lia|].
  inversion Hnd as [|x xs Hnotin Hnd']; subst.
  unfold jsstring_eqb at 1. destruct (bool_decide_reflect (t_token t = h)) as [Hh|Hh].
  - cbn [List.length].
    assert (Hzero : List.filter (fun t0 => jsstring_eqb (t_token t0) h) l = []).
    { destruct (List.filter _ l) as [|t' l'] eqn:Hf; [reflexivity|]. exfalso.
      assert (Hin : List.In t' (List.filter (fun t0 => jsstring_eqb (t_token t0) h) l))
        by (rewrite Hf; left; reflexivity).
      apply List.filter_In in Hin as [Hin Heq]. unfold jsstring_eqb in Heq.
      apply bool_decide_eq_true in Heq. apply Hnotin. rewrite Hh, <- Heq.
      apply List.in_map. exact Hin. }
    rewrite Hzero. simpl. lia.
  - apply IH. exact Hnd'.
Qed.

End LookupFacts.

Lemma hashApiKey_hash (random16 : list Z) (apiKey : Js.jsstring) (salt0 : option Js.jsstring) :
  SecurityUtils.hash (SecurityUtils.hashApiKey random16 apiKey salt0)
  = Js.toString_hex
      (Crypto.pbkdf2Sync_sha512 apiKey
         (SecurityUtils.salt (SecurityUtils.hashApiKey random16 apiKey salt0))
         (Z.to_nat 10000) 64).
Proof. unfold SecurityUtils.hashApiKey. cbn [SecurityUtils.hash SecurityUtils.salt]. reflexivity. Qed.

(** C2, as stated, fails for [SecurityUtils.hashApiKey]: the hash it returns
    for storage has 128 characters, not 64, and so is not the SHA-256 digest
    of the key. *)
Lemma hashApiKey_not_sha256 :
  let h := SecurityUtils.hashApiKey (repeat 0 16) (Js.str "sk_test_secure_key_123456") None in
  List.length (SecurityUtils.hash h) = 128%nat
  /\ List.length (Crypto.sha256_hex (Js.str "sk_test_secure_key_123456")) = 64%nat
  /\ SecurityUtils.hash h <> Crypto.sha256_hex (Js.str "sk_test_secure_key_123456").
Proof.
  cbv zeta.
  assert (H128 : List.length
            (SecurityUtils.hash
               (SecurityUtils.hashApiKey (repeat 0 16) (Js.str "sk_test_secure_key_123456") None))
          = 128%nat) by apply pbkdf2Sync_sha512_hex_spec.
  assert (H64 : List.length (Crypto.sha256_hex (Js.str "sk_test_secure_key_123456")) = 64%nat)
    by apply sha256_hex_spec.
  split; [exact H128|]. split; [exact H64|].
  intros Heq. rewrite Heq, H64 in H128. discriminate H128.
Qed.

(** C2 (amended). The hash that database-backed validation computes and
    looks up, and that the accepted token row stores, is the SHA-256 digest of
    the UTF-8 plaintext key written as 64 lower-case hexadecimal characters.
    [SecurityUtils.hashApiKey] and [verifyApiKey] use another hash:
    PBKDF2-HMAC-SHA512 of the key with a salt, 10000 iterations and 64 bytes,
    written as 128 hexadecimal characters; [verifyApiKey] accepts the key
    against the hash and salt that [hashApiKey] returned for it. *)
Theorem api_key_hash_formats (apiKey : Js.jsstring) :
  (Crypto.sha256_hex apiKey = Js.toString_hex (Crypto.sha256 (Js.utf8_encode apiKey))
   /\ List.length (Crypto.sha256_hex apiKey) = 64%nat
   /\ List.Forall (fun c => Js.is_hex_char c = true) (Crypto.sha256_hex apiKey))
  /\ (forall d q r svc',
        DatabaseService.validateApiKey apiKey
          {| DatabaseService.db := Some d; DatabaseService.immediates := q |} = (Some r, svc') ->
        exists t,
          List.In t (DatabaseService.tokens d) /\
          DatabaseService.t_token t = Crypto.sha256_hex apiKey /\
          DatabaseService.id r = Js.str "db_" ++ Js.of_Z (DatabaseService.t_id t))
  /\ (forall random16 salt0,
        let h := SecurityUtils.hashApiKey random16 apiKey salt0 in
        SecurityUtils.hash h
        = Js.toString_hex
            (Crypto.pbkdf2Sync_sha512 apiKey (SecurityUtils.salt h) (Z.to_nat 10000) 64)
        /\ List.length (SecurityUtils.hash h) = 128%nat
        /\ List.Forall (fun c => Js.is_hex_char c = true) (SecurityUtils.hash h)
        /\ SecurityUtils.verifyApiKey apiKey (SecurityUtils.hash h) (SecurityUtils.salt h) = true).
Proof.
  split; [|split].
  - split; [reflexivity | apply sha256_hex_spec].
  - intros d q r svc' Hv.
    apply validateApiKey_Some in Hv as (d0 & tokenInfo & Hdb & Hget & -> & _).
    cbn [DatabaseService.db] in Hdb. injection Hdb as <-.
    apply getTokenByHash_Some, in_getTokenByHash_rows in Hget
      as (t & u & c & Ht & _ & _ & _ & Hh & ->).
    exists t. auto.
  - intros random16 salt0 h.
    pose proof (hashApiKey_hash random16 apiKey salt0) as Hh. fold h in Hh.
    split; [exact Hh|].
    split; [apply pbkdf2Sync_sha512_hex_spec|].
    split; [apply pbkdf2Sync_sha512_hex_spec|].
    unfold SecurityUtils.verifyApiKey. rewrite constantTimeCompare_strings.
    apply bool_decide_eq_true. rewrite <- Hh. reflexivity.
Qed.

(** ** C1 *)

(** What the call returns when its lookup returns. *)
Lemma validateApiKey_first_row
    (apiKey : Js.jsstring) (d : DatabaseService.database) (q : list DatabaseService.task) :
  let h := Crypto.sha256_hex apiKey in
  let svc := {| DatabaseService.db := Some d; DatabaseService.immediates := q |} in
  fst (DatabaseService.validateApiKey apiKey svc)
  = option_map DatabaseService.format_token_info
      (List.head (DatabaseService.getTokenByHash_rows d h))
  /\ (fst (DatabaseService.validateApiKey apiKey svc) <> None <->
      exists t u,
        List.In t (DatabaseService.tokens d) /\ List.In u (DatabaseService.users d) /\
        DatabaseService.t_user_id t = DatabaseService.u_id u /\
        DatabaseService.t_token t = h)
  /\ (forall r,
        fst (DatabaseService.validateApiKey apiKey svc) = Some r ->
        exists t u,
          List.In t (DatabaseService.tokens d) /\ List.In u (DatabaseService.users d) /\
          DatabaseService.t_user_id t = DatabaseService.u_id u /\
          DatabaseService.t_token t = h /\
          DatabaseService.id r = Js.str "db_" ++ Js.of_Z (DatabaseService.t_id t) /\
          DatabaseService.userId r = DatabaseService.t_user_id t /\
          DatabaseService.name r = DatabaseService.t_name t /\
          DatabaseService.userEmail r = DatabaseService.u_email u /\
          DatabaseService.userName r = DatabaseService.u_name u /\
          DatabaseService.createdAt r = DatabaseService.t_created_at t /\
          DatabaseService.lastUsed r = DatabaseService.t_last_used t)
  /\ (DatabaseService.digest_count d h = 0%nat ->
      DatabaseService.validateApiKey apiKey svc = (None, svc))
  /\ (DatabaseService.unique_hashes d -> DatabaseService.users_present d ->
      (fst (DatabaseService.validateApiKey apiKey svc) <> None <->
       DatabaseService.digest_count d h = 1%nat)).
Proof.
  intros h svc.
  assert (Hfst : fst (DatabaseService.validateApiKey apiKey svc)
                 = option_map DatabaseService.format_token_info
                     (DatabaseService.getTokenByHash d h)).
  { rewrite validateApiKey_unfold. cbn [DatabaseService.db svc]. fold h.
    destruct (DatabaseService.getTokenByHash d h); reflexivity. }
  assert (Hsome : fst (DatabaseService.validateApiKey apiKey svc) <> None <->
                  exists t u,
                    List.In t (DatabaseService.tokens d) /\
                    List.In u (DatabaseService.users d) /\
                    DatabaseService.t_user_id t = DatabaseService.u_id u /\
                    DatabaseService.t_token t = h).
  { rewrite Hfst. pose proof (getTokenByHash_None d h) as Hnone.
    destruct (DatabaseService.getTokenByHash d h) as [ti|] eqn:Hget; cbn [option_map].
    - split; [intros _ | discriminate].
      apply getTokenByHash_Some, in_getTokenByHash_rows in Hget
        as (t & u & c & Ht & Hu & Htu & _ & Hh & _).
      exists t, u. auto.
    - split; [congruence|]. intros Hex _. apply (proj1 Hnone eq_refl). exact Hex. }
  split; [exact Hfst|]. split; [exact Hsome|]. split; [|split].
  - intros r Hr. rewrite Hfst in Hr.
    destruct (DatabaseService.getTokenByHash d h) as [ti|] eqn:Hget; [|discriminate].
    injection Hr as <-.
    apply getTokenByHash_Some, in_getTokenByHash_rows in Hget
      as (t & u & c & Ht & Hu & Htu & _ & Hh & ->).
    exists t, u. repeat split; trivial.
  - intros Hzero. rewrite validateApiKey_unfold. cbn [DatabaseService.db svc]. fold h.
    assert (Hnone : DatabaseService.getTokenByHash d h = None).
    { apply getTokenByHash_None. intros (t & u & Ht & _ & _ & Hh).
      assert (Hpos : (0 < DatabaseService.digest_count d h)%nat)
        by (apply digest_count_pos; exists t; auto).
      lia. }
    rewrite Hnone. reflexivity.
  - intros Huniq Hpresent. rewrite Hsome.
    pose proof (digest_count_unique d h Huniq) as Hle.
    pose proof (digest_count_pos d h) as Hpos. split.
    + intros (t & u & Ht & _ & _ & Hh).
      assert ((0 < DatabaseService.digest_count d h)%nat) by (apply Hpos; exists t; auto). lia.
    + intros Hone. assert (H0 : (0 < DatabaseService.digest_count d h)%nat) by lia.
      apply Hpos in H0 as (t & Ht & Hh). destruct (Hpresent t Ht) as (u & Hu & Htu).
      exists t, u. auto.
Qed.


(** C1, as stated, fails in both directions. With two token rows holding the
    digest of the test key, validation returns the record of the first; with
    one such row whose user row is missing, validation returns [null]; and
    with one such row and its user row, validation returns [null] when the
    lookup throws. *)
Lemma validateApiKey_not_exactly_one :
  let h := Crypto.sha256_hex Sample.TEST_API_KEY in
  (option_map (fun d => DatabaseService.digest_count d h)
     (DatabaseService.db Sample.svc_duplicate) = Some 2%nat
   /\ fst (DatabaseService.validateApiKey Sample.TEST_API_KEY Sample.svc_duplicate)
      = Some Sample.info1
   /\ DatabaseService.id Sample.info1 = Js.str "db_1")
  /\ (option_map (fun d => DatabaseService.digest_count d h)
        (DatabaseService.db Sample.svc_orphan) = Some 1%nat
      /\ fst (DatabaseService.validateApiKey Sample.TEST_API_KEY Sample.svc_orphan) = None)
  /\ (option_map (fun d => DatabaseService.digest_count d h)
        (DatabaseService.db Sample.svc1) = Some 1%nat
      /\ fst (DatabaseService.validateApiKey_with true Sample.TEST_API_KEY Sample.svc1)
         = Some Sample.info1
      /\ DatabaseService.validateApiKey_with false Sample.TEST_API_KEY Sample.svc1
         = (None, Sample.svc1)).
Proof. cbv zeta. repeat split; vm_compute; reflexivity. Qed.

(** C1 (amended). Validation computes the SHA-256 hex digest of the
    plaintext and looks up the first row of the join of [tokens], [users] and
    [credits] whose stored hash is that digest. It returns a record exactly
    when the lookup returns and at least one token row with that digest has
    its user row, and the record is the formatted row of such a token; it
    returns [null], queueing nothing, when no token row has that digest, when
    the lookup throws (the statements were never prepared, the handle is
    closed) and when the database is not open. Where the lookup returns, no
    two token rows share a hash and every token row has its user row, it
    returns a record exactly when one token row has the digest. *)
Theorem validateApiKey_by_digest
    (sql_ok : bool) (apiKey : Js.jsstring) (d : DatabaseService.database)
    (q : list DatabaseService.task) :
  let h := Crypto.sha256_hex apiKey in
  let svc := {| DatabaseService.db := Some d; DatabaseService.immediates := q |} in
  let closed := {| DatabaseService.db := None; DatabaseService.immediates := q |} in
  fst (DatabaseService.validateApiKey_with sql_ok apiKey svc)
  = (if sql_ok
     then option_map DatabaseService.format_token_info
            (List.head (DatabaseService.getTokenByHash_rows d h))
     else None)
  /\ (fst (DatabaseService.validateApiKey_with sql_ok apiKey svc) <> None <->
      sql_ok = true /\
      exists t u,
        List.In t (DatabaseService.tokens d) /\ List.In u (DatabaseService.users d) /\
        DatabaseService.t_user_id t = DatabaseService.u_id u /\
        DatabaseService.t_token t = h)
  /\ (forall r,
        fst (DatabaseService.validateApiKey_with sql_ok apiKey svc) = Some r ->
        exists t u,
          List.In t (DatabaseService.tokens d) /\ List.In u (DatabaseService.users d) /\
          DatabaseService.t_user_id t = DatabaseService.u_id u /\
          DatabaseService.t_token t = h /\
          DatabaseService.id r = Js.str "db_" ++ Js.of_Z (DatabaseService.t_id t) /\
          DatabaseService.userId r = DatabaseService.t_user_id t /\
          DatabaseService.name r = DatabaseService.t_name t /\
          DatabaseService.userEmail r = DatabaseService.u_email u /\
          DatabaseService.userName r = DatabaseService.u_name u /\
          DatabaseService.createdAt r = DatabaseService.t_created_at t /\
          DatabaseService.lastUsed r = DatabaseService.t_last_used t)
  /\ (DatabaseService.digest_count d h = 0%nat ->
      DatabaseService.validateApiKey_with sql_ok apiKey svc = (None, svc))
  /\ DatabaseService.validateApiKey_with false apiKey svc = (None, svc)
  /\ DatabaseService.validateApiKey_with sql_ok apiKey closed = (None, closed)
  /\ (DatabaseService.unique_hashes d -> DatabaseService.users_present d ->
      (fst (DatabaseService.validateApiKey_with sql_ok apiKey svc) <> None <->
       sql_ok = true /\ DatabaseService.digest_count d h = 1%nat)).
Proof.
  intros h svc closed. destruct sql_ok.
  - change (DatabaseService.validateApiKey_with true apiKey svc)
      with (DatabaseService.validateApiKey apiKey svc).
    destruct (validateApiKey_first_row apiKey d q) as (H1 & H2 & H3 & H4 & H5).
    fold h svc in H1, H2, H3, H4, H5.
    split; [exact H1|]. split; [rewrite H2; tauto|]. split; [exact H3|].
    split; [exact H4|]. split; [reflexivity|]. split; [reflexivity|].
    intros Hu Hp. rewrite (H5 Hu Hp). tauto.
  - cbn [DatabaseService.validateApiKey_with DatabaseService.db svc closed fst].
    split; [reflexivity|]. split; [split; [congruence | intros [H _]; discriminate H]|].
    split; [discriminate|]. split; [reflexivity|]. split; [reflexivity|].
    split; [reflexivity|].
    intros _ _. split; [congruence | intros [H _]; discriminate H].
Qed.

(* ===================================================================== *)
(** * Encodings of random bytes and of ASCII strings *)
(* ===================================================================== *)

Section EncodingFacts.
Import Js SecurityUtilsRest.

(** Two numbers below [2 ^ n] have their bitwise or below [2 ^ n]. *)
Lemma lor_below (n a b : Z) :
  0 <= n -> 0 <= a < 2 ^ n -> 0 <= b < 2 ^ n -> 0 <= Z.lor a b < 2 ^ n.
Proof.
  intros Hn Ha Hb.
  assert (Hm : forall z, 0 <= z < 2 ^ n -> Z.land z (Z.ones n) = z).
  { intros z Hz. rewrite Z.land_ones by lia. apply Z.mod_small. exact Hz. }
  rewrite <- (Hm a Ha), <- (Hm b Hb), <- Z.land_lor_distr_l, Z.land_ones by lia.
  apply Z.mod_pos_bound. lia.
Qed.

Lemma base64url_char_ok (n : Z) : 0 <= n < 64 -> is_base64url_char (base64url_char n) = true.
Proof.
  intros Hn. unfold is_base64url_char, base64url_char.
  destruct (Z.ltb_spec n 26); [|destruct (Z.ltb_spec n 52); [|destruct (Z.ltb_spec n 62);
    [|destruct (Z.eqb_spec n 62)]]];
    rewrite !orb_true_iff, !andb_true_iff, !Z.leb_le, !Z.eqb_eq; lia.
Qed.

Lemma shiftr_byte (b k : Z) : 0 <= k <= 8 -> Crypto.is_byte b -> 0 <= Z.shiftr b k < 2 ^ (8 - k).
Proof.
  intros Hk [H0 H1]. rewrite Z.shiftr_div_pow2 by lia. split.
  - apply Z.div_pos; lia.
  - apply Z.div_lt_upper_bound; [lia|]. rewrite <- Z.pow_add_r by lia.
    replace (k + (8 - k)) with 8 by lia. exact H1.
Qed.

Lemma shiftl_land (b k j : Z) :
  0 <= k -> 0 <= j -> 0 <= Z.shiftl (Z.land b (Z.ones k)) j < 2 ^ (k + j).
Proof.
  intros Hk Hj. rewrite Z.land_ones, Z.shiftl_mul_pow2 by lia.
  pose proof (Z.mod_pos_bound b (2 ^ k) ltac:(lia)) as Hb.
  rewrite Z.pow_add_r by lia. nia.
Qed.

Lemma toString_base64url_spec (buf : list Z) :
  List.Forall Crypto.is_byte buf ->
  List.Forall (fun c => is_base64url_char c = true) (toString_base64url buf) /\
  List.length (toString_base64url buf)
  = ((4 * List.length buf + 2) / 3)%nat.
Proof.
  assert (H6 : forall a b, Crypto.is_byte a -> Crypto.is_byte b ->
            0 <= Z.lor (Z.shiftl (Z.land a 3) 4) (Z.shiftr b 4) < 64 /\
            0 <= Z.lor (Z.shiftl (Z.land a 15) 2) (Z.shiftr b 6) < 64 /\
            0 <= Z.shiftr a 2 < 64 /\ 0 <= Z.land a 63 < 64 /\
            0 <= Z.shiftl (Z.land a 3) 4 < 64 /\ 0 <= Z.shiftl (Z.land a 15) 2 < 64).
  { intros a b Ha Hb.
    pose proof (shiftl_land a 2 4 ltac:(lia) ltac:(lia)) as H1.
    pose proof (shiftl_land a 4 2 ltac:(lia) ltac:(lia)) as H2.
    pose proof (shiftr_byte b 4 ltac:(lia) Hb) as H3.
    pose proof (shiftr_byte b 6 ltac:(lia) Hb) as H4.
    pose proof (shiftr_byte a 2 ltac:(lia) Ha) as H5.
    change (Z.ones 2) with 3 in H1. change (Z.ones 4) with 15 in H2.
    change (2 ^ (2 + 4)) with 64 in H1. change (2 ^ (4 + 2)) with 64 in H2.
    change (2 ^ (8 - 4)) with 16 in H3. change (2 ^ (8 - 6)) with 4 in H4.
    change (2 ^ (8 - 2)) with 64 in H5.
    repeat split; try lia;
      try (apply (lor_below 6); lia).
    - change 63 with (Z.ones 6). rewrite Z.land_ones by lia. apply Z.mod_pos_bound. lia.
    - change 63 with (Z.ones 6). rewrite Z.land_ones by lia. apply Z.mod_pos_bound. lia. }
  revert buf. fix IH 2. intros buf Hbytes.
  destruct Hbytes as [|a buf Ha Hbytes]; [split; [constructor | reflexivity]|].
  destruct Hbytes as [|b buf Hb Hbytes].
  { destruct (H6 a a Ha Ha) as (_ & _ & ? & _ & ? & _).
    split; [repeat constructor; apply base64url_char_ok; assumption | reflexivity]. }
  destruct Hbytes as [|c buf Hc Hbytes].
  { destruct (H6 a b Ha Hb) as (? & _ & ? & _ & _ & _).
    destruct (H6 b b Hb Hb) as (_ & _ & _ & _ & _ & ?).
    split; [repeat constructor; apply base64url_char_ok; assumption | reflexivity]. }
  destruct (IH buf Hbytes) as [IH1 IH2].
  destruct (H6 a b Ha Hb) as (? & _ & ? & _ & _ & _).
  destruct (H6 b c Hb Hc) as (_ & ? & _ & _ & _ & _).
  destruct (H6 c c Hc Hc) as (_ & _ & _ & ? & _ & _).
  cbn [toString_base64url]. split.
  - repeat (constructor; [apply base64url_char_ok; assumption|]). exact IH1.
  - cbn [List.length]. rewrite IH2.
    replace (4 * S (S (S (List.length buf))) + 2)%nat
      with ((4 * List.length buf + 2) + 4 * 3)%nat by lia.
    rewrite Nat.div_add by lia. lia.
Qed.

(** A string whose UTF-8 encoding has no byte above 127 is that encoding. *)
Lemma utf8_encode_ascii_inv (s : jsstring) :
  List.Forall (fun b => b < 128) (utf8_encode s) -> utf8_encode s = s.
Proof.
  assert (Hhigh : forall m y, Z.testbit m 7 = true -> 0 <= m -> 0 <= y -> ~ Z.lor m y < 128).
  { intros m y Hm7 Hm Hy Hlt.
    assert (Hnn : 0 <= Z.lor m y) by (apply Z.lor_nonneg; lia).
    assert (Hbit : Z.testbit (Z.lor m y) 7 = true) by (rewrite Z.lor_spec, Hm7; reflexivity).
    rewrite Z.testbit_true in Hbit by lia. change (2 ^ 7) with 128 in Hbit.
    rewrite Z.div_small in Hbit by lia. discriminate Hbit. }
  induction s as [|c rest IH]; [reflexivity|]. cbn [utf8_encode].
  destruct (Z.ltb_spec c 128) as [Hc|Hc].
  - intros H. inversion H; subst. f_equal. apply IH. assumption.
  - intros H. exfalso.
    assert (Hs : forall k, 0 <= Z.shiftr c k) by (intros k; apply Z.shiftr_nonneg; lia).
    destruct (c <? 2048).
    { inversion H as [|x l Hx _]; subst. exact (Hhigh 192 _ eq_refl ltac:(lia) (Hs 6) Hx). }
    destruct (is_high_surrogate c) eqn:Hhi.
    { destruct rest as [|d rest'].
      - inversion H as [|x l Hx _]; subst. lia.
      - destruct (is_low_surrogate d) eqn:Hlo.
        + inversion H as [|x l Hx _]; subst.
          refine (Hhigh 240 _ eq_refl ltac:(lia) _ Hx). apply Z.shiftr_nonneg.
          unfold code_point, is_high_surrogate, is_low_surrogate in *.
          apply andb_true_iff in Hhi as [Hhi _]. apply andb_true_iff in Hlo as [Hlo _].
          apply Z.leb_le in Hhi, Hlo.
          pose proof (proj2 (Z.shiftl_nonneg (c - 55296) 10) ltac:(lia)). lia.
        + inversion H as [|x l Hx _]; subst. lia. }
    destruct (is_low_surrogate c).
    { inversion H as [|x l Hx _]; subst. lia. }
    inversion H as [|x l Hx _]; subst. exact (Hhigh 224 _ eq_refl ltac:(lia) (Hs 12) Hx).
Qed.

Lemma utf8_encode_ascii (s : jsstring) :
  List.Forall (fun c => c < 128) s -> utf8_encode s = s.
Proof.
  induction 1 as [|c rest Hc _ IH]; [reflexivity|]. cbn [utf8_encode].
  rewrite (proj2 (Z.ltb_lt c 128) Hc), IH. reflexivity.
Qed.

Lemma is_hex_char_ascii (s : jsstring) :
  List.Forall (fun c => is_hex_char c = true) s -> List.Forall (fun c => c < 128) s.
Proof.
  apply List.Forall_impl. intros c. unfold is_hex_char.
  rewrite orb_true_iff, !andb_true_iff, !Z.leb_le. lia.
Qed.

(** On an ASCII string the comparison is the equality of strings. *)
Lemma constantTimeCompare_ascii (a b : jsstring) :
  List.Forall (fun c => c < 128) a ->
  (SecurityUtils.constantTimeCompare (VString a) (VString b) = true <-> a = b).
Proof.
  intros Ha. rewrite constantTimeCompare_strings, bool_decide_eq_true. unfold Buffer_from.
  rewrite (utf8_encode_ascii a Ha). split.
  - intros H. assert (Hb : utf8_encode b = b).
    { apply utf8_encode_ascii_inv. rewrite <- H. exact Ha. }
    congruence.
  - intros <-. symmetry. apply utf8_encode_ascii. exact Ha.
Qed.

End EncodingFacts.

(** X1. [generateSecureSecret(length)] returns [2 * length] characters, each a
    lower-case hexadecimal digit: 64 for the default length of 32 bytes. *)
Theorem generateSecureSecret_format (random : list Z) :
  List.Forall Crypto.is_byte random ->
  List.length (SecurityUtilsRest.generateSecureSecret random) = (2 * List.length random)%nat /\
  List.Forall (fun c => Js.is_hex_char c = true) (SecurityUtilsRest.generateSecureSecret random).
Proof.
  intros H. split; [apply length_toString_hex | apply toString_hex_is_hex; exact H].
Qed.

Lemma generateSecureSecret_format_witness :
  List.Forall Crypto.is_byte (repeat 171 32)
  /\ List.length (SecurityUtilsRest.generateSecureSecret (repeat 171 32)) = 64%nat.
Proof.
  assert (H : List.Forall Crypto.is_byte (repeat 171 32)).
  { apply List.Forall_forall. intros x Hx. apply List.repeat_spec in Hx. subst.
    unfold Crypto.is_byte. lia. }
  split; [exact H|]. exact (proj1 (generateSecureSecret_format _ H)).
Defined.

(** X2. [generateSessionToken()] returns 43 characters for its 32 random
    bytes, with no padding, and every character is a letter, a digit, [-] or
    [_]; for [n] bytes the length is [ceil(4n / 3)]. *)
Theorem generateSessionToken_format (random : list Z) :
  List.Forall Crypto.is_byte random ->
  List.Forall (fun c => SecurityUtilsRest.is_base64url_char c = true)
    (SecurityUtilsRest.generateSessionToken random) /\
  List.length (SecurityUtilsRest.generateSessionToken random)
  = ((4 * List.length random + 2) / 3)%nat /\
  (List.length random = 32%nat ->
   List.length (SecurityUtilsRest.generateSessionToken random) = 43%nat).
Proof.
  intros H. destruct (toString_base64url_spec random H) as [H1 H2].
  split; [exact H1|]. split; [exact H2|]. intros H32.
  unfold SecurityUtilsRest.generateSessionToken. rewrite H2, H32. reflexivity.
Qed.

Lemma generateSessionToken_format_witness :
  List.Forall Crypto.is_byte (repeat 171 32)
  /\ List.length (SecurityUtilsRest.generateSessionToken (repeat 171 32)) = 43%nat.
Proof.
  assert (H : List.Forall Crypto.is_byte (repeat 171 32)).
  { apply List.Forall_forall. intros x Hx. apply List.repeat_spec in Hx. subst.
    unfold Crypto.is_byte. lia. }
  split; [exact H|].
  exact (proj2 (proj2 (generateSessionToken_format _ H)) eq_refl).
Defined.

Example base64url_sample :
  SecurityUtilsRest.toString_base64url [251; 255; 190; 0; 16; 131; 16; 81]
  = Js.str "-_--ABCDEFE".
Proof. reflexivity. Qed.

(** X3. [verifyApiKey(apiKey, hash, salt)] is [true] exactly when [hash] is,
    character for character, the hexadecimal PBKDF2-HMAC-SHA512 (10000
    iterations, 64 bytes) of the key and the salt: no other string, of any
    length or alphabet, is accepted. *)
Theorem verifyApiKey_iff (apiKey hash0 salt0 : Js.jsstring) :
  SecurityUtils.verifyApiKey apiKey hash0 salt0 = true <->
  hash0 = Js.toString_hex (Crypto.pbkdf2Sync_sha512 apiKey salt0 (Z.to_nat 10000) 64).
Proof.
  unfold SecurityUtils.verifyApiKey. rewrite constantTimeCompare_ascii.
  - split; intros H; symmetry; exact H.
  - apply is_hex_char_ascii, pbkdf2Sync_sha512_hex_spec.
Qed.

(* ===================================================================== *)
(** * Path validation *)
(* ===================================================================== *)

Section PathFacts.
Import Js NodePath SecurityUtilsRest.

Lemma split_on_nonempty (c : Z) (s : jsstring) : split_on c s <> [].
Proof.
  destruct s as [|x s]; cbn [split_on]; [discriminate|].
  destruct (split_on c s); [discriminate|]. destruct (x =? c); discriminate.
Qed.

Lemma split_on_app (c : Z) (a s : jsstring) :
  split_on c (a ++ c :: s) = split_on c a ++ split_on c s.
Proof.
  induction a as [|x a IH]; cbn [List.app split_on].
  - pose proof (split_on_nonempty c s) as Hne.
    destruct (split_on c s) as [|seg segs]; [contradiction|].
    rewrite Z.eqb_refl. reflexivity.
  - rewrite IH. pose proof (split_on_nonempty c a) as Hne.
    destruct (split_on c a) as [|seg segs]; [contradiction|]. cbn [List.app].
    destruct (x =? c); reflexivity.
Qed.

Lemma split_on_segment (c : Z) (seg : jsstring) : ~ List.In c seg -> split_on c seg = [seg].
Proof.
  induction seg as [|x seg IH]; intros Hnot; [reflexivity|]. cbn [split_on].
  rewrite IH by (intros H; apply Hnot; right; exact H).
  destruct (Z.eqb_spec x c) as [->|_]; [|reflexivity]. exfalso. apply Hnot. left. reflexivity.
Qed.

Lemma split_on_join (c : Z) (segs : list jsstring) :
  segs <> [] -> List.Forall (fun seg => ~ List.In c seg) segs ->
  split_on c (join_with c segs) = segs.
Proof.
  intros Hne Hall. induction Hall as [|seg segs Hseg Hall IH]; [contradiction|].
  destruct segs as [|seg' segs']; [apply split_on_segment; exact Hseg|].
  change (join_with c (seg :: seg' :: segs')) with (seg ++ c :: join_with c (seg' :: segs')).
  rewrite split_on_app, split_on_segment, IH by (trivial; discriminate). reflexivity.
Qed.

Lemma split_on_no_separator (c : Z) (s : jsstring) :
  List.Forall (fun seg => ~ List.In c seg) (split_on c s).
Proof.
  induction s as [|x s IH]; cbn [split_on]; [repeat constructor; intros []|].
  pose proof (split_on_nonempty c s) as Hne.
  destruct (split_on c s) as [|seg segs]; [contradiction|].
  inversion IH as [|? ? Hseg Hsegs]; subst.
  destruct (Z.eqb_spec x c) as [->|Hx].
  - constructor; [intros []|]. constructor; assumption.
  - constructor; [|assumption]. intros [H|H]; [congruence | contradiction].
Qed.

Lemma join_with_app (c : Z) (a b : list jsstring) :
  a <> [] -> b <> [] -> join_with c (a ++ b) = join_with c a ++ c :: join_with c b.
Proof.
  intros Ha Hb. induction a as [|seg a IH]; [contradiction|].
  destruct a as [|seg' a'].
  - destruct b; [contradiction | reflexivity].
  - change (join_with c ((seg :: seg' :: a') ++ b))
      with (seg ++ c :: join_with c ((seg' :: a') ++ b)).
    rewrite IH by discriminate.
    change (join_with c (seg :: seg' :: a')) with (seg ++ c :: join_with c (seg' :: a')).
    rewrite <- List.app_assoc. reflexivity.
Qed.

Lemma join_with_snoc (c : Z) (a : list jsstring) (last x : jsstring) :
  join_with c (a ++ [last ++ x]) = join_with c (a ++ [last]) ++ x.
Proof.
  destruct a as [|seg a]; [reflexivity|].
  rewrite !join_with_app by discriminate. cbn [join_with].
  rewrite <- List.app_assoc. reflexivity.
Qed.

Lemma plain_segmentb_true (seg : jsstring) :
  plain_segmentb seg = true -> plain_segment seg.
Proof.
  unfold plain_segmentb, plain_segment, jsstring_eqb.
  rewrite !andb_true_iff, !negb_true_iff, !bool_decide_eq_false, List.forallb_forall.
  intros (((H1 & H2) & H3) & H4). repeat split; trivial.
  intros Hin. specialize (H4 _ Hin). rewrite Z.eqb_refl in H4. discriminate H4.
Qed.

Lemma plain_segment_step (allow : bool) (kept : list jsstring) (seg : jsstring) :
  plain_segment seg -> normalize_step allow kept seg = seg :: kept.
Proof.
  intros (H1 & H2 & H3 & _). unfold normalize_step, jsstring_eqb.
  rewrite !bool_decide_eq_false_2 by assumption. reflexivity.
Qed.

Lemma empty_segment_step (allow : bool) (kept : list jsstring) :
  normalize_step allow kept [] = kept.
Proof. reflexivity. Qed.

Lemma fold_plain_segments (allow : bool) (segs : list jsstring) :
  forall kept,
    List.Forall plain_segment segs ->
    fold_left (normalize_step allow) segs kept = List.rev segs ++ kept.
Proof.
  induction segs as [|seg segs IH]; intros kept Hall; [reflexivity|].
  inversion Hall; subst. cbn [fold_left List.rev].
  rewrite plain_segment_step, IH, <- List.app_assoc by assumption. reflexivity.
Qed.

(** Without leave to climb above the root, normalisation keeps plain
    segments only. *)
Lemma fold_keeps_plain (segs : list jsstring) :
  forall kept,
    List.Forall (fun seg => ~ List.In slash seg) segs ->
    List.Forall plain_segment kept ->
    List.Forall plain_segment (fold_left (normalize_step false) segs kept).
Proof.
  induction segs as [|seg segs IH]; intros kept Hsegs Hkept; [exact Hkept|].
  inversion Hsegs as [|? ? Hseg Hrest]; subst. cbn [fold_left]. apply IH; [exact Hrest|].
  unfold normalize_step, jsstring_eqb.
  case_bool_decide as Hne; [exact Hkept|].
  case_bool_decide as Hnd; [exact Hkept|]. cbn [orb].
  case_bool_decide as Hndd.
  - destruct kept as [|last rest]; [constructor|].
    case_bool_decide; [exact Hkept|].
    inversion Hkept; assumption.
  - constructor; [|exact Hkept]. repeat split; assumption.
Qed.

Lemma normalize_segments_plain (path : jsstring) :
  List.Forall plain_segment (normalize_segments false path).
Proof.
  unfold normalize_segments. apply List.Forall_rev.
  apply fold_keeps_plain; [apply split_on_no_separator | constructor].
Qed.

(** A path that ends with a separator: the empty last segment is dropped. *)
Lemma normalize_segments_trailing (allow : bool) (path : jsstring) :
  normalize_segments allow (path ++ [slash])
  = List.rev (fold_left (normalize_step allow) (split_on slash path) []).
Proof.
  unfold normalize_segments. rewrite split_on_app. cbn [split_on].
  rewrite List.fold_left_app. reflexivity.
Qed.

Lemma normalize_rendered (segs : list jsstring) :
  List.Forall plain_segment segs ->
  normalize_segments false (render segs ++ [slash]) = segs.
Proof.
  intros Hall. rewrite normalize_segments_trailing. unfold render.
  change (slash :: join_with slash segs) with ([] ++ slash :: join_with slash segs).
  rewrite split_on_app. cbn [split_on List.app fold_left]. rewrite empty_segment_step.
  destruct segs as [|seg segs']; [reflexivity|].
  rewrite split_on_join.
  - rewrite fold_plain_segments, List.app_nil_r, List.rev_involutive by exact Hall. reflexivity.
  - discriminate.
  - eapply List.Forall_impl; [|exact Hall]. intros s (_ & _ & _ & H). exact H.
Qed.

Lemma resolve_loop_acc (cwd : jsstring) (args_rev : list jsstring) :
  forall acc,
    resolve_loop args_rev cwd acc
    = (fst (resolve_loop args_rev cwd []) ++ acc, snd (resolve_loop args_rev cwd [])).
Proof.
  induction args_rev as [|path rest IH]; intros acc; cbn [resolve_loop].
  - destruct (Nat.eqb (List.length cwd) 0); cbn [fst snd]; [reflexivity|].
    rewrite <- List.app_assoc. reflexivity.
  - destruct (Nat.eqb (List.length path) 0); [apply IH|].
    destruct (Z.eqb (List.hd 0 path) slash); cbn [fst snd].
    + rewrite <- List.app_assoc. reflexivity.
    + rewrite (IH (path ++ slash :: acc)), (IH (path ++ [slash])). cbn [fst snd].
      rewrite <- !List.app_assoc. reflexivity.
Qed.

(** With an absolute working directory the loop ends on an absolute path
    that ends with a separator. *)
Lemma resolve_loop_absolute (cwd : jsstring) (args_rev : list jsstring) :
  absolute cwd ->
  exists raw, resolve_loop args_rev cwd [] = (raw ++ [slash], true).
Proof.
  intros Habs. unfold absolute in Habs.
  induction args_rev as [|path rest IH]; cbn [resolve_loop].
  - destruct cwd as [|c cwd']; [discriminate Habs|]. cbn [List.length Nat.eqb].
    rewrite Habs, Z.eqb_refl. eexists. reflexivity.
  - destruct (Nat.eqb (List.length path) 0); [exact IH|].
    destruct (Z.eqb (List.hd 0 path) slash); [eexists; reflexivity|].
    destruct IH as [raw Hraw]. rewrite resolve_loop_acc, Hraw. cbn [fst snd].
    exists (raw ++ slash :: path). rewrite <- !List.app_assoc. reflexivity.
Qed.

Lemma resolve_base (cwd basePath : jsstring) :
  absolute cwd ->
  resolve cwd [basePath] = render (base_segments cwd basePath) /\
  List.Forall plain_segment (base_segments cwd basePath).
Proof.
  intros Habs. unfold resolve, base_segments. cbn [List.rev List.app].
  destruct (resolve_loop_absolute cwd [basePath] Habs) as [raw Hraw]. rewrite Hraw.
  cbn [fst negb]. split; [reflexivity | apply normalize_segments_plain].
Qed.

Lemma resolve_rendered (cwd : jsstring) (args : list jsstring) :
  absolute cwd ->
  exists segs, resolve cwd args = render segs /\ List.Forall plain_segment segs.
Proof.
  intros Habs. unfold resolve.
  destruct (resolve_loop_absolute cwd (List.rev args) Habs) as [raw Hraw]. rewrite Hraw.
  cbn [negb]. eexists. split; [reflexivity | apply normalize_segments_plain].
Qed.

Lemma render_head (segs : list jsstring) : List.hd 0 (render segs) = slash.
Proof. reflexivity. Qed.

(** An absolute, normalised second argument is the result of [resolve]. *)
Lemma resolve_absolute_argument (cwd basePath : jsstring) (segs : list jsstring) :
  List.Forall plain_segment segs ->
  resolve cwd [basePath; render segs] = render segs.
Proof.
  intros Hall. unfold resolve. cbn [List.rev List.app resolve_loop].
  cbn [render List.length Nat.eqb List.hd]. rewrite Z.eqb_refl. cbn [negb].
  change (slash :: join_with slash segs) with (render segs).
  change (render segs ++ [slash]) with (render segs ++ [slash]).
  rewrite (normalize_rendered segs Hall). reflexivity.
Qed.

Lemma resolve_loop_relative (cwd path : jsstring) (rest : list jsstring) (acc : jsstring) :
  path <> [] -> List.hd 0 path <> slash ->
  resolve_loop (path :: rest) cwd acc = resolve_loop rest cwd (path ++ slash :: acc).
Proof.
  intros Hne Hhd. cbn [resolve_loop]. destruct path as [|x p]; [contradiction|].
  cbn [List.length Nat.eqb]. rewrite (proj2 (Z.eqb_neq _ _) Hhd). reflexivity.
Qed.

(** A relative second argument made of plain segments is appended to the
    base. *)
Lemma resolve_relative_argument (cwd basePath : jsstring) (segs : list jsstring) :
  absolute cwd -> segs <> [] -> List.Forall plain_segment segs ->
  resolve cwd [basePath; join_with slash segs]
  = render (base_segments cwd basePath ++ segs).
Proof.
  intros Habs Hne Hall. unfold resolve, base_segments. cbn [List.rev List.app].
  destruct (resolve_loop_absolute cwd [basePath] Habs) as [raw Hraw].
  assert (Hseg_no : List.Forall (fun seg => ~ List.In slash seg) segs).
  { eapply List.Forall_impl; [|exact Hall]. intros s (_ & _ & _ & H). exact H. }
  assert (Hhd : List.hd 0 (join_with slash segs) <> slash /\ join_with slash segs <> []).
  { destruct segs as [|seg segs']; [contradiction|]. inversion Hall as [|? ? Hseg _]; subst.
    destruct Hseg as (Hn & _ & _ & Hns). destruct seg as [|x seg]; [contradiction|].
    split.
    - destruct segs'; cbn; intros ->; apply Hns; left; reflexivity.
    - destruct segs'; discriminate. }
  destruct Hhd as [Hhd Hjn].
  rewrite (resolve_loop_relative cwd _ [basePath] [] Hjn Hhd).
  rewrite (resolve_loop_acc cwd [basePath]), Hraw. cbn [fst snd negb]. f_equal. f_equal.
  replace ((raw ++ [slash]) ++ join_with slash segs ++ [slash])
    with ((raw ++ slash :: join_with slash segs) ++ [slash])
    by (rewrite <- !List.app_assoc; reflexivity).
  rewrite !normalize_segments_trailing, split_on_app, List.fold_left_app.
  rewrite split_on_join by assumption.
  rewrite fold_plain_segments by exact Hall.
  rewrite List.rev_app_distr, !List.rev_involutive. reflexivity.
Qed.

Lemma startsWith_render (base extra : list jsstring) :
  startsWith (render (base ++ extra)) (render base) = true.
Proof.
  apply startsWith_app. unfold render.
  destruct base as [|b base']; [eexists; reflexivity|].
  destruct extra as [|e extra']; [exists []; rewrite !List.app_nil_r; reflexivity|].
  rewrite join_with_app by discriminate. eexists. cbn [List.app]. reflexivity.
Qed.

End PathFacts.

Lemma validatePath_string (cwd basePath p : Js.jsstring) :
  p <> [] ->
  SecurityUtilsRest.validatePath cwd (Js.VString p) basePath
  = if Js.startsWith (NodePath.resolve cwd [basePath; p]) (NodePath.resolve cwd [basePath])
    then Some (NodePath.resolve cwd [basePath; p]) else None.
Proof.
  intros Hp. unfold SecurityUtilsRest.validatePath. destruct p as [|c p]; [contradiction|].
  cbn [Js.truthy SecurityUtils.is_string Js.typeof negb orb].
  destruct (Js.startsWith _ _); reflexivity.
Qed.

(** X4. With an absolute working directory, whatever [validatePath] returns
    is the resolution of a non-empty string path against the base: an
    absolute path without empty, [.] or [..] segments that has the resolved
    base as a prefix. *)
Theorem validatePath_result
    (cwd basePath : Js.jsstring) (path : Js.value) (resolved : Js.jsstring) :
  NodePath.absolute cwd ->
  SecurityUtilsRest.validatePath cwd path basePath = Some resolved ->
  exists p segs,
    path = Js.VString p /\ p <> [] /\
    resolved = NodePath.resolve cwd [basePath; p] /\
    resolved = NodePath.render segs /\
    List.Forall NodePath.plain_segment segs /\
    Js.startsWith resolved (NodePath.resolve cwd [basePath]) = true.
Proof.
  intros Habs. unfold SecurityUtilsRest.validatePath.
  destruct path as [| |b|n|p|f];
    try (intros H; discriminate H);
    try (destruct (negb _ || negb _); intros H; discriminate H).
  destruct p as [|c p]; [intros H; discriminate H|].
  cbn [Js.truthy SecurityUtils.is_string Js.typeof negb orb].
  destruct (Js.startsWith _ _) eqn:Hsw; [|discriminate]. cbn [negb].
  intros H. injection H as <-.
  destruct (resolve_rendered cwd [basePath; c :: p] Habs) as (segs & Hr & Hplain).
  exists (c :: p), segs. repeat split; trivial. discriminate.
Qed.

Lemma validatePath_result_witness :
  NodePath.absolute (Js.str "/srv/app")
  /\ SecurityUtilsRest.validatePath (Js.str "/srv/app") (Js.VString (Js.str "aicoding.db"))
       (Js.str "/data") = Some (Js.str "/data/aicoding.db")
  /\ exists p segs,
       Js.VString (Js.str "aicoding.db") = Js.VString p /\ p <> [] /\
       Js.str "/data/aicoding.db" = NodePath.resolve (Js.str "/srv/app") [Js.str "/data"; p] /\
       Js.str "/data/aicoding.db" = NodePath.render segs /\
       List.Forall NodePath.plain_segment segs /\
       Js.startsWith (Js.str "/data/aicoding.db")
         (NodePath.resolve (Js.str "/srv/app") [Js.str "/data"]) = true.
Proof.
  split; [reflexivity|]. split; [vm_compute; reflexivity|].
  apply (validatePath_result (Js.str "/srv/app") (Js.str "/data")); [reflexivity|].
  vm_compute. reflexivity.
Defined.

(** X5. A relative path made of ordinary names (none empty, [.] or [..])
    is always accepted, and the result is the resolved base followed by these
    names. *)
Theorem validatePath_relative
    (cwd basePath : Js.jsstring) (segs : list Js.jsstring) :
  NodePath.absolute cwd -> segs <> [] -> List.Forall NodePath.plain_segment segs ->
  NodePath.resolve cwd [basePath] = NodePath.render (NodePath.base_segments cwd basePath) /\
  SecurityUtilsRest.validatePath cwd (Js.VString (NodePath.join_with NodePath.slash segs))
    basePath
  = Some (NodePath.render (NodePath.base_segments cwd basePath ++ segs)).
Proof.
  intros Habs Hne Hall. destruct (resolve_base cwd basePath Habs) as [Hbase _].
  split; [exact Hbase|]. unfold SecurityUtilsRest.validatePath.
  assert (Hj : NodePath.join_with NodePath.slash segs <> []).
  { destruct segs as [|seg segs']; [contradiction|]. inversion Hall as [|? ? Hseg _]; subst.
    destruct Hseg as (Hn & _). destruct seg; [contradiction|]. destruct segs'; discriminate. }
  assert (Ht : Js.truthy (Js.VString (NodePath.join_with NodePath.slash segs)) = true).
  { cbn [Js.truthy]. destruct (NodePath.join_with NodePath.slash segs); [contradiction|].
    reflexivity. }
  rewrite Ht. cbn [SecurityUtils.is_string Js.typeof negb orb].
  rewrite (resolve_relative_argument cwd basePath segs Habs Hne Hall), Hbase.
  rewrite startsWith_render. reflexivity.
Qed.

Lemma validatePath_relative_witness :
  NodePath.absolute (Js.str "/srv/app")
  /\ [Js.str "backups"; Js.str "aicoding.db"] <> []
  /\ List.Forall NodePath.plain_segment [Js.str "backups"; Js.str "aicoding.db"]
  /\ SecurityUtilsRest.validatePath (Js.str "/srv/app")
       (Js.VString (Js.str "backups/aicoding.db")) (Js.str "data")
     = Some (Js.str "/srv/app/data/backups/aicoding.db").
Proof.
  assert (Hplain : List.Forall NodePath.plain_segment [Js.str "backups"; Js.str "aicoding.db"]).
  { repeat constructor; apply plain_segmentb_true; reflexivity. }
  assert (Hne : [Js.str "backups"; Js.str "aicoding.db"] <> []) by (intros H; discriminate H).
  split; [reflexivity|]. split; [exact Hne|]. split; [exact Hplain|].
  exact (proj2 (validatePath_relative (Js.str "/srv/app") (Js.str "data") _ eq_refl
                  Hne Hplain)).
Defined.

(** X6. The containment check is a comparison of strings. For a base other
    than the root, the absolute path obtained by writing further characters
    (no separator) right after the resolved base, such as [/data-old] for the
    base [/data], is accepted although it names a sibling of the base, not a
    path below it. *)
Theorem validatePath_accepts_sibling
    (cwd basePath suffix : Js.jsstring) :
  NodePath.absolute cwd ->
  NodePath.base_segments cwd basePath <> [] ->
  suffix <> [] -> ~ List.In NodePath.slash suffix ->
  let resolvedBase := NodePath.resolve cwd [basePath] in
  SecurityUtilsRest.validatePath cwd (Js.VString (resolvedBase ++ suffix)) basePath
  = Some (resolvedBase ++ suffix)
  /\ Js.startsWith (resolvedBase ++ suffix) (resolvedBase ++ [NodePath.slash]) = false.
Proof.
  intros Habs Hroot Hsuf Hns resolvedBase.
  destruct (resolve_base cwd basePath Habs) as [Hbase Hplain].
  fold resolvedBase in Hbase.
  destruct (List.exists_last Hroot) as (b0 & last & Hb).
  assert (Hlast : NodePath.plain_segment (last ++ suffix)).
  { rewrite Hb in Hplain. apply List.Forall_app in Hplain as [_ Hl].
    inversion Hl as [|? ? (Hn & Hd & Hdd & Hsl) _]; subst.
    destruct last as [|l0 last']; [contradiction|]. destruct suffix as [|s0 suffix']; [contradiction|].
    unfold NodePath.plain_segment, NodePath.dot, NodePath.dotdot in *. repeat split.
    - discriminate.
    - destruct last'; discriminate.
    - destruct last' as [|l1 last'']; [|destruct last''; discriminate].
      cbn. intros H. injection H as -> _. apply Hd. reflexivity.
    - rewrite List.in_app_iff. intros [H|H]; [apply Hsl; exact H | apply Hns; exact H]. }
  assert (Hsegs : List.Forall NodePath.plain_segment (b0 ++ [last ++ suffix])).
  { rewrite Hb in Hplain. apply List.Forall_app in Hplain as [H0 _].
    apply List.Forall_app. split; [exact H0 | constructor; [exact Hlast | constructor]]. }
  assert (Hext : resolvedBase ++ suffix = NodePath.render (b0 ++ [last ++ suffix])).
  { rewrite Hbase, Hb. unfold NodePath.render. cbn [List.app].
    rewrite join_with_snoc. reflexivity. }
  split.
  - rewrite validatePath_string by (rewrite Hext; discriminate).
    rewrite Hext, (resolve_absolute_argument cwd basePath _ Hsegs).
    assert (Hsw : Js.startsWith (NodePath.render (b0 ++ [last ++ suffix]))
                    (NodePath.resolve cwd [basePath]) = true).
    { apply startsWith_app. exists suffix. fold resolvedBase. symmetry. exact Hext. }
    rewrite Hsw. reflexivity.
  - destruct (Js.startsWith _ _) eqn:Hsw; [|reflexivity]. exfalso.
    apply startsWith_app in Hsw as [rest Hrest].
    rewrite <- List.app_assoc in Hrest. apply List.app_inv_head in Hrest.
    apply Hns. rewrite Hrest. left. reflexivity.
Qed.

Lemma validatePath_accepts_sibling_witness :
  NodePath.absolute (Js.str "/srv/app")
  /\ NodePath.base_segments (Js.str "/srv/app") (Js.str "/data") <> []
  /\ Js.str "-old" <> [] /\ ~ List.In NodePath.slash (Js.str "-old")
  /\ SecurityUtilsRest.validatePath (Js.str "/srv/app") (Js.VString (Js.str "/data-old"))
       (Js.str "/data") = Some (Js.str "/data-old").
Proof.
  assert (Hns : ~ List.In NodePath.slash (Js.str "-old")).
  { vm_compute. intuition discriminate. }
  assert (Hb : NodePath.base_segments (Js.str "/srv/app") (Js.str "/data") <> [])
    by (vm_compute; intros H; discriminate H).
  assert (Hs : Js.str "-old" <> []) by (intros H; discriminate H).
  split; [reflexivity|]. split; [exact Hb|]. split; [exact Hs|].
  split; [exact Hns|].
  exact (proj1 (validatePath_accepts_sibling (Js.str "/srv/app") (Js.str "/data")
                  (Js.str "-old") eq_refl Hb Hs Hns)).
Defined.

(** The calls of [test-security-improvements.js], test 3, and a relative
    path that climbs to a sibling. *)
Example validatePath_test :
  SecurityUtilsRest.validatePath (Js.str "/srv/app") (Js.VString (Js.str "aicoding.db"))
    (Js.str "/data") = Some (Js.str "/data/aicoding.db")
  /\ SecurityUtilsRest.validatePath (Js.str "/srv/app")
       (Js.VString (Js.str "../../../etc/passwd")) (Js.str "/data") = None
  /\ SecurityUtilsRest.validatePath (Js.str "/srv/app")
       (Js.VString (Js.str "../data-old/x.db")) (Js.str "/data")
     = Some (Js.str "/data-old/x.db")
  /\ SecurityUtilsRest.validatePath (Js.str "/srv/app") (Js.VString []) (Js.str "/data") = None
  /\ SecurityUtilsRest.validatePath (Js.str "/srv/app") Js.VNull (Js.str "/data") = None.
Proof. repeat split; vm_compute; reflexivity. Qed.

Example resolve_samples :
  NodePath.resolve (Js.str "/srv/app") [Js.str "a//b/./c/../d/"] = Js.str "/srv/app/a/b/d"
  /\ NodePath.resolve (Js.str "/srv/app") [Js.str "/x"; Js.str "../../y"] = Js.str "/y"
  /\ NodePath.resolve (Js.str "/srv/app") [Js.str "/"] = Js.str "/"
  /\ NodePath.resolve (Js.str "/srv/app") [Js.str ""; Js.str ""] = Js.str "/srv/app".
Proof. repeat split; vm_compute; reflexivity. Qed.

(* ===================================================================== *)
(** * Input sanitisation *)
(* ===================================================================== *)

Section SanitizeFacts.
Import Js SecurityUtilsRest.

(** The five steps of the function, in the order the source takes them. *)
Lemma sanitizeInput_string (s : jsstring) (options : sanitize_options) :
  sanitizeInput (VString s) options
  = html_stage options (sql_stage options
      (remove_control options (truncate options (remove_nul s)))).
Proof. reflexivity. Qed.

Lemma filter_sublist {A : Type} (f : A -> bool) (l : list A) : sublist (List.filter f l) l.
Proof.
  induction l as [|x l IH]; cbn [List.filter]; [constructor|].
  destruct (f x); [apply sublist_skip | apply sublist_cons]; exact IH.
Qed.

Lemma filter_id {A : Type} (f : A -> bool) (l : list A) :
  List.Forall (fun x => f x = true) l -> List.filter f l = l.
Proof.
  induction 1 as [|x l Hx _ IH]; cbn [List.filter]; [reflexivity|]. rewrite Hx, IH. reflexivity.
Qed.

Lemma Forall_filter_both {A : Type} (P : A -> Prop) (f : A -> bool) (l : list A) :
  List.Forall P l -> List.Forall (fun x => P x /\ f x = true) (List.filter f l).
Proof.
  induction 1 as [|x l Hx _ IH]; cbn [List.filter]; [constructor|].
  destruct (f x) eqn:Hf; [constructor; auto | exact IH].
Qed.

Lemma Forall_flat_map_image {A B : Type} (P : A -> Prop) (Q : B -> Prop) (f : A -> list B)
    (l : list A) :
  (forall x, P x -> List.Forall Q (f x)) -> List.Forall P l -> List.Forall Q (List.flat_map f l).
Proof.
  intros Hf. induction 1 as [|x l Hx _ IH]; cbn [List.flat_map]; [constructor|].
  apply List.Forall_app. auto.
Qed.

Lemma truncate_length (options : sanitize_options) (s : jsstring) :
  Z.of_nat (List.length (truncate options s)) <= Z.max 0 (effective_maxLength options).
Proof.
  unfold truncate. destruct (Z.gtb_spec (Z.of_nat (List.length s)) (effective_maxLength options)).
  - rewrite List.length_firstn. lia.
  - lia.
Qed.

Lemma truncate_short (options : sanitize_options) (s : jsstring) :
  Z.of_nat (List.length s) <= Z.max 0 (effective_maxLength options) ->
  truncate options s = s.
Proof.
  intros H. unfold truncate.
  destruct (Z.gtb_spec (Z.of_nat (List.length s)) (effective_maxLength options)); [|reflexivity].
  assert (List.length s = 0%nat) by lia. destruct s; [|discriminate].
  apply List.firstn_nil.
Qed.

Lemma html_escape_safe (c : Z) :
  List.Forall (fun d => d <> 60 /\ d <> 62 /\ d <> 34 /\ d <> 39) (html_escape c).
Proof.
  unfold html_escape.
  destruct (Z.eqb_spec c 38); [repeat constructor; discriminate|].
  destruct (Z.eqb_spec c 60); [repeat constructor; discriminate|].
  destruct (Z.eqb_spec c 62); [repeat constructor; discriminate|].
  destruct (Z.eqb_spec c 34); [repeat constructor; discriminate|].
  destruct (Z.eqb_spec c 39); [repeat constructor; discriminate|].
  repeat constructor; assumption.
Qed.

(** Neither escape writes a character that the earlier steps remove. *)
Lemma escapes_keep_clean (P : Z -> Prop) (options : sanitize_options) (s : jsstring) :
  (forall c, List.In c (str "\&amp;lt;gt;quot;#39") -> P c) ->
  List.Forall P s -> List.Forall P (html_stage options (sql_stage options s)).
Proof.
  intros Hconst Hs. unfold html_stage, sql_stage.
  assert (Hsql : List.Forall P
            (if escapeSql options
             then List.flat_map (fun c => if is_sql_special c then [92; c] else [c]) s else s)).
  { destruct (escapeSql options); [|exact Hs].
    eapply Forall_flat_map_image; [|exact Hs]. intros c Hc.
    destruct (is_sql_special c); repeat constructor; trivial.
    apply Hconst. vm_compute. tauto. }
  destruct (escapeHtml options); [|exact Hsql].
  eapply Forall_flat_map_image; [|exact Hsql]. intros c Hc. unfold html_escape.
  repeat (destruct (_ =? _);
          [apply List.Forall_forall; intros d Hd; apply Hconst;
           revert Hd; vm_compute; tauto|]).
  repeat constructor. exact Hc.
Qed.

Lemma sql_escaped_flat_map (s : jsstring) :
  sql_escaped (List.flat_map (fun c => if is_sql_special c then [92; c] else [c]) s) = true.
Proof.
  induction s as [|c s IH]; [reflexivity|]. cbn [List.flat_map].
  destruct (is_sql_special c) eqn:Hc; cbn [List.app sql_escaped].
  - rewrite Hc, IH. reflexivity.
  - destruct (Z.eqb_spec c 92) as [->|_]; [discriminate Hc|]. rewrite Hc, IH. reflexivity.
Qed.

End SanitizeFacts.

(** X7. Whatever the options, the string returned by [sanitizeInput] holds
    no NUL character and, unless [allowControlChars] is set, no control
    character of the class the function removes; an input that is not a
    string gives the empty string. *)
Theorem sanitizeInput_clean (input : Js.value) (options : SecurityUtilsRest.sanitize_options) :
  List.Forall
    (fun c => c <> 0 /\
              (SecurityUtilsRest.allowControlChars options = false ->
               SecurityUtilsRest.is_control_char c = false))
    (SecurityUtilsRest.sanitizeInput input options)
  /\ (Js.typeof input <> Js.TString -> SecurityUtilsRest.sanitizeInput input options = []).
Proof.
  split.
  - destruct input as [| |b|n|s|f]; try constructor.
    rewrite sanitizeInput_string. apply escapes_keep_clean.
    + intros c Hc. split.
      * intros ->. revert Hc. vm_compute. intuition discriminate.
      * intros _. revert Hc. vm_compute. intuition (subst; reflexivity).
    + unfold SecurityUtilsRest.remove_control, SecurityUtilsRest.truncate,
        SecurityUtilsRest.remove_nul.
      assert (Hnul : List.Forall (fun c => c <> 0)
                (List.filter (fun c => negb (c =? 0)) s)).
      { apply List.Forall_forall. intros c Hc. apply List.filter_In in Hc as [_ Hc].
        apply negb_true_iff, Z.eqb_neq in Hc. exact Hc. }
      assert (Htr : List.Forall (fun c => c <> 0)
                (if Z.of_nat (List.length (List.filter (fun c => negb (c =? 0)) s))
                    >? SecurityUtilsRest.effective_maxLength options
                 then firstn (Z.to_nat (SecurityUtilsRest.effective_maxLength options))
                        (List.filter (fun c => negb (c =? 0)) s)
                 else List.filter (fun c => negb (c =? 0)) s)).
      { destruct (_ >? _); [apply Forall_take|]; exact Hnul. }
      destruct (SecurityUtilsRest.allowControlChars options); cbn [negb].
      * eapply List.Forall_impl; [|exact Htr]. intros c Hc. split; [exact Hc | discriminate].
      * eapply List.Forall_impl; [|apply (Forall_filter_both _ _ _ Htr)].
        intros c [Hc Hctl]. split; [exact Hc|]. intros _.
        apply negb_true_iff in Hctl. exact Hctl.
  - intros Ht. destruct input; try reflexivity. exfalso. apply Ht. reflexivity.
Qed.

(** X8. Without the two escape options [sanitizeInput] only deletes
    characters: the result is a subsequence of the input of at most
    [maxLength] characters (1000 when [maxLength] is absent or 0), and
    sanitising it again changes nothing. *)
Theorem sanitizeInput_plain (s : Js.jsstring) (options : SecurityUtilsRest.sanitize_options) :
  SecurityUtilsRest.escapeSql options = false ->
  SecurityUtilsRest.escapeHtml options = false ->
  let out := SecurityUtilsRest.sanitizeInput (Js.VString s) options in
  sublist out s /\
  Z.of_nat (List.length out) <= Z.max 0 (SecurityUtilsRest.effective_maxLength options) /\
  SecurityUtilsRest.sanitizeInput (Js.VString out) options = out.
Proof.
  intros Hsql Hhtml out. subst out. rewrite !sanitizeInput_string.
  unfold SecurityUtilsRest.html_stage, SecurityUtilsRest.sql_stage. rewrite Hsql, Hhtml.
  set (t := SecurityUtilsRest.truncate options (SecurityUtilsRest.remove_nul s)).
  assert (Hsub_t : sublist t s).
  { unfold t, SecurityUtilsRest.truncate.
    destruct (_ >? _); [etransitivity; [apply sublist_take|]|]; apply filter_sublist. }
  assert (Hsub : sublist (SecurityUtilsRest.remove_control options t) t).
  { unfold SecurityUtilsRest.remove_control.
    destruct (negb _); [apply filter_sublist | reflexivity]. }
  assert (Hlen : Z.of_nat (List.length (SecurityUtilsRest.remove_control options t))
                 <= Z.max 0 (SecurityUtilsRest.effective_maxLength options)).
  { pose proof (truncate_length options (SecurityUtilsRest.remove_nul s)) as Ht. fold t in Ht.
    apply sublist_length in Hsub. lia. }
  split; [etransitivity; eassumption|]. split; [exact Hlen|].
  assert (Hnul : SecurityUtilsRest.remove_nul (SecurityUtilsRest.remove_control options t)
                 = SecurityUtilsRest.remove_control options t).
  { apply filter_id. apply List.Forall_forall. intros c Hc.
    assert (Hin : List.In c (SecurityUtilsRest.remove_nul s)).
    { apply (proj1 (list_elem_of_In _ _)).
      eapply elem_of_sublist; [apply list_elem_of_In; exact Hc|].
      etransitivity; [exact Hsub|]. unfold t, SecurityUtilsRest.truncate.
      destruct (_ >? _); [apply sublist_take | reflexivity]. }
    apply List.filter_In in Hin as [_ Hin]. exact Hin. }
  rewrite Hnul, (truncate_short options _ Hlen).
  unfold SecurityUtilsRest.remove_control. destruct (negb _); [|reflexivity].
  apply filter_id. apply List.Forall_forall. intros c Hc.
  apply List.filter_In in Hc as [_ Hc]. exact Hc.
Qed.

Lemma sanitizeInput_plain_witness :
  SecurityUtilsRest.escapeSql SecurityUtilsRest.no_options = false
  /\ SecurityUtilsRest.escapeHtml SecurityUtilsRest.no_options = false
  /\ SecurityUtilsRest.sanitizeInput (Js.VString (Js.str "test" ++ 0 :: Js.str "null" ++ [7; 10]))
       SecurityUtilsRest.no_options = Js.str "testnull" ++ [10]
  /\ SecurityUtilsRest.sanitizeInput (Js.VString (Js.str "testnull" ++ [10]))
       SecurityUtilsRest.no_options = Js.str "testnull" ++ [10].
Proof.
  split; [reflexivity|]. split; [reflexivity|].
  assert (Hout : SecurityUtilsRest.sanitizeInput
                   (Js.VString (Js.str "test" ++ 0 :: Js.str "null" ++ [7; 10]))
                   SecurityUtilsRest.no_options = Js.str "testnull" ++ [10])
    by (vm_compute; reflexivity).
  split; [exact Hout|].
  pose proof (sanitizeInput_plain (Js.str "test" ++ 0 :: Js.str "null" ++ [7; 10])
                SecurityUtilsRest.no_options eq_refl eq_refl) as (_ & _ & Hidem).
  rewrite Hout in Hidem. exact Hidem.
Defined.

(** X9. With [escapeHtml] set, the result holds none of the characters
    less-than, greater-than, double quote and single quote, whatever the
    input and the other options. *)
Theorem sanitizeInput_escapeHtml (input : Js.value) (options : SecurityUtilsRest.sanitize_options) :
  SecurityUtilsRest.escapeHtml options = true ->
  List.Forall (fun c => c <> 60 /\ c <> 62 /\ c <> 34 /\ c <> 39)
    (SecurityUtilsRest.sanitizeInput input options).
Proof.
  intros Hhtml. destruct input as [| |b|n|s|f]; try constructor.
  rewrite sanitizeInput_string. unfold SecurityUtilsRest.html_stage at 1. rewrite Hhtml.
  apply (Forall_flat_map_image (fun _ => True)).
  - intros c _. apply html_escape_safe.
  - apply List.Forall_forall. trivial.
Qed.

Lemma sanitizeInput_escapeHtml_witness :
  SecurityUtilsRest.sanitizeInput (Js.VString (Js.str "<div onclick='alert(1)'>Click me</div>"))
    {| SecurityUtilsRest.maxLength := None; SecurityUtilsRest.allowControlChars := false;
       SecurityUtilsRest.escapeSql := false; SecurityUtilsRest.escapeHtml := true |}
  = Js.str "&lt;div onclick=&#39;alert(1)&#39;&gt;Click me&lt;/div&gt;"
  /\ List.Forall (fun c => c <> 60 /\ c <> 62 /\ c <> 34 /\ c <> 39)
       (Js.str "&lt;div onclick=&#39;alert(1)&#39;&gt;Click me&lt;/div&gt;").
Proof.
  assert (Hout : SecurityUtilsRest.sanitizeInput
            (Js.VString (Js.str "<div onclick='alert(1)'>Click me</div>"))
            {| SecurityUtilsRest.maxLength := None; SecurityUtilsRest.allowControlChars := false;
               SecurityUtilsRest.escapeSql := false; SecurityUtilsRest.escapeHtml := true |}
          = Js.str "&lt;div onclick=&#39;alert(1)&#39;&gt;Click me&lt;/div&gt;")
    by (vm_compute; reflexivity).
  split; [exact Hout|]. rewrite <- Hout. apply sanitizeInput_escapeHtml. reflexivity.
Defined.

(** X10. With [escapeSql] set and [escapeHtml] not, every single quote,
    double quote, semicolon and backslash of the result is the second
    character of a pair that a backslash starts. *)
Theorem sanitizeInput_escapeSql (input : Js.value) (options : SecurityUtilsRest.sanitize_options) :
  SecurityUtilsRest.escapeSql options = true ->
  SecurityUtilsRest.escapeHtml options = false ->
  SecurityUtilsRest.sql_escaped (SecurityUtilsRest.sanitizeInput input options) = true.
Proof.
  intros Hsql Hhtml. destruct input as [| |b|n|s|f]; try reflexivity.
  rewrite sanitizeInput_string.
  unfold SecurityUtilsRest.html_stage, SecurityUtilsRest.sql_stage. rewrite Hsql, Hhtml.
  apply sql_escaped_flat_map.
Qed.

Lemma sanitizeInput_escapeSql_witness :
  SecurityUtilsRest.sanitizeInput (Js.VString (Js.str "'; DROP TABLE users; --"))
    {| SecurityUtilsRest.maxLength := Some 50; SecurityUtilsRest.allowControlChars := false;
       SecurityUtilsRest.escapeSql := true; SecurityUtilsRest.escapeHtml := false |}
  = Js.str "\'\; DROP TABLE users\; --"
  /\ SecurityUtilsRest.sql_escaped (Js.str "\'\; DROP TABLE users\; --") = true.
Proof.
  assert (Hout : SecurityUtilsRest.sanitizeInput (Js.VString (Js.str "'; DROP TABLE users; --"))
            {| SecurityUtilsRest.maxLength := Some 50; SecurityUtilsRest.allowControlChars := false;
               SecurityUtilsRest.escapeSql := true; SecurityUtilsRest.escapeHtml := false |}
          = Js.str "\'\; DROP TABLE users\; --") by (vm_compute; reflexivity).
  split; [exact Hout|]. rewrite <- Hout. apply sanitizeInput_escapeSql; reflexivity.
Defined.

(** The length is limited before the escapes are written, and the HTML
    entities bring semicolons that the SQL escape has not seen. *)
Example sanitizeInput_escape_order :
  SecurityUtilsRest.sanitizeInput (Js.VString (Js.str "<<<<"))
    {| SecurityUtilsRest.maxLength := Some 3; SecurityUtilsRest.allowControlChars := false;
       SecurityUtilsRest.escapeSql := false; SecurityUtilsRest.escapeHtml := true |}
  = Js.str "&lt;&lt;&lt;"
  /\ SecurityUtilsRest.sanitizeInput (Js.VString (Js.str "a'b"))
       {| SecurityUtilsRest.maxLength := None; SecurityUtilsRest.allowControlChars := false;
          SecurityUtilsRest.escapeSql := true; SecurityUtilsRest.escapeHtml := true |}
     = Js.str "a\&#39;b"
  /\ SecurityUtilsRest.sql_escaped (Js.str "a\&#39;b") = false.
Proof. repeat split; vm_compute; reflexivity. Qed.

(* ===================================================================== *)
(** * Properties of [SecurityUtils.RateLimiter] *)
(* ===================================================================== *)

Section RateLimiterFacts.
Import Js RateLimiter.

Lemma recent_In (now span t : Z) (record : list Z) :
  In t (recent now span record) <-> In t record /\ now - t < span.
Proof.
  unfold recent. rewrite List.filter_In, Z.ltb_lt. reflexivity.
Qed.

Lemma recent_length (now span : Z) (record : list Z) :
  (List.length (recent now span record) <= List.length record)%nat.
Proof.
  unfold recent. induction record as [|t record IH]; simpl; [lia|].
  destruct (now - t <? span); simpl; lia.
Qed.

Lemma recent_recent (now now' span span' : Z) (record : list Z) :
  now <= now' -> span' <= span ->
  recent now' span' (recent now span record) = recent now' span' record.
Proof.
  intros Hnow Hspan. unfold recent.
  induction record as [|t record IH]; simpl; [reflexivity|].
  destruct (now - t <? span) eqn:E1; simpl; rewrite IH; [reflexivity|].
  destruct (now' - t <? span') eqn:E2; [|reflexivity].
  apply Z.ltb_lt in E2. apply Z.ltb_ge in E1. lia.
Qed.

Lemma calculateLockoutTime_ge (l : limiter) (n : Z) :
  0 <= windowMs l -> (1 <= backoffMultiplier l)%Q ->
  (inject_Z (windowMs l) <= calculateLockoutTime l n)%Q.
Proof.
  intros Hw Hm. unfold calculateLockoutTime.
  assert (Hp : (1 <= backoffMultiplier l ^ Z.max 0 (n - maxAttempts l))%Q)
    by (apply Qpower_1_le; [exact Hm | lia]).
  apply Qle_trans with (1 * inject_Z (windowMs l))%Q;
    [rewrite Qmult_1_l; apply Qle_refl|].
  rewrite (Qmult_comm (inject_Z (windowMs l))).
  apply Qmult_le_compat_r; [exact Hp|].
  rewrite <- (Zle_Qle 0). exact Hw.
Qed.

Lemma calculateLockoutTime_base (l : limiter) (n : Z) :
  n <= maxAttempts l ->
  (calculateLockoutTime l n == inject_Z (windowMs l))%Q.
Proof.
  intros Hn. unfold calculateLockoutTime.
  replace (Z.max 0 (n - maxAttempts l)) with 0 by lia.
  simpl. apply Qmult_1_r.
Qed.

Lemma Qle_bool_false (x y : Q) : Qle_bool x y = false <-> (y < x)%Q.
Proof.
  split.
  - intros H. apply Qnot_le_lt. intros Hle.
    apply Qle_bool_iff in Hle. congruence.
  - intros H. destruct (Qle_bool x y) eqn:E; [|reflexivity].
    apply Qle_bool_iff in E. exfalso. exact (Qlt_not_le _ _ H E).
Qed.

(** With at least [maxAttempts] attempts in the window the oldest of them
    is younger than the lockout, whatever the back-off. *)
Lemma lockout_pending (now oldest : Z) (rest : list Z) (l : limiter) :
  0 <= windowMs l -> (1 <= backoffMultiplier l)%Q ->
  now - oldest < windowMs l ->
  Qle_bool (inject_Z oldest
            + calculateLockoutTime l (Z.of_nat (List.length (oldest :: rest)))
            - inject_Z now) 0 = false.
Proof.
  intros Hw Hm Hold. apply Qle_bool_false.
  pose proof (calculateLockoutTime_ge l (Z.of_nat (List.length (oldest :: rest))) Hw Hm)
    as Hge.
  assert (Hq : (inject_Z now - inject_Z oldest < inject_Z (windowMs l))%Q).
  { unfold Qminus. rewrite <- inject_Z_opp, <- inject_Z_plus, <- Zlt_Qlt. lia. }
  set (c := calculateLockoutTime l _) in *.
  apply (Qplus_lt_l _ _ (inject_Z now - inject_Z oldest)%Q).
  assert (Hc : (inject_Z oldest + c - inject_Z now + (inject_Z now - inject_Z oldest)
                == c)%Q) by ring.
  rewrite Hc, Qplus_0_l.
  eapply Qlt_le_trans; [exact Hq | exact Hge].
Qed.

Lemma check_absent (now : Z) (identifier : list Z) (l : limiter) :
  attempts l !! identifier = None ->
  check now identifier l =
    ({| limited := false; remainingAttempts := maxAttempts l;
        resetTime := None; retryAfter := None |}, l).
Proof. intros H. unfold check. rewrite H. reflexivity. Qed.

Lemma in_window_hd (now oldest : Z) (rest record : list Z) (span : Z) :
  recent now span record = oldest :: rest -> now - oldest < span.
Proof.
  intros H.
  assert (Hin : In oldest (recent now span record)) by (rewrite H; left; reflexivity).
  apply recent_In in Hin. tauto.
Qed.

(** ** X11 *)

(** X11. With a positive [maxAttempts], a window that is not negative and a
    back-off multiplier of at least one, [check] reports an identifier as
    limited exactly when at least [maxAttempts] of its recorded attempts
    are younger than the window; the remaining attempts it reports are
    [maxAttempts] less that number and never below zero; and a limited
    answer asks to retry after at least one second. *)
Theorem check_limited_iff (now : Z) (identifier : list Z) (l : limiter) :
  well_configured l ->
  let s := fst (check now identifier l) in
  let n := Z.of_nat (List.length (in_window now identifier l)) in
  (limited s = true <-> maxAttempts l <= n) /\
  remainingAttempts s = Z.max 0 (maxAttempts l - n) /\
  (limited s = true -> exists r, retryAfter s = Some r /\ 1 <= r).
Proof.
  intros (Hmax & Hw & Hm). unfold in_window, check.
  destruct (attempts l !! identifier) as [record|] eqn:E; cbn zeta.
  2:{ simpl. split; [split; [discriminate | lia]|]. split; [lia | discriminate]. }
  destruct (Z.of_nat (List.length (recent now (windowMs l) record)) >=? maxAttempts l)
    eqn:Ege.
  - apply Z.geb_le in Ege.
    destruct (recent now (windowMs l) record) as [|oldest rest] eqn:Er;
      [simpl in Ege; lia|].
    pose proof (in_window_hd _ _ _ _ _ Er) as Hold.
    pose proof (lockout_pending now oldest rest l Hw Hm Hold) as Hp.
    rewrite Hp. simpl negb. cbv iota. cbn [fst limited remainingAttempts retryAfter].
    split; [split; [intros _; exact Ege | reflexivity]|].
    split; [lia|]. intros _. eexists. split; [reflexivity|].
    apply Qle_bool_false in Hp.
    set (t := (inject_Z oldest + calculateLockoutTime l _ - inject_Z now)%Q) in *.
    assert (H0 : (0 < t / 1000)%Q).
    { apply Qlt_shift_div_l; [reflexivity|]. rewrite Qmult_0_l. exact Hp. }
    pose proof (Qle_ceiling (t / 1000)%Q) as Hc.
    assert (Hz : (inject_Z 0 < inject_Z (Qceiling (t / 1000)))%Q)
      by (eapply Qlt_le_trans; [exact H0 | exact Hc]).
    rewrite <- Zlt_Qlt in Hz. lia.
  - assert (Hlt : Z.of_nat (List.length (recent now (windowMs l) record)) < maxAttempts l).
    { destruct (Z.geb_spec (Z.of_nat (List.length (recent now (windowMs l) record)))
                  (maxAttempts l)); [discriminate | lia]. }
    cbn [fst limited remainingAttempts retryAfter].
    split; [split; [discriminate | lia]|]. split; [lia | discriminate].
Qed.

Lemma check_limited_iff_witness :
  let l := with_attempts
             (new {| opt_maxAttempts := Some 3; opt_windowMs := Some 5000;
                     opt_backoffMultiplier := None |})
             (<[ [49] := [1000; 1001; 1002] ]> ∅) in
  well_configured l /\
  let s := fst (check 1003 [49] l) in
  let n := Z.of_nat (List.length (in_window 1003 [49] l)) in
  (limited s = true <-> maxAttempts l <= n) /\
  remainingAttempts s = Z.max 0 (maxAttempts l - n) /\
  (limited s = true -> exists r, retryAfter s = Some r /\ 1 <= r).
Proof.
  assert (H : well_configured
                (with_attempts
                   (new {| opt_maxAttempts := Some 3; opt_windowMs := Some 5000;
                           opt_backoffMultiplier := None |})
                   (<[ [49] := [1000; 1001; 1002] ]> ∅))).
  { unfold well_configured. simpl. split; [lia|]. split; [lia|]. discriminate. }
  split; [exact H|].
  exact (check_limited_iff 1003 [49] _ H).
Defined.


(** The answer of [check] depends on the settings and on the attempts in
    the window only. *)
Lemma check_fst_in_window (now : Z) (identifier identifier' : list Z) (l l' : limiter) :
  maxAttempts l = maxAttempts l' -> windowMs l = windowMs l' ->
  backoffMultiplier l = backoffMultiplier l' ->
  in_window now identifier l = in_window now identifier' l' ->
  fst (check now identifier l) = fst (check now identifier' l').
Proof.
  intros Hmax Hw Hm. unfold in_window, check, calculateLockoutTime.
  rewrite <- Hmax, <- Hw, <- Hm.
  destruct (attempts l !! identifier) as [record|],
           (attempts l' !! identifier') as [record'|]; cbn zeta; intros Hin.
  - rewrite <- Hin.
    destruct (Z.of_nat (List.length (recent now (windowMs l) record)) >=? maxAttempts l);
      [|reflexivity].
    destruct (recent now (windowMs l) record) as [|oldest rest]; [reflexivity|].
    destruct (negb _); reflexivity.
  - rewrite Hin. simpl. rewrite Z.sub_0_r.
    destruct (_ >=? _); reflexivity.
  - rewrite <- Hin. simpl. rewrite Z.sub_0_r.
    destruct (_ >=? _); reflexivity.
  - reflexivity.
Qed.

Lemma in_window_cleanup (now now' : Z) (identifier : list Z) (l : limiter) :
  now <= now' -> 0 <= windowMs l ->
  in_window now' identifier (cleanup now l) = in_window now' identifier l.
Proof.
  intros Hnow Hw. unfold in_window, cleanup. cbn [attempts windowMs with_attempts].
  rewrite lookup_omap.
  destruct (attempts l !! identifier) as [record|]; simpl; [|reflexivity].
  assert (Hrr : recent now' (windowMs l) (recent now (windowMs l * 2) record)
                = recent now' (windowMs l) record)
    by (apply recent_recent; lia).
  destruct (recent now (windowMs l * 2) record) as [|t kept]; simpl.
  - exact Hrr.
  - exact Hrr.
Qed.

(** ** X12 *)

(** X12. A clean-up never changes what [check] answers afterwards: when the
    window is not negative and the clock does not go back, [check] gives
    for every identifier the answer it would have given without the
    clean-up, although the clean-up drops attempts and whole records. *)
Theorem cleanup_keeps_check (now now' : Z) (identifier : list Z) (l : limiter) :
  now <= now' -> 0 <= windowMs l ->
  fst (check now' identifier (cleanup now l)) = fst (check now' identifier l).
Proof.
  intros Hnow Hw.
  apply check_fst_in_window; try reflexivity.
  apply in_window_cleanup; assumption.
Qed.

Lemma cleanup_keeps_check_witness :
  let l := with_attempts
             (new {| opt_maxAttempts := Some 2; opt_windowMs := Some 1000;
                     opt_backoffMultiplier := None |})
             (<[ [49] := [100; 2500; 2600] ]> (<[ [50] := [100] ]> ∅)) in
  (3000 <= 3200 /\ 0 <= windowMs l) /\
  attempts (cleanup 3000 l) !! [50] = None /\
  attempts (cleanup 3000 l) !! [49] = Some [2500; 2600] /\
  fst (check 3200 [49] (cleanup 3000 l)) = fst (check 3200 [49] l).
Proof.
  split; [split; [lia | simpl; lia]|].
  split; [reflexivity|]. split; [reflexivity|].
  apply (cleanup_keeps_check 3000 3200 [49]); simpl; lia.
Defined.

Lemma in_window_recordAttempt_other (now now' later : Z) (random : Q)
    (identifier other : list Z) (l : limiter) :
  identifier <> other -> later <= now' -> 0 <= windowMs l ->
  in_window now' other (recordAttempt now random later identifier l)
  = in_window now' other l.
Proof.
  intros Hne Hlater Hw. unfold recordAttempt.
  set (l' := with_attempts l _).
  assert (Hl' : in_window now' other l' = in_window now' other l).
  { unfold in_window, l'. cbn [attempts windowMs with_attempts].
    rewrite lookup_insert_ne by exact Hne. reflexivity. }
  destruct (negb _); [|exact Hl'].
  rewrite in_window_cleanup by assumption. exact Hl'.
Qed.

Lemma recordAttempt_settings (now later : Z) (random : Q) (identifier : list Z)
    (l : limiter) :
  maxAttempts (recordAttempt now random later identifier l) = maxAttempts l /\
  windowMs (recordAttempt now random later identifier l) = windowMs l /\
  backoffMultiplier (recordAttempt now random later identifier l) = backoffMultiplier l.
Proof. unfold recordAttempt. destruct (negb _); repeat split. Qed.

(** ** X13 *)

(** X13. Recording an attempt of one identifier leaves the answer of
    [check] for every other identifier as it was, whether or not the
    recording starts a clean-up, provided the window is not negative and
    the later check does not read an earlier time than the clean-up. *)
Theorem recordAttempt_isolated (now now' later : Z) (random : Q)
    (identifier other : list Z) (l : limiter) :
  identifier <> other -> later <= now' -> 0 <= windowMs l ->
  fst (check now' other (recordAttempt now random later identifier l))
  = fst (check now' other l).
Proof.
  intros Hne Hlater Hw.
  destruct (recordAttempt_settings now later random identifier l) as (H1 & H2 & H3).
  apply check_fst_in_window; try assumption.
  apply in_window_recordAttempt_other; assumption.
Qed.

Lemma recordAttempt_isolated_witness :
  let l := with_attempts
             (new {| opt_maxAttempts := Some 2; opt_windowMs := Some 1000;
                     opt_backoffMultiplier := None |})
             (<[ [50] := [100; 2500; 2600] ]> ∅) in
  ([49] <> [50] /\ 2700 <= 2800 /\ 0 <= windowMs l) /\
  fst (check 2800 [50] (recordAttempt 2700 0 2700 [49] l)) = fst (check 2800 [50] l).
Proof.
  split; [split; [discriminate | split; [lia | simpl; lia]]|].
  apply (recordAttempt_isolated 2700 2800 2700 0 [49] [50]);
    [discriminate | lia | simpl; lia].
Defined.

(** ** X14 *)

(** X14. A recorded attempt counts: the attempts of the identifier that a
    later [check] finds in the window are those it would have found
    before, followed by the new one, as long as the new one is itself
    younger than the window then. Nothing else is added or lost, with or
    without the clean-up. *)
Theorem recordAttempt_counts (now now' later : Z) (random : Q)
    (identifier : list Z) (l : limiter) :
  later <= now' -> 0 <= windowMs l -> now' - now < windowMs l ->
  in_window now' identifier (recordAttempt now random later identifier l)
  = in_window now' identifier l ++ [now].
Proof.
  intros Hlater Hw Hnew. unfold recordAttempt.
  set (l' := with_attempts l _).
  assert (Hl' : in_window now' identifier l' = in_window now' identifier l ++ [now]).
  { unfold in_window, l'. cbn [attempts windowMs with_attempts].
    rewrite lookup_insert_eq. unfold recent. rewrite List.filter_app. simpl.
    apply Z.ltb_lt in Hnew. rewrite Hnew.
    destruct (attempts l !! identifier); reflexivity. }
  destruct (negb _); [|exact Hl'].
  rewrite in_window_cleanup by assumption. exact Hl'.
Qed.

Lemma recordAttempt_counts_witness :
  let l := with_attempts
             (new {| opt_maxAttempts := Some 2; opt_windowMs := Some 1000;
                     opt_backoffMultiplier := None |})
             (<[ [49] := [100; 2500] ]> ∅) in
  (2700 <= 2800 /\ 0 <= windowMs l /\ 2800 - 2600 < windowMs l) /\
  in_window 2800 [49] (recordAttempt 2600 0 2700 [49] l) = [2500; 2600].
Proof.
  split; [simpl; lia|].
  apply (recordAttempt_counts 2600 2800 2700 0 [49]); simpl; lia.
Defined.

Lemma reset_settings (identifier : list Z) (l : limiter) :
  maxAttempts (reset identifier l) = maxAttempts l /\
  windowMs (reset identifier l) = windowMs l /\
  backoffMultiplier (reset identifier l) = backoffMultiplier l.
Proof. repeat split. Qed.

(** ** X15 *)

(** X15. [reset] forgives one identifier and no other: after it [check]
    reports the identifier as not limited with all [maxAttempts] attempts
    remaining, and answers for every other identifier as before. *)
Theorem reset_forgives (now : Z) (identifier other : list Z) (l : limiter) :
  fst (check now identifier (reset identifier l))
  = {| limited := false; remainingAttempts := maxAttempts l;
       resetTime := None; retryAfter := None |} /\
  (identifier <> other ->
   fst (check now other (reset identifier l)) = fst (check now other l)).
Proof.
  split.
  - rewrite check_absent; [reflexivity|].
    unfold reset. cbn [attempts with_attempts]. apply lookup_delete_eq.
  - intros Hne. apply check_fst_in_window; try reflexivity.
    unfold in_window, reset. cbn [attempts windowMs with_attempts].
    rewrite lookup_delete_ne by exact Hne. reflexivity.
Qed.

Lemma check_open_count (now : Z) (identifier : list Z) (l : limiter) :
  well_configured l ->
  limited (fst (check now identifier l)) = false ->
  Z.of_nat (List.length (in_window now identifier l)) < maxAttempts l.
Proof.
  intros (Hmax & Hw & Hm). unfold in_window, check.
  destruct (attempts l !! identifier) as [record|] eqn:E; cbn zeta; [|simpl; lia].
  destruct (Z.geb_spec (Z.of_nat (List.length (recent now (windowMs l) record)))
              (maxAttempts l)) as [Hge|Hlt]; [|intros _; lia].
  destruct (recent now (windowMs l) record) as [|oldest rest] eqn:Er;
    [simpl in Hge; lia|].
  pose proof (in_window_hd _ _ _ _ _ Er) as Hold.
  rewrite (lockout_pending now oldest rest l Hw Hm Hold). simpl. discriminate.
Qed.

Lemma check_attempts (now : Z) (identifier : list Z) (l : limiter) :
  attempts (snd (check now identifier l))
  = match attempts l !! identifier with
    | Some record => <[identifier := recent now (windowMs l) record]> (attempts l)
    | None => attempts l
    end.
Proof.
  unfold check. destruct (attempts l !! identifier) as [record|]; [|reflexivity].
  cbn zeta.
  destruct (_ >=? _); [|reflexivity].
  destruct (recent now (windowMs l) record); [reflexivity|].
  destruct (negb _); reflexivity.
Qed.

Lemma check_settings (now : Z) (identifier : list Z) (l : limiter) :
  maxAttempts (snd (check now identifier l)) = maxAttempts l /\
  windowMs (snd (check now identifier l)) = windowMs l /\
  backoffMultiplier (snd (check now identifier l)) = backoffMultiplier l.
Proof.
  unfold check. destruct (attempts l !! identifier) as [record|]; [|repeat split].
  cbn zeta.
  destruct (_ >=? _); [|repeat split].
  destruct (recent now (windowMs l) record); [repeat split|].
  destruct (negb _); repeat split.
Qed.

Lemma bounded_check (now : Z) (identifier : list Z) (l : limiter) :
  bounded l -> bounded (snd (check now identifier l)).
Proof.
  intros Hb. unfold bounded.
  destruct (check_settings now identifier l) as (Hmax & _). rewrite Hmax.
  rewrite check_attempts.
  destruct (attempts l !! identifier) as [record|] eqn:E; [|exact Hb].
  intros identifier' record' Hl.
  destruct (decide (identifier = identifier')) as [<-|Hne].
  - rewrite lookup_insert_eq in Hl. injection Hl as <-.
    pose proof (recent_length now (windowMs l) record).
    pose proof (Hb _ _ E). lia.
  - rewrite lookup_insert_ne in Hl by exact Hne. exact (Hb _ _ Hl).
Qed.

Lemma bounded_cleanup (now : Z) (l : limiter) : bounded l -> bounded (cleanup now l).
Proof.
  intros Hb identifier record. unfold cleanup. cbn [attempts maxAttempts with_attempts].
  rewrite lookup_omap.
  destruct (attempts l !! identifier) as [record0|] eqn:E; simpl; [|discriminate].
  destruct (Nat.eqb _ 0); [discriminate|].
  intros H. injection H as <-.
  pose proof (recent_length now (windowMs l * 2) record0).
  pose proof (Hb _ _ E). lia.
Qed.

Lemma bounded_recordAttempt (now later : Z) (random : Q) (identifier : list Z)
    (l : limiter) :
  bounded l ->
  Z.of_nat (List.length (match attempts l !! identifier with
                         | Some record => record
                         | None => []
                         end)) < maxAttempts l ->
  bounded (recordAttempt now random later identifier l).
Proof.
  intros Hb Hlen. unfold recordAttempt.
  set (l' := with_attempts l _).
  assert (Hb' : bounded l').
  { intros identifier' record'. unfold l'. cbn [attempts maxAttempts with_attempts].
    destruct (decide (identifier = identifier')) as [<-|Hne].
    - rewrite lookup_insert_eq. intros H. injection H as <-.
      rewrite List.length_app. simpl. lia.
    - rewrite lookup_insert_ne by exact Hne. apply Hb. }
  destruct (negb _); [apply bounded_cleanup|]; exact Hb'.
Qed.

(** ** X16 *)

(** X16. Used as in [test-security-improvements.js], where an attempt is
    recorded only after [check] has not reported a limit, a well
    configured limiter never holds more than [maxAttempts] attempts of
    any identifier: the bound is kept by every round, whatever the three
    clock readings and the random number are. *)
Theorem checked_attempt_bounded (now now' later : Z) (random : Q)
    (identifier : list Z) (l : limiter) :
  well_configured l -> bounded l ->
  bounded (snd (checked_attempt now now' random later identifier l)) /\
  well_configured (snd (checked_attempt now now' random later identifier l)).
Proof.
  intros Hwc Hb. unfold checked_attempt.
  pose proof (check_open_count now identifier l Hwc) as Hopen.
  pose proof (bounded_check now identifier l Hb) as Hb1.
  pose proof (check_attempts now identifier l) as Hatt.
  destruct (check_settings now identifier l) as (Hs1 & Hs2 & Hs3).
  destruct (check now identifier l) as [s l1]. cbn [fst snd] in *.
  assert (Hwc1 : well_configured l1)
    by (unfold well_configured; rewrite Hs1, Hs2, Hs3; exact Hwc).
  destruct (limited s) eqn:El; cbn [snd]; [split; assumption|].
  destruct (recordAttempt_settings now' later random identifier l1) as (Hr1 & Hr2 & Hr3).
  split; [|unfold well_configured; rewrite Hr1, Hr2, Hr3; exact Hwc1].
  apply bounded_recordAttempt; [exact Hb1|].
  specialize (Hopen eq_refl). rewrite Hs1. unfold in_window in Hopen. rewrite Hatt.
  destruct (attempts l !! identifier) as [record|] eqn:E.
  - rewrite lookup_insert_eq. exact Hopen.
  - rewrite E. exact Hopen.
Qed.

Lemma checked_attempt_bounded_witness :
  let l := new {| opt_maxAttempts := Some 3; opt_windowMs := Some 5000;
                  opt_backoffMultiplier := None |} in
  (well_configured l /\ bounded l) /\
  bounded (snd (checked_attempt 1000 1000 0 1001 [49] l)) /\
  well_configured (snd (checked_attempt 1000 1000 0 1001 [49] l)).
Proof.
  assert (Hwc : well_configured
                  (new {| opt_maxAttempts := Some 3; opt_windowMs := Some 5000;
                          opt_backoffMultiplier := None |})).
  { unfold well_configured. simpl. split; [lia|]. split; [lia|]. discriminate. }
  assert (Hb : bounded
                 (new {| opt_maxAttempts := Some 3; opt_windowMs := Some 5000;
                         opt_backoffMultiplier := None |})).
  { intros identifier record H. simpl in H. rewrite lookup_empty in H. discriminate H. }
  split; [split; assumption|].
  exact (checked_attempt_bounded 1000 1000 1001 0 [49] _ Hwc Hb).
Defined.

Lemma time_clip_comp (x y : Q) : (x == y)%Q -> time_clip x = time_clip y.
Proof.
  intros H. unfold time_clip.
  rewrite (Qleb_comp _ _ (Qabs_wd _ _ H) _ _ (Qeq_refl _)).
  rewrite (Qleb_comp _ _ (Qeq_refl 0) _ _ H).
  rewrite (Qfloor_comp _ _ H), (Qceiling_comp _ _ H). reflexivity.
Qed.

Lemma Qceiling_thousandth (a : Z) :
  Qceiling (inject_Z a / 1000) = (a + 999) / 1000.
Proof.
  unfold Qceiling, Qfloor, Qdiv, Qmult, Qinv, inject_Z. simpl.
  change (Z.pos (1 * 1000)) with 1000. rewrite Z.mul_1_r.
  pose proof (Z_div_mod_eq_full (- a) 1000).
  pose proof (Z.mod_pos_bound (- a) 1000 ltac:(lia)).
  apply (Z.div_unique _ _ _ (999 - (- a) mod 1000)); lia.
Qed.

(** ** X17 *)

(** X17. While no identifier has more than [maxAttempts] recorded attempts,
    the exponential back-off has no effect: a limited identifier is
    released exactly one window after the oldest of its attempts in the
    window, and is told to retry after the whole seconds that remain until
    then, rounded up. *)
Theorem bounded_lockout (now : Z) (identifier : list Z) (l : limiter) :
  bounded l ->
  limited (fst (check now identifier l)) = true ->
  exists oldest rest,
    in_window now identifier l = oldest :: rest /\
    resetTime (fst (check now identifier l))
      = Some (time_clip (inject_Z (oldest + windowMs l))) /\
    retryAfter (fst (check now identifier l))
      = Some ((oldest + windowMs l - now + 999) / 1000).
Proof.
  intros Hb. unfold in_window, check.
  destruct (attempts l !! identifier) as [record|] eqn:E; cbn zeta; [|discriminate].
  destruct (_ >=? _); [|discriminate].
  pose proof (recent_length now (windowMs l) record) as Hlen.
  destruct (recent now (windowMs l) record) as [|oldest rest]; [discriminate|].
  assert (Hbase : (calculateLockoutTime l (Z.of_nat (List.length (oldest :: rest)))
                   == inject_Z (windowMs l))%Q).
  { apply calculateLockoutTime_base. pose proof (Hb _ _ E). lia. }
  set (c := calculateLockoutTime l _) in *.
  destruct (negb _); [|discriminate].
  intros _. exists oldest, rest. split; [reflexivity|].
  cbn [fst resetTime retryAfter]. split; f_equal.
  - apply time_clip_comp. rewrite Hbase, inject_Z_plus. ring.
  - rewrite <- Qceiling_thousandth. apply Qceiling_comp.
    rewrite Hbase. unfold Zminus. rewrite !inject_Z_plus, inject_Z_opp. reflexivity.
Qed.

Lemma bounded_lockout_witness :
  let l := with_attempts
             (new {| opt_maxAttempts := Some 3; opt_windowMs := Some 5000;
                     opt_backoffMultiplier := None |})
             (<[ [49] := [1000; 1001; 1002] ]> ∅) in
  (bounded l /\ limited (fst (check 1003 [49] l)) = true) /\
  exists oldest rest,
    in_window 1003 [49] l = oldest :: rest /\
    resetTime (fst (check 1003 [49] l))
      = Some (time_clip (inject_Z (oldest + windowMs l))) /\
    retryAfter (fst (check 1003 [49] l))
      = Some ((oldest + windowMs l - 1003 + 999) / 1000).
Proof.
  assert (Hb : bounded
                 (with_attempts
                    (new {| opt_maxAttempts := Some 3; opt_windowMs := Some 5000;
                            opt_backoffMultiplier := None |})
                    (<[ [49] := [1000; 1001; 1002] ]> ∅))).
  { intros identifier record. cbn [attempts maxAttempts with_attempts new or_default].
    destruct (decide ([49] = identifier)) as [<-|Hne].
    - rewrite lookup_insert_eq. intros H. injection H as <-. simpl. lia.
    - rewrite lookup_insert_ne by exact Hne. rewrite lookup_empty. discriminate. }
  split; [split; [exact Hb | reflexivity]|].
  exact (bounded_lockout 1003 [49] _ Hb eq_refl).
Defined.

End RateLimiterFacts.

(* ===================================================================== *)
(** * Accounting: validation after usage, and the daily roll-up *)
(* ===================================================================== *)

Section AccountingFacts.
Import Js DatabaseService UsageHistory.


Lemma map_flat_map {A B C : Type} (g : B -> C) (f : A -> list B) (l : list A) :
  List.map g (List.flat_map f l) = List.flat_map (fun a => List.map g (f a)) l.
Proof.
  induction l as [|a l IH]; [reflexivity|].
  cbn [List.flat_map]. rewrite List.map_app, IH. reflexivity.
Qed.

Lemma flat_map_ext_in {A B : Type} (f g : A -> list B) (l : list A) :
  (forall a, List.In a l -> f a = g a) -> List.flat_map f l = List.flat_map g l.
Proof.
  induction l as [|a l IH]; intros H; [reflexivity|].
  cbn [List.flat_map]. rewrite (H a) by (left; reflexivity).
  rewrite IH; [reflexivity|]. intros x Hx. apply H. right. exact Hx.
Qed.

Lemma filter_map_credits (newBalance : Q) (userId uid : Z) (cs : list credit_row) :
  List.filter (fun c => uid =? c_user_id c)
    (List.map (fun c =>
       if c_user_id c =? userId
       then {| c_user_id := c_user_id c; c_balance := newBalance;
               c_daily_allocation := c_daily_allocation c;
               c_last_updated := c_last_updated c |}
       else c) cs)
  = List.map (fun c =>
       if c_user_id c =? userId
       then {| c_user_id := c_user_id c; c_balance := newBalance;
               c_daily_allocation := c_daily_allocation c;
               c_last_updated := c_last_updated c |}
       else c) (List.filter (fun c => uid =? c_user_id c) cs).
Proof.
  induction cs as [|c cs IH]; [reflexivity|]. cbn [List.map List.filter].
  assert (Hid : c_user_id (if c_user_id c =? userId
                           then {| c_user_id := c_user_id c; c_balance := newBalance;
                                   c_daily_allocation := c_daily_allocation c;
                                   c_last_updated := c_last_updated c |}
                           else c) = c_user_id c)
    by (destruct (c_user_id c =? userId); reflexivity).
  rewrite Hid. destruct (uid =? c_user_id c); cbn [List.map]; rewrite IH; reflexivity.
Qed.

Lemma left_join_map {A : Type} (g : A -> A) (l : list A) :
  left_join (List.map g l) = List.map (option_map g) (left_join l).
Proof.
  destruct l as [|a l]; [reflexivity|]. cbn [List.map left_join option_map].
  f_equal. rewrite !List.map_map. reflexivity.
Qed.

(** The rows of the query after [updateCreditsBalance]. *)
Lemma getTokenByHash_rows_update (newBalance : Q) (userId : Z) (d : database) (h : jsstring) :
  getTokenByHash_rows (updateCreditsBalance newBalance userId d) h
  = List.map (adjust newBalance userId) (getTokenByHash_rows d h).
Proof.
  unfold getTokenByHash_rows, updateCreditsBalance. cbn [tokens users credits].
  rewrite map_flat_map. apply flat_map_ext_in. intros t _.
  rewrite map_flat_map. apply flat_map_ext_in. intros u Hu.
  apply List.filter_In in Hu as [_ Htu]. apply Z.eqb_eq in Htu.
  rewrite filter_map_credits, left_join_map, map_flat_map.
  rewrite List.flat_map_concat_map, List.map_map, <- List.flat_map_concat_map.
  apply flat_map_ext_in. intros c Hc.
  destruct (jsstring_eqb (t_token t) h); [|reflexivity]. cbn [List.map]. f_equal.
  unfold adjust. cbn [join_row ti_user_id].
  destruct c as [c|]; cbn [option_map].
  - assert (Hcu : c_user_id c = t_user_id t).
    { unfold left_join in Hc.
      destruct (List.filter (fun c0 => u_id u =? c_user_id c0) (credits d)) as [|x l] eqn:Hf;
        [destruct Hc as [Hc|[]]; discriminate Hc|].
      apply List.in_map_iff in Hc as (c' & Hc' & Hin). injection Hc' as ->.
      rewrite <- Hf in Hin. apply List.filter_In in Hin as [_ Hin].
      apply Z.eqb_eq in Hin. congruence. }
    rewrite Hcu. destruct (t_user_id t =? userId); reflexivity.
  - destruct (t_user_id t =? userId); reflexivity.
Qed.

Lemma getTokenByHash_rows_tables (d d' : database) (h : jsstring) :
  tokens d' = tokens d -> users d' = users d -> credits d' = credits d ->
  getTokenByHash_rows d' h = getTokenByHash_rows d h.
Proof. intros Ht Hu Hc. unfold getTokenByHash_rows. rewrite Ht, Hu, Hc. reflexivity. Qed.

Lemma head_map {A B : Type} (f : A -> B) (l : list A) :
  List.head (List.map f l) = option_map f (List.head l).
Proof. destruct l; reflexivity. Qed.

(** The row that [getTokenByHash] returns after a committed transaction. *)
Lemma getTokenByHash_transaction (now : clock) (usageData : usage_data) (d : database)
    (h : jsstring) :
  getTokenByHash (usage_transaction now usageData d) h
  = match getUserCredits d (ud_userId usageData) with
    | Some credits0 =>
        option_map
          (adjust (Math_max 0 (c_balance credits0 - cost_of usageData)%Q)
                  (ud_userId usageData))
          (getTokenByHash d h)
    | None => getTokenByHash d h
    end.
Proof.
  unfold getTokenByHash.
  pose proof (transaction_credits now usageData d) as Hc.
  destruct (getUserCredits d (ud_userId usageData)) as [credits0|].
  - rewrite <- head_map, <- getTokenByHash_rows_update. apply (f_equal (@List.head _)).
    apply getTokenByHash_rows_tables;
      [rewrite transaction_tokens; reflexivity
      | rewrite transaction_users; reflexivity | exact Hc].
  - apply (f_equal (@List.head _)). apply getTokenByHash_rows_tables;
      [apply transaction_tokens | apply transaction_users | exact Hc].
Qed.










(** ** X18 *)



(** ** X19 *)

(** X19. A call of [recordUsage] for one user, committed or not, leaves
    what validation returns for the keys of every other user as it was. *)
Theorem validateApiKey_other_user
    (now : clock) (sql_ok : bool) (usageData : usage_data) (apiKey : jsstring)
    (svc svc1 : service) (r : key_info) :
  validateApiKey apiKey svc = (Some r, svc1) ->
  userId r <> ud_userId usageData ->
  fst (validateApiKey apiKey (recordUsage now sql_ok usageData svc)) = Some r.
Proof.
  intros Hv Huser.
  apply validateApiKey_Some in Hv as (d & ti & Hdb & Hget & -> & _).
  cbn [format_token_info userId] in Huser.
  rewrite validateApiKey_unfold.
  pose proof (recordUsage_unfold now sql_ok usageData svc) as Hdb'.
  rewrite Hdb in Hdb'. rewrite Hdb'.
  destruct sql_ok; [|rewrite Hget; reflexivity].
  rewrite getTokenByHash_transaction, Hget.
  destruct (getUserCredits d (ud_userId usageData)) as [credits0|]; [|reflexivity].
  cbn [option_map]. unfold adjust.
  rewrite (proj2 (Z.eqb_neq _ _) Huser). reflexivity.
Qed.

Lemma validateApiKey_other_user_witness :
  let usage8 :=
    {| ud_userId := 8; ud_tokenId := 3; ud_model := str "claude-3-opus";
       ud_inputTokens := Some 40; ud_outputTokens := None;
       ud_cacheCreationTokens := None; ud_cacheReadTokens := None;
       ud_cost := Some 2%Q; ud_requestId := None; ud_endpoint := None;
       ud_statusCode := None |} in
  fst (validateApiKey Sample.TEST_API_KEY
         (recordUsage Sample.noon true usage8 Sample.svc1))
  = Some Sample.info1.
Proof.
  assert (Hv : validateApiKey Sample.TEST_API_KEY Sample.svc1
               = (Some Sample.info1, Sample.svc1_validated))
    by (vm_compute; reflexivity).
  cbv zeta.
  apply (validateApiKey_other_user Sample.noon true _ Sample.TEST_API_KEY
           Sample.svc1 Sample.svc1_validated Sample.info1 Hv).
  vm_compute. discriminate.
Defined.

End AccountingFacts.

Section RollupFacts.
Import Js DatabaseService UsageHistory.










(** ** X20 *)



End RollupFacts.

(* ===================================================================== *)
(** * Properties of [MonitoringService]: the metrics *)
(* ===================================================================== *)

Section MetricsFacts.
Import Js MonitoringService.
Context {A : Double.arithmetic}.

Lemma map_set_keys (k x : jsstring) (v : Z) (m : list (jsstring * Z)) :
  List.In x (List.map fst (map_set k v m)) -> x = k \/ List.In x (List.map fst m).
Proof.
  induction m as [|[k' v'] m IH]; cbn [map_set List.map fst List.In].
  - intros [H|[]]. left. symmetry. exact H.
  - destruct (jsstring_eqb k k'); cbn [List.map fst List.In].
    + intros [H|H]; [left; symmetry; exact H | right; right; exact H].
    + intros [H|H]; [right; left; exact H|].
      destruct (IH H) as [Hk|Hin]; [left; exact Hk | right; right; exact Hin].
Qed.

Lemma map_set_NoDup (k : jsstring) (v : Z) (m : list (jsstring * Z)) :
  List.NoDup (List.map fst m) -> List.NoDup (List.map fst (map_set k v m)).
Proof.
  induction m as [|[k' v'] m IH]; cbn [map_set List.map fst]; intros Hnd.
  - repeat constructor. intros [].
  - inversion Hnd as [|y ys Hnotin Hnd']; subst.
    unfold jsstring_eqb. destruct (bool_decide_reflect (k = k')) as [Hk|Hk];
      cbn [List.map fst].
    + rewrite Hk. exact Hnd.
    + constructor; [|exact (IH Hnd')].
      intros Hin. apply map_set_keys in Hin as [Heq|Hin];
        [apply Hk; symmetry; exact Heq | exact (Hnotin Hin)].
Qed.

Lemma map_set_Forall (P : jsstring * Z -> Prop) (k : jsstring) (v : Z)
    (m : list (jsstring * Z)) :
  P (k, v) -> List.Forall P m -> List.Forall P (map_set k v m).
Proof.
  intros Hk Hm. induction Hm as [|[k' v'] m Hx Hm IH]; cbn [map_set].
  - repeat constructor. exact Hk.
  - destruct (jsstring_eqb k k'); constructor; assumption.
Qed.

Lemma map_get_In (k : jsstring) (n : Z) (m : list (jsstring * Z)) :
  map_get k m = Some n -> List.In (k, n) m.
Proof.
  induction m as [|[k' v'] m IH]; cbn [map_get]; [discriminate|].
  unfold jsstring_eqb. destruct (bool_decide_reflect (k = k')) as [Hk|Hk].
  - intros H. injection H as <-. left. rewrite Hk. reflexivity.
  - intros H. right. exact (IH H).
Qed.

Lemma filter_keys_NoDup (p : jsstring * Z -> bool) (m : list (jsstring * Z)) :
  List.NoDup (List.map fst m) -> List.NoDup (List.map fst (List.filter p m)).
Proof.
  induction m as [|x m IH]; cbn [List.map List.filter]; intros Hnd; [constructor|].
  inversion Hnd as [|y ys Hnotin Hnd']; subst.
  destruct (p x); [|exact (IH Hnd')].
  cbn [List.map]. constructor; [|exact (IH Hnd')].
  intros Hin. apply Hnotin. apply List.in_map_iff in Hin as (z & Hz & Hin).
  apply List.filter_In in Hin as [Hin _]. rewrite <- Hz. apply List.in_map. exact Hin.
Qed.

Lemma filter_length_le {T : Type} (p : T -> bool) (l : list T) :
  (List.length (List.filter p l) <= List.length l)%nat.
Proof.
  induction l as [|x l IH]; cbn [List.filter List.length]; [lia|].
  destruct (p x); cbn [List.length]; lia.
Qed.

Lemma Forall_filter_keep {T : Type} (P : T -> Prop) (p : T -> bool) (l : list T) :
  List.Forall P l -> List.Forall P (List.filter p l).
Proof.
  intros H. induction H as [|x l Hx Hl IH]; cbn [List.filter]; [constructor|].
  destruct (p x); [constructor|]; assumption.
Qed.

Lemma slice_last_length {T : Type} (n : nat) (l : list T) :
  List.length (slice_last n l) = Nat.min n (List.length l).
Proof. unfold slice_last. rewrite List.length_skipn. lia. Qed.

Lemma consistent_new (NODE_ENV : option jsstring) : consistent (new NODE_ENV).
Proof.
  unfold consistent, new. cbn. repeat split; try lia; constructor.
Qed.

Lemma consistent_recordRequest (success0 : bool) (responseTime : Double.double)
    (error : option js_error) (m : monitor) :
  consistent m -> consistent (recordRequest success0 responseTime error m).
Proof.
  intros (Ht & Hs & Hf & Hc & Hcv & Hk & Hq & Hnd & Hpos).
  unfold consistent, recordRequest.
  cbn [metrics with_metrics requests apiKeys errors slowQueries total success failed].
  repeat split; try assumption; try (destruct success0; lia).
  - destruct success0; [exact Hnd|]. destruct error as [e|]; [|exact Hnd].
    apply map_set_NoDup. exact Hnd.
  - destruct success0; [exact Hpos|]. destruct error as [e|]; [|exact Hpos].
    apply map_set_Forall; [|exact Hpos]. cbn [snd].
    destruct (map_get (errorKey_of e) (errors (metrics m))) as [n|] eqn:E;
      cbn [count_or_zero]; [|lia].
    apply map_get_In in E. rewrite List.Forall_forall in Hpos.
    specialize (Hpos _ E). cbn [snd] in Hpos. lia.
Qed.

Lemma consistent_recordApiKeyValidation (success0 cached0 : bool) (m : monitor) :
  consistent m -> consistent (recordApiKeyValidation success0 cached0 m).
Proof.
  intros (Ht & Hs & Hf & Hc & Hcv & Hk & Hq & Hnd & Hpos).
  unfold consistent, recordApiKeyValidation.
  cbn [metrics with_metrics requests apiKeys errors slowQueries].
  destruct success0, cached0; cbn [validated cached keys_failed];
    repeat split; try assumption; lia.
Qed.

Lemma consistent_recordSlowQuery (now : Z) (query0 duration0 : value) (m : monitor) :
  consistent m -> consistent (recordSlowQuery now query0 duration0 m).
Proof.
  intros (Ht & Hs & Hf & Hc & Hcv & Hk & Hq & Hnd & Hpos).
  unfold consistent, recordSlowQuery.
  cbn [metrics with_metrics requests apiKeys errors slowQueries].
  repeat split; try assumption.
  destruct (Nat.ltb_spec 100 (List.length
              (slowQueries (metrics m)
               ++ [{| query := query0; duration := duration0; timestamp := now |}])));
    [rewrite slice_last_length; lia | lia].
Qed.

Lemma consistent_resetMetricsIfNeeded (hour : Z) (dateString : jsstring) (m : monitor) :
  consistent m -> consistent (resetMetricsIfNeeded hour dateString m).
Proof.
  intros H. pose proof H as (Ht & Hs & Hf & Hc & Hcv & Hk & Hq & Hnd & Hpos).
  unfold resetMetricsIfNeeded.
  destruct ((hour =? 0) && negb _).
  - unfold consistent. cbn. repeat split; try assumption; lia.
  - destruct (negb (hour =? 0)); exact H.
Qed.

Lemma consistent_performMemoryCleanup (now : Z) (m : monitor) :
  consistent m -> consistent (performMemoryCleanup now m).
Proof.
  intros (Ht & Hs & Hf & Hc & Hcv & Hk & Hq & Hnd & Hpos).
  unfold consistent, performMemoryCleanup.
  cbn [metrics with_metrics requests apiKeys errors slowQueries].
  repeat split; try assumption.
  - pose proof (filter_length_le (fun q => now - 3600000 <? timestamp q)
                  (slowQueries (metrics m))). lia.
  - apply filter_keys_NoDup. exact Hnd.
  - apply Forall_filter_keep. exact Hpos.
Qed.

(** The metrics after a health check: those of before, or those that the
    clean-up of [checkMemory] leaves. *)
Lemma performHealthCheck_metrics (p : probes) (m : monitor) :
  metrics (snd (performHealthCheck p m))
  = if fst (checkMemory (of_memory p) m) then metrics m
    else metrics (performMemoryCleanup (cleanup_now (of_memory p)) m).
Proof.
  unfold performHealthCheck.
  assert (Hd : metrics (snd (checkDatabase (of_database p) m)) = metrics m
               /\ heapThreshold (snd (checkDatabase (of_database p) m)) = heapThreshold m
               /\ memoryThreshold (snd (checkDatabase (of_database p) m)) = memoryThreshold m).
  { unfold checkDatabase. destruct (db (of_database p)); [|repeat split].
    destruct (select_health (of_database p)); [|repeat split].
    destruct (negb _); [repeat split|].
    destruct (select_count (of_database p)); repeat split. }
  destruct (checkDatabase (of_database p) m) as [database_ok m1].
  cbn [snd] in Hd. destruct Hd as (Hm1 & Hh1 & Ht1).
  assert (Hmem : fst (checkMemory (of_memory p) m1) = fst (checkMemory (of_memory p) m)
                 /\ metrics (snd (checkMemory (of_memory p) m1))
                    = if fst (checkMemory (of_memory p) m) then metrics m
                      else metrics (performMemoryCleanup (cleanup_now (of_memory p)) m)).
  { unfold checkMemory. cbn [fst snd]. rewrite Hh1, Ht1. split; [reflexivity|].
    destruct (_ && _); cbn [metrics with_memory with_healthStatus performMemoryCleanup
                            with_metrics requests apiKeys errors slowQueries];
      rewrite Hm1; reflexivity. }
  destruct (checkMemory (of_memory p) m1) as [memory_ok m2].
  cbn [fst snd] in Hmem. destruct Hmem as [_ Hm2].
  assert (Ha : metrics (snd (checkApiHealth (api_time p) m2)) = metrics m2) by reflexivity.
  destruct (checkApiHealth (api_time p) m2) as [api_ok m3]. cbn [snd] in Ha.
  assert (Hr : metrics (snd (checkRedis (of_redis p) m3)) = metrics m3).
  { unfold checkRedis. destruct (client (of_redis p)) as [c|]; [|reflexivity].
    destruct (ping c); [|reflexivity]. destruct (info c); reflexivity. }
  destruct (checkRedis (of_redis p) m3) as [redis_ok m4]. cbn [snd] in Hr.
  cbn [snd metrics with_healthStatus]. rewrite Hr, Ha. exact Hm2.
Qed.

Lemma consistent_metrics (m m' : monitor) :
  metrics m' = metrics m -> consistent m -> consistent m'.
Proof. unfold consistent. intros ->. exact (fun H => H). Qed.

Lemma consistent_step (e : event) (m : monitor) : consistent m -> consistent (step m e).
Proof.
  intros H. destruct e; cbn [step].
  - apply consistent_recordRequest. exact H.
  - apply consistent_recordApiKeyValidation. exact H.
  - apply consistent_recordSlowQuery. exact H.
  - apply consistent_resetMetricsIfNeeded. exact H.
  - apply consistent_performMemoryCleanup. exact H.
  - pose proof (performHealthCheck_metrics p m) as Hm.
    destruct (fst (checkMemory (of_memory p) m)).
    + exact (consistent_metrics _ _ Hm H).
    + exact (consistent_metrics _ _ Hm (consistent_performMemoryCleanup _ _ H)).
Qed.

(** ** X21 *)

(** X21. The counters of the monitoring service stay consistent. Whatever
    calls of [recordRequest], [recordApiKeyValidation], [recordSlowQuery],
    [resetMetricsIfNeeded], [performMemoryCleanup] and [performHealthCheck]
    follow the constructor, in any order and with any arguments: the total
    of requests is the sum of the successful and the failed ones, no
    counter is negative, the cached validations are at most the validated
    ones, at most 100 slow queries are kept, and the error map holds each
    key once, with a count of at least one. *)
Theorem metrics_consistent (NODE_ENV : option jsstring) (events : list event) :
  consistent (run events (new NODE_ENV)).
Proof.
  unfold run. generalize (consistent_new NODE_ENV). generalize (new NODE_ENV).
  induction events as [|e events IH]; intros m Hm; [exact Hm|].
  cbn [List.fold_left]. apply IH. apply consistent_step. exact Hm.
Qed.

(** ** X22 *)

(** X22. [recordSlowQuery] keeps the newest entries: the list it leaves is
    the end of the old list with the new entry appended, the new entry
    comes last, and the list is never longer than 100 entries, however
    long it was. *)
Theorem recordSlowQuery_keeps_newest (now : Z) (query0 duration0 : value) (m : monitor) :
  let entry := {| query := query0; duration := duration0; timestamp := now |} in
  let kept := slowQueries (metrics (recordSlowQuery now query0 duration0 m)) in
  (exists dropped, slowQueries (metrics m) ++ [entry] = dropped ++ kept) /\
  List.last kept entry = entry /\
  kept <> [] /\
  List.length kept = Nat.min (List.length (slowQueries (metrics m)) + 1) 100.
Proof.
  cbv zeta. unfold recordSlowQuery.
  cbn [metrics with_metrics slowQueries].
  set (entry := {| query := query0; duration := duration0; timestamp := now |}).
  set (pushed := slowQueries (metrics m) ++ [entry]).
  assert (Hlen : List.length pushed = (List.length (slowQueries (metrics m)) + 1)%nat)
    by (unfold pushed; rewrite List.length_app; reflexivity).
  destruct (Nat.ltb_spec 100 (List.length pushed)) as [Hlong|Hshort].
  - unfold slice_last.
    split; [exists (List.firstn (List.length pushed - 100) pushed);
            symmetry; apply List.firstn_skipn|].
    assert (Hskip : List.skipn (List.length pushed - 100) pushed
                    = List.skipn (List.length pushed - 100) (slowQueries (metrics m))
                      ++ [entry]).
    { unfold pushed. rewrite List.skipn_app.
      replace (List.length (slowQueries (metrics m) ++ [entry]) - 100
               - List.length (slowQueries (metrics m)))%nat with 0%nat
        by (rewrite List.length_app; cbn [List.length]; lia).
      reflexivity. }
    rewrite Hskip. split; [apply List.last_last|]. split.
    + intros H. apply List.app_eq_nil in H as [_ H]. discriminate H.
    + rewrite <- Hskip, List.length_skipn. lia.
  - split; [exists []; reflexivity|]. unfold pushed.
    split; [apply List.last_last|]. split.
    + intros H. apply List.app_eq_nil in H as [_ H]. discriminate H.
    + fold pushed. lia.
Qed.

Lemma lastReset_recording (e : event) (m : monitor) :
  recording e = true -> lastReset (step m e) = lastReset m.
Proof.
  destruct e; cbn [recording step]; intros H; try discriminate H; try reflexivity.
  unfold performHealthCheck.
  assert (Hd : lastReset (snd (checkDatabase (of_database p) m)) = lastReset m).
  { unfold checkDatabase. destruct (db (of_database p)); [|reflexivity].
    destruct (select_health (of_database p)); [|reflexivity].
    destruct (negb _); [reflexivity|].
    destruct (select_count (of_database p)); reflexivity. }
  destruct (checkDatabase (of_database p) m) as [database_ok m1]. cbn [snd] in Hd.
  assert (Hmem : lastReset (snd (checkMemory (of_memory p) m1)) = lastReset m1).
  { unfold checkMemory. cbn [snd]. destruct (_ && _); reflexivity. }
  destruct (checkMemory (of_memory p) m1) as [memory_ok m2]. cbn [snd] in Hmem.
  assert (Ha : lastReset (snd (checkApiHealth (api_time p) m2)) = lastReset m2)
    by reflexivity.
  destruct (checkApiHealth (api_time p) m2) as [api_ok m3]. cbn [snd] in Ha.
  assert (Hr : lastReset (snd (checkRedis (of_redis p) m3)) = lastReset m3).
  { unfold checkRedis. destruct (client (of_redis p)) as [c|]; [|reflexivity].
    destruct (ping c); [|reflexivity]. destruct (info c); reflexivity. }
  destruct (checkRedis (of_redis p) m3) as [redis_ok m4]. cbn [snd] in Hr.
  cbn [snd lastReset with_healthStatus]. congruence.
Qed.

Lemma lastReset_run (events : list event) (m : monitor) :
  List.forallb recording events = true -> lastReset (run events m) = lastReset m.
Proof.
  unfold run. revert m. induction events as [|e events IH]; intros m H; [reflexivity|].
  cbn [List.forallb] in H. apply andb_true_iff in H as [He Hes].
  cbn [List.fold_left]. rewrite (IH _ Hes). apply lastReset_recording. exact He.
Qed.

(** ** X23 *)

(** X23. The daily reset happens once per midnight hour. After a call of
    [resetMetricsIfNeeded] in the hour of midnight, a further call in that
    hour changes nothing of the metrics, whatever was recorded in between;
    a call at any other hour never changes the metrics, and after it the
    next call at midnight resets the request and key counters to zero. *)
Theorem resetMetricsIfNeeded_once (dateString dateString' : jsstring) (hour : Z)
    (events : list event) (m : monitor) :
  dateString <> [] ->
  List.forallb recording events = true ->
  hour <> 0 ->
  (let m1 := run events (resetMetricsIfNeeded 0 dateString m) in
   metrics (resetMetricsIfNeeded 0 dateString' m1) = metrics m1) /\
  metrics (resetMetricsIfNeeded hour dateString m) = metrics m /\
  (let m2 := resetMetricsIfNeeded 0 dateString' (resetMetricsIfNeeded hour dateString m) in
   requests (metrics m2) = zero_requests /\ apiKeys (metrics m2) = zero_apiKeys).
Proof.
  intros Hds Hrec Hhour. split; [|split].
  - cbv zeta.
    assert (Hset : exists c s, lastReset (resetMetricsIfNeeded 0 dateString m) = Some (c :: s)).
    { unfold resetMetricsIfNeeded. cbn [Z.eqb andb negb].
      destruct (lastReset m) as [[|c s]|] eqn:E; cbn [negb lastReset].
      - destruct dateString as [|c s]; [contradiction|]. eauto.
      - rewrite E. eauto.
      - destruct dateString as [|c s]; [contradiction|]. eauto. }
    destruct Hset as (c & s & Hset).
    pose proof (lastReset_run events (resetMetricsIfNeeded 0 dateString m) Hrec) as Hrun.
    rewrite Hset in Hrun.
    unfold resetMetricsIfNeeded at 1. rewrite Hrun. reflexivity.
  - unfold resetMetricsIfNeeded. rewrite (proj2 (Z.eqb_neq _ _) Hhour). reflexivity.
  - cbv zeta. unfold resetMetricsIfNeeded.
    rewrite (proj2 (Z.eqb_neq _ _) Hhour). cbn. split; reflexivity.
Qed.

(** ** X24 *)

(** X24. [performMemoryCleanup] compares the values of the error map, which
    are counts, with a time in milliseconds: it drops every error whose
    count is below [Date.now() - 3600000], that is all of them whenever no
    count has come that far. The request and key counters are untouched,
    and of the slow queries exactly those of the last hour remain, in
    their order. *)
Theorem performMemoryCleanup_forgets_errors (now : Z) (m : monitor) :
  List.Forall (fun entry => snd entry < now - 3600000) (errors (metrics m)) ->
  let m' := performMemoryCleanup now m in
  errors (metrics m') = [] /\
  requests (metrics m') = requests (metrics m) /\
  apiKeys (metrics m') = apiKeys (metrics m) /\
  slowQueries (metrics m')
  = List.filter (fun q => now - 3600000 <? timestamp q) (slowQueries (metrics m)) /\
  (forall q, List.In q (slowQueries (metrics m')) <->
             List.In q (slowQueries (metrics m)) /\ now - timestamp q < 3600000).
Proof.
  intros Hall. cbv zeta. unfold performMemoryCleanup.
  cbn [metrics with_metrics requests apiKeys errors slowQueries].
  split; [|split; [reflexivity|split; [reflexivity|split; [reflexivity|]]]].
  - induction Hall as [|entry l Hentry Hl IH]; [reflexivity|]. cbn [List.filter].
    rewrite (proj2 (Z.ltb_lt _ _) Hentry). exact IH.
  - intros q. rewrite List.filter_In, Z.ltb_lt. split; intros [H1 H2]; (split; [exact H1 | lia]).
Qed.

End MetricsFacts.

Section MetricsWitnesses.
Import Js MonitoringService.

Lemma resetMetricsIfNeeded_once_witness :
  let m := @new Double.exact None in
  let events := [@RecordRequest Double.exact true 12%Q None;
                 @RecordApiKeyValidation Double.exact true false] in
  let m1 := run events (resetMetricsIfNeeded 0 (str "Thu Jan 16 2025") m) in
  total (requests (metrics m1)) = 1 /\
  metrics (resetMetricsIfNeeded 0 (str "Thu Jan 16 2025") m1) = metrics m1.
Proof.
  cbv zeta. split; [reflexivity|].
  apply (@resetMetricsIfNeeded_once Double.exact (str "Thu Jan 16 2025") (str "Thu Jan 16 2025") 13
           [@RecordRequest Double.exact true 12%Q None;
            @RecordApiKeyValidation Double.exact true false]
           (@new Double.exact None));
    [discriminate | reflexivity | discriminate].
Defined.

Lemma performMemoryCleanup_forgets_errors_witness :
  let refused := {| code := Some (str "ECONNREFUSED"); message := None |} in
  let m := run [@RecordRequest Double.exact false 30%Q (Some refused);
                @RecordRequest Double.exact false 31%Q (Some refused)]
               (@new Double.exact None) in
  errors (metrics m) = [(str "ECONNREFUSED", 2)] /\
  errors (metrics (performMemoryCleanup 1736942400000 m)) = [].
Proof.
  cbv zeta. split; [reflexivity|].
  apply (@performMemoryCleanup_forgets_errors Double.exact 1736942400000).
  repeat constructor.
Defined.

End MetricsWitnesses.

(* ===================================================================== *)
(** * Properties of [MonitoringService]: Redis info and the health check *)
(* ===================================================================== *)

Section RedisInfoFacts.
Import Js NodePath MonitoringService.

Lemma split_crlf_line (line : jsstring) :
  ~ List.In 13 line -> split_crlf line = [line].
Proof.
  induction line as [|c line IH]; intros Hnot; [reflexivity|].
  assert (Hc : (c =? 13) = false)
    by (apply Z.eqb_neq; intros ->; apply Hnot; left; reflexivity).
  assert (Hline : ~ List.In 13 line) by (intros H; apply Hnot; right; exact H).
  cbn [split_crlf]. destruct line as [|d line]; [reflexivity|].
  rewrite Hc. cbn [andb]. rewrite (IH Hline). reflexivity.
Qed.

Lemma split_crlf_app (line rest : jsstring) :
  ~ List.In 13 line ->
  split_crlf (line ++ 13 :: 10 :: rest) = line :: split_crlf rest.
Proof.
  induction line as [|c line IH]; intros Hnot; [reflexivity|].
  assert (Hc : (c =? 13) = false)
    by (apply Z.eqb_neq; intros ->; apply Hnot; left; reflexivity).
  assert (Hline : ~ List.In 13 line) by (intros H; apply Hnot; right; exact H).
  specialize (IH Hline).
  cbn [List.app split_crlf].
  destruct (line ++ 13 :: 10 :: rest) as [|d s] eqn:E.
  - destruct line; discriminate E.
  - rewrite Hc. cbn [andb]. rewrite IH. reflexivity.
Qed.

Lemma split_crlf_join (lines : list jsstring) :
  List.Forall (fun line => ~ List.In 13 line) lines ->
  lines <> [] ->
  split_crlf (join_crlf lines) = lines.
Proof.
  intros Hall. induction Hall as [|line lines Hline Hlines IH]; intros Hne;
    [contradiction|].
  destruct lines as [|line' lines'].
  - cbn [join_crlf]. apply split_crlf_line. exact Hline.
  - change (join_crlf (line :: line' :: lines'))
      with (line ++ 13 :: 10 :: join_crlf (line' :: lines')).
    rewrite split_crlf_app by exact Hline. rewrite IH by discriminate. reflexivity.
Qed.

Lemma hd_split_on (c : Z) (s : jsstring) :
  List.nth_error (split_on c s) 0 = Some (before c s).
Proof.
  induction s as [|x s IH]; [reflexivity|]. cbn [split_on before].
  destruct (split_on c s) as [|seg segs]; [discriminate IH|].
  cbn [List.nth_error] in IH. injection IH as ->.
  destruct (x =? c); reflexivity.
Qed.

(** The second field of a line that starts with [key:]. *)
Lemma field_of_line (key line : jsstring) :
  ~ List.In colon key ->
  startsWith line (key ++ [colon]) = true ->
  List.nth_error (split_on colon line) 1
  = Some (before colon (List.skipn (List.length key + 1) line)).
Proof.
  intros Hkey Hstart. apply startsWith_app in Hstart as [rest ->].
  rewrite <- List.app_assoc. cbn [List.app].
  rewrite split_on_app, (split_on_segment _ _ Hkey). cbn [List.app List.nth_error].
  replace (List.skipn (List.length key + 1) (key ++ colon :: rest)) with rest.
  - apply hd_split_on.
  - rewrite List.skipn_app, List.skipn_all2 by lia.
    replace (List.length key + 1 - List.length key)%nat with 1%nat by lia. reflexivity.
Qed.

(** ** X25 *)

(** X25. [parseRedisInfo] looks a key up in the lines of a Redis [INFO]
    answer. For lines without carriage return, joined by CR LF, and a key
    without colon, it returns [null] when no line starts with the key and
    a colon, and otherwise, for the first such line, the text after that
    colon up to the next colon or the end of the line: never [undefined],
    and a value with a colon in it is cut at the colon. *)
Theorem parseRedisInfo_lookup (lines : list jsstring) (key : jsstring) :
  List.Forall (fun line => ~ List.In 13 line) lines ->
  ~ List.In colon key ->
  parseRedisInfo (join_crlf lines) key
  = match List.find (fun line => startsWith line (key ++ [colon])) lines with
    | Some line => VString (before colon (List.skipn (List.length key + 1) line))
    | None => VNull
    end.
Proof.
  intros Hlines Hkey. unfold parseRedisInfo.
  destruct lines as [|line0 lines0] eqn:E.
  - cbn [join_crlf split_crlf List.find].
    destruct key; reflexivity.
  - rewrite <- E in *. rewrite split_crlf_join by (assumption || (rewrite E; discriminate)).
    destruct (List.find _ lines) as [line|] eqn:Hfind; [|reflexivity].
    apply List.find_some in Hfind as [_ Hstart].
    rewrite (field_of_line key line Hkey Hstart). reflexivity.
Qed.

Lemma parseRedisInfo_lookup_witness :
  let lines := [str "# Memory"; str "used_memory:1048576";
                str "used_memory_human:1.00M"; str "maxmemory_policy:noeviction"; []] in
  parseRedisInfo (join_crlf lines) (str "used_memory_human") = VString (str "1.00M").
Proof.
  cbv zeta.
  rewrite (parseRedisInfo_lookup
             [str "# Memory"; str "used_memory:1048576";
              str "used_memory_human:1.00M"; str "maxmemory_policy:noeviction"; []]
             (str "used_memory_human")).
  - reflexivity.
  - repeat constructor; vm_compute; intuition discriminate.
  - vm_compute. intuition discriminate.
Defined.

End RedisInfoFacts.

Section HealthFacts.
Import Js MonitoringService.
Context {A : Double.arithmetic}.

Lemma checkRedis_verdict (p : redis_probe) (m : monitor) :
  fst (checkRedis p m) = true <-> redis_answers p.
Proof.
  unfold checkRedis, redis_answers.
  destruct (client p) as [c|].
  - destruct (ping c) as [[]|e] eqn:Hping.
    + destruct (info c) as [info0|e] eqn:Hinfo.
      * split; [intros _; exists c, info0; auto | reflexivity].
      * split; [discriminate|]. intros (c' & i & Hc & _ & Hi).
        injection Hc as <-. rewrite Hinfo in Hi. discriminate Hi.
    + split; [discriminate|]. intros (c' & i & Hc & Hp & _).
      injection Hc as <-. rewrite Hping in Hp. discriminate Hp.
  - split; [discriminate|]. intros (c' & i & Hc & _). discriminate Hc.
Qed.

Lemma checkDatabase_verdict (p : database_probe) (m : monitor) :
  fst (checkDatabase p m) = true <-> database_answers p.
Proof.
  unfold checkDatabase, database_answers.
  destruct (db p) as [d|]; [|split; [intros _; left; reflexivity | reflexivity]].
  destruct (select_health p) as [health|e].
  - destruct (Z.eqb_spec health 1) as [->|Hne]; cbn [negb].
    + destruct (select_count p) as [[]|e].
      * split; [intros _; right; split; reflexivity | reflexivity].
      * split; [discriminate|]. intros [H|[_ H]]; discriminate H.
    + split; [discriminate|]. intros [H|[H _]]; [discriminate H|].
      injection H as H. contradiction.
  - split; [discriminate|]. intros [H|[H _]]; discriminate H.
Qed.

(** What a check leaves of the monitor, besides the entry it writes. *)
Lemma checkDatabase_frame (p : database_probe) (m : monitor) :
  let m' := snd (checkDatabase p m) in
  metrics m' = metrics m /\ heapThreshold m' = heapThreshold m /\
  memoryThreshold m' = memoryThreshold m /\
  redis (services (healthStatus m')) = redis (services (healthStatus m)).
Proof.
  cbv zeta. unfold checkDatabase. destruct (db p); [|repeat split].
  destruct (select_health p); [|repeat split].
  destruct (negb _); [repeat split|].
  destruct (select_count p); repeat split.
Qed.

Lemma checkMemory_verdict (p : memory_probe) (m m' : monitor) :
  heapThreshold m' = heapThreshold m -> memoryThreshold m' = memoryThreshold m ->
  fst (checkMemory p m') = fst (checkMemory p m).
Proof. intros Hh Hm. unfold checkMemory. cbn [fst]. rewrite Hh, Hm. reflexivity. Qed.

Lemma checkMemory_requests (p : memory_probe) (m : monitor) :
  requests (metrics (snd (checkMemory p m))) = requests (metrics m).
Proof. unfold checkMemory. cbn [snd]. destruct (_ && _); reflexivity. Qed.

Lemma checkApiHealth_verdict (now : jsstring) (m m' : monitor) :
  requests (metrics m') = requests (metrics m) ->
  fst (checkApiHealth now m') = fst (checkApiHealth now m).
Proof. intros H. unfold checkApiHealth. cbn [fst]. rewrite H. reflexivity. Qed.

(** The verdict of a health check, and the entry of Redis after it. *)
Lemma performHealthCheck_verdict (p : probes) (m : monitor) :
  healthy (fst (performHealthCheck p m))
  = fst (checkRedis (of_redis p) m) && fst (checkDatabase (of_database p) m)
    && fst (checkMemory (of_memory p) m) && fst (checkApiHealth (api_time p) m)
  /\ healthStatus (snd (performHealthCheck p m)) = fst (performHealthCheck p m)
  /\ redis (services (fst (performHealthCheck p m)))
     = redis (services (healthStatus (snd (checkRedis (of_redis p) m)))).
Proof.
  unfold performHealthCheck.
  pose proof (checkDatabase_frame (of_database p) m) as Hd. cbv zeta in Hd.
  destruct (checkDatabase (of_database p) m) as [database_ok m1] eqn:Edb.
  cbn [fst snd] in *. destruct Hd as (Hm1 & Hh1 & Ht1 & _).
  pose proof (checkMemory_verdict (of_memory p) m m1 Hh1 Ht1) as Hmv.
  pose proof (checkMemory_requests (of_memory p) m1) as Hmr.
  destruct (checkMemory (of_memory p) m1) as [memory_ok m2] eqn:Emem.
  cbn [fst snd] in *.
  assert (Hav : fst (checkApiHealth (api_time p) m2) = fst (checkApiHealth (api_time p) m))
    by (apply checkApiHealth_verdict; rewrite Hmr, Hm1; reflexivity).
  destruct (checkApiHealth (api_time p) m2) as [api_ok m3] eqn:Eapi.
  cbn [fst snd] in *.
  assert (Hrv : fst (checkRedis (of_redis p) m3) = fst (checkRedis (of_redis p) m)
                /\ redis (services (healthStatus (snd (checkRedis (of_redis p) m3))))
                   = redis (services (healthStatus (snd (checkRedis (of_redis p) m))))).
  { unfold checkRedis. destruct (client (of_redis p)) as [c|]; [|split; reflexivity].
    destruct (ping c); [|split; reflexivity]. destruct (info c); split; reflexivity. }
  destruct (checkRedis (of_redis p) m3) as [redis_ok m4] eqn:Eredis.
  cbn [fst snd] in *. destruct Hrv as [Hrv Hre].
  cbn [healthy services healthStatus with_healthStatus List.forallb].
  split; [|split; [reflexivity | exact Hre]].
  rewrite Hrv, Hmv, Hav, andb_true_r.
  destruct (fst (checkRedis (of_redis p) m)), database_ok,
           (fst (checkMemory (of_memory p) m)), (fst (checkApiHealth (api_time p) m));
    reflexivity.
Qed.

Lemma health_status (p : probes) (m : monitor) :
  HealthRoutes.status (fst (health p m))
  = (if healthy (fst (performHealthCheck p m)) then 200 else 503)
  /\ snd (health p m) = snd (performHealthCheck p m).
Proof.
  unfold health. destruct (performHealthCheck p m) as [h m1]. split; reflexivity.
Qed.

(** The handler, when no other health check takes a turn during its own:
    it answers 200 exactly when all four checks pass, and 503 otherwise. *)
Lemma health_verdict (p : probes) (m : monitor) :
  (HealthRoutes.status (fst (health p m)) = 200 <->
   redis_answers (of_redis p) /\ database_answers (of_database p) /\
   fst (checkMemory (of_memory p) m) = true /\
   fst (checkApiHealth (api_time p) m) = true) /\
  (HealthRoutes.status (fst (health p m)) = 200 \/
   HealthRoutes.status (fst (health p m)) = 503).
Proof.
  destruct (health_status p m) as [Hs _].
  destruct (performHealthCheck_verdict p m) as (Hv & _).
  rewrite Hs, Hv, <- (checkRedis_verdict (of_redis p) m),
    <- (checkDatabase_verdict (of_database p) m).
  destruct (fst (checkRedis (of_redis p) m)), (fst (checkDatabase (of_database p) m)),
           (fst (checkMemory (of_memory p) m)), (fst (checkApiHealth (api_time p) m));
    cbn [andb];
    (split; [split; [intros H; try discriminate H; auto
                    |intros (H1 & H2 & H3 & H4);
                     try discriminate H1; try discriminate H2;
                     try discriminate H3; try discriminate H4; reflexivity]
            |auto]).
Qed.

(** ** X27 *)


End HealthFacts.

(* ===================================================================== *)
(** * Properties of [GET /health], turn by turn *)
(* ===================================================================== *)

Section HealthRequestFacts.
Import Js MonitoringService HealthRequests.
Context {A : Double.arithmetic}.

Lemma turns_app (l1 l2 : list action) (w : world) : run (l1 ++ l2) w = run l2 (run l1 w).
Proof. apply List.fold_left_app. Qed.

(** No check writes the overall verdict. *)
Lemma checkDatabase_healthy (p : database_probe) (m : monitor) :
  healthy (healthStatus (snd (checkDatabase p m))) = healthy (healthStatus m).
Proof.
  unfold checkDatabase. destruct (db p); [|reflexivity].
  destruct (select_health p); [|reflexivity].
  destruct (negb _); [reflexivity|]. destruct (select_count p); reflexivity.
Qed.

Lemma checkMemory_healthy (p : memory_probe) (m : monitor) :
  healthy (healthStatus (snd (checkMemory p m))) = healthy (healthStatus m).
Proof. unfold checkMemory. cbn [snd]. destruct (_ && _); reflexivity. Qed.

Lemma checkApiHealth_healthy (now : jsstring) (m : monitor) :
  healthy (healthStatus (snd (checkApiHealth now m))) = healthy (healthStatus m).
Proof. reflexivity. Qed.

Lemma checkDatabase_result (p : database_probe) (m m' : monitor) :
  fst (checkDatabase p m') = fst (checkDatabase p m).
Proof.
  unfold checkDatabase. destruct (db p); [|reflexivity].
  destruct (select_health p); [|reflexivity].
  destruct (negb _); [reflexivity|]. destruct (select_count p); reflexivity.
Qed.

Lemma call_healthy (id : nat) (who : caller) (p : probes) (w : world) :
  healthy (healthStatus (service (call id who p w))) = healthy (healthStatus (service w)).
Proof.
  unfold call.
  set (m0 := match client (of_redis p) with Some _ => service w | None => _ end).
  assert (H0 : healthy (healthStatus m0) = healthy (healthStatus (service w)))
    by (unfold m0; destruct (client (of_redis p)); reflexivity).
  pose proof (checkDatabase_healthy (of_database p) m0) as H1.
  destruct (checkDatabase (of_database p) m0) as [database_ok m1].
  pose proof (checkMemory_healthy (of_memory p) m1) as H2.
  destruct (checkMemory (of_memory p) m1) as [memory_ok m2].
  pose proof (checkApiHealth_healthy (api_time p) m2) as H3.
  destruct (checkApiHealth (api_time p) m2) as [api_ok m3].
  cbn [service snd] in *. congruence.
Qed.

(** Only the turn in which a call resumes after its checks writes the
    overall verdict. *)
Lemma step_healthy (a : action) (w : world) :
  is_resume a = false ->
  healthy (healthStatus (service (step w a))) = healthy (healthStatus (service w)).
Proof.
  destruct a as [id who p|id|id|id|id|p|e]; cbn [is_resume step]; intros Hq;
    try discriminate Hq.
  - destruct (flights w !! id); [reflexivity | apply call_healthy].
  - destruct (flights w !! id) as [[who p c others|who p c others|who p results|]|];
      try reflexivity.
    destruct (ping c); reflexivity.
  - destruct (flights w !! id) as [[who p c others|who p c others|who p results|]|];
      try reflexivity.
    destruct (info c); reflexivity.
  - destruct (flights w !! id) as [[who p c others|who p c others|who p results|]|];
      reflexivity.
  - apply checkMemory_healthy.
  - destruct e; try reflexivity.
    cbn [with_service service MonitoringService.step]. unfold resetMetricsIfNeeded.
    destruct (_ && _); [reflexivity|]. destruct (negb _); reflexivity.
Qed.

Lemma run_healthy (turns : list action) (w : world) :
  List.Forall (fun a => is_resume a = false) turns ->
  healthy (healthStatus (service (run turns w))) = healthy (healthStatus (service w)).
Proof.
  intros H. revert w. induction H as [|a l Ha _ IH]; intros w; [reflexivity|].
  cbn [run List.fold_left]. fold (run l (step w a)). rewrite IH. apply step_healthy. exact Ha.
Qed.

(** The call that has just been made. *)
Lemma call_tracks (id : nat) (who : caller) (p : probes) (w : world) :
  tracks who p (service w) (flights (call id who p w) !! id).
Proof.
  unfold call. set (m := service w).
  set (m0 := match client (of_redis p) with Some _ => m | None => _ end).
  assert (Hm0 : metrics m0 = metrics m /\ heapThreshold m0 = heapThreshold m
                /\ memoryThreshold m0 = memoryThreshold m)
    by (unfold m0; destruct (client (of_redis p)); repeat split).
  destruct Hm0 as (Hmet0 & Hh0 & Ht0).
  pose proof (checkDatabase_frame (of_database p) m0) as Hd. cbv zeta in Hd.
  pose proof (checkDatabase_result (of_database p) m m0) as Hdv.
  destruct (checkDatabase (of_database p) m0) as [database_ok m1].
  cbn [fst snd] in *. destruct Hd as (Hm1 & Hh1 & Ht1 & _).
  assert (Hmv : fst (checkMemory (of_memory p) m1) = fst (checkMemory (of_memory p) m))
    by (apply checkMemory_verdict; congruence).
  pose proof (checkMemory_requests (of_memory p) m1) as Hmr.
  destruct (checkMemory (of_memory p) m1) as [memory_ok m2].
  cbn [fst snd] in *.
  assert (Hav : fst (checkApiHealth (api_time p) m2) = fst (checkApiHealth (api_time p) m))
    by (apply checkApiHealth_verdict; congruence).
  destruct (checkApiHealth (api_time p) m2) as [api_ok m3].
  cbn [fst snd flights] in *. rewrite lookup_insert_eq. unfold results_of.
  subst database_ok memory_ok api_ok.
  destruct (client (of_redis p)) as [c|] eqn:Hc; cbn [tracks List.tl].
  - repeat split; try reflexivity. exact Hc.
  - repeat split; try reflexivity. unfold results_of, checkRedis. rewrite Hc. reflexivity.
Qed.

(** A turn that is not a new call with the same [id] leaves the call in
    progress the one it was. *)
Lemma step_tracks (id : nat) (who : caller) (p : probes) (m : monitor)
    (a : action) (w : world) :
  is_call id a = false ->
  tracks who p m (flights w !! id) ->
  tracks who p m (flights (step w a) !! id).
Proof.
  intros Ha Ht.
  destruct a as [id0 who0 p0|id0|id0|id0|id0|p0|e]; cbn [is_call step] in *.
  - apply Nat.eqb_neq in Ha.
    destruct (flights w !! id0); [exact Ht|]. unfold call.
    destruct (checkDatabase _ _) as [? ?]. destruct (checkMemory _ _) as [? ?].
    destruct (checkApiHealth _ _) as [? ?]. cbn [flights].
    rewrite lookup_insert_ne by congruence. exact Ht.
  - destruct (decide (id0 = id)) as [->|Hne].
    + destruct (flights w !! id) as [[who' p' c others|who' p' c others|who' p' results|]|]
        eqn:Hf; try (rewrite Hf; exact Ht).
      cbn [tracks] in Ht. destruct Ht as (-> & -> & Hc & ->).
      destruct (ping c) as [u|error] eqn:Hp; cbn [flights]; rewrite lookup_insert_eq;
        cbn [tracks].
      * repeat split; trivial. exists u. exact Hp.
      * repeat split. unfold results_of, checkRedis. rewrite Hc, Hp. reflexivity.
    + destruct (flights w !! id0) as [[who' p' c others|who' p' c others|who' p' results|]|];
        try exact Ht.
      destruct (ping c); cbn [flights]; rewrite lookup_insert_ne by exact Hne; exact Ht.
  - destruct (decide (id0 = id)) as [->|Hne].
    + destruct (flights w !! id) as [[who' p' c others|who' p' c others|who' p' results|]|]
        eqn:Hf; try (rewrite Hf; exact Ht).
      cbn [tracks] in Ht. destruct Ht as (-> & -> & Hc & [u Hp] & ->).
      destruct (info c) as [info0|error] eqn:Hi; cbn [flights]; rewrite lookup_insert_eq;
        cbn [tracks]; repeat split; unfold results_of, checkRedis; rewrite Hc, Hp, Hi;
        reflexivity.
    + destruct (flights w !! id0) as [[who' p' c others|who' p' c others|who' p' results|]|];
        try exact Ht.
      destruct (info c); cbn [flights]; rewrite lookup_insert_ne by exact Hne; exact Ht.
  - destruct (decide (id0 = id)) as [->|Hne].
    + destruct (flights w !! id) as [[who' p' c others|who' p' c others|who' p' results|]|]
        eqn:Hf; try (rewrite Hf; exact Ht).
      cbn [flights]. destruct who'.
      * rewrite lookup_insert_eq. exact I.
      * rewrite lookup_delete_eq. exact I.
    + destruct (flights w !! id0) as [[who' p' c others|who' p' c others|who' p' results|]|];
        try exact Ht.
      cbn [flights]. destruct who'.
      * rewrite lookup_insert_ne by exact Hne. exact Ht.
      * rewrite lookup_delete_ne by exact Hne. exact Ht.
  - destruct (decide (id0 = id)) as [->|Hne].
    + destruct (flights w !! id) as [[who' p' c others|who' p' c others|who' p' results|]|]
        eqn:Hf; try (rewrite Hf; exact Ht).
      cbn [flights]. rewrite lookup_delete_eq. exact I.
    + destruct (flights w !! id0) as [[who' p' c others|who' p' c others|who' p' results|]|];
        try exact Ht.
      cbn [flights]. rewrite lookup_delete_ne by exact Hne. exact Ht.
  - exact Ht.
  - destruct e; exact Ht.
Qed.

Lemma run_tracks (id : nat) (who : caller) (p : probes) (m : monitor)
    (turns : list action) (w : world) :
  List.Forall (fun a => is_call id a = false) turns ->
  tracks who p m (flights w !! id) ->
  tracks who p m (flights (run turns w) !! id).
Proof.
  intros H. revert w. induction H as [|a l Ha _ IH]; intros w Ht; [exact Ht|].
  cbn [run List.fold_left]. fold (run l (step w a)). apply IH.
  apply step_tracks; assumption.
Qed.

(** The four results are all [true] exactly when the four checks pass. *)
Lemma results_of_pass (p : probes) (m : monitor) :
  List.forallb (fun result => result) (results_of p m) = true <->
  redis_answers (of_redis p) /\ database_answers (of_database p) /\
  fst (checkMemory (of_memory p) m) = true /\
  fst (checkApiHealth (api_time p) m) = true.
Proof.
  unfold results_of. cbn [List.forallb].
  rewrite <- (checkRedis_verdict (of_redis p) m),
    <- (checkDatabase_verdict (of_database p) m).
  rewrite !andb_true_iff. tauto.
Qed.

Lemma respond_status (h : health_status) :
  HealthRoutes.status (respond h) = (if healthy h then 200 else 503).
Proof. reflexivity. Qed.

(** The three checks that end in the turn of the call leave the entry of
    Redis as it is. *)
Lemma checkDatabase_with_redis (p : database_probe) (m : monitor) (entry : value) :
  checkDatabase p (with_redis m entry)
  = (fst (checkDatabase p m), with_redis (snd (checkDatabase p m)) entry).
Proof.
  unfold checkDatabase. destruct (db p); [|reflexivity].
  destruct (select_health p); [|reflexivity].
  destruct (negb _); [reflexivity|]. destruct (select_count p); reflexivity.
Qed.

Lemma checkMemory_with_redis (p : memory_probe) (m : monitor) (entry : value) :
  checkMemory p (with_redis m entry)
  = (fst (checkMemory p m), with_redis (snd (checkMemory p m)) entry).
Proof.
  unfold checkMemory. cbn [heapThreshold memoryThreshold with_redis with_healthStatus fst snd].
  destruct (_ && _); reflexivity.
Qed.

Lemma checkApiHealth_with_redis (now : jsstring) (m : monitor) (entry : value) :
  checkApiHealth now (with_redis m entry)
  = (fst (checkApiHealth now m), with_redis (snd (checkApiHealth now m)) entry).
Proof. reflexivity. Qed.

(** The turns of a call, each from where the call is. *)
Lemma step_Call (w : world) (id : nat) (who : caller) (p : probes) :
  flights w !! id = None -> step w (Call id who p) = call id who p w.
Proof. intros H. cbn [step]. rewrite H. reflexivity. Qed.

Lemma step_PingSettles (w : world) (id : nat) (who : caller) (p : probes)
    (c : redis_client) (others : list bool) :
  flights w !! id = Some (Pinging who p c others) ->
  step w (PingSettles id)
  = match ping c with
    | Resolved _ =>
        {| service := service w;
           flights := <[id := Informing who p c others]> (flights w);
           responses := responses w |}
    | Rejected error =>
        {| service := with_redis (service w) (redis_failure (of_redis p) error);
           flights := <[id := Settled who p (false :: others)]> (flights w);
           responses := responses w |}
    end.
Proof. intros H. cbn [step]. rewrite H. reflexivity. Qed.

Lemma step_InfoSettles (w : world) (id : nat) (who : caller) (p : probes)
    (c : redis_client) (others : list bool) :
  flights w !! id = Some (Informing who p c others) ->
  step w (InfoSettles id)
  = match info c with
    | Resolved info0 =>
        {| service := with_redis (service w) (redis_success (of_redis p) info0);
           flights := <[id := Settled who p (true :: others)]> (flights w);
           responses := responses w |}
    | Rejected error =>
        {| service := with_redis (service w) (redis_failure (of_redis p) error);
           flights := <[id := Settled who p (false :: others)]> (flights w);
           responses := responses w |}
    end.
Proof. intros H. cbn [step]. rewrite H. reflexivity. Qed.

Lemma step_settled (w : world) (id : nat) (who : caller) (p : probes)
    (results : list bool) (a : action) :
  flights w !! id = Some (Settled who p results) ->
  a = PingSettles id \/ a = InfoSettles id -> step w a = w.
Proof. intros H [->| ->]; cbn [step]; rewrite H; reflexivity. Qed.

Lemma step_Resume (w : world) (id : nat) (p : probes) (results : list bool) :
  flights w !! id = Some (Settled Route p results) ->
  step w (Resume id)
  = {| service :=
         with_healthStatus (service w)
           {| healthy := List.forallb (fun result => result) results;
              lastCheck := VString (check_time p);
              checkDuration := integer (endTime p - startTime p);
              services := services (healthStatus (service w)) |};
       flights := <[id := Returned]> (flights w);
       responses := responses w |}.
Proof. intros H. cbn [step]. rewrite H. reflexivity. Qed.

Lemma step_Respond (w : world) (id : nat) :
  flights w !! id = Some Returned ->
  step w (Respond id)
  = {| service := service w;
       flights := delete id (flights w);
       responses := (id, respond (healthStatus (service w))) :: responses w |}.
Proof. intros H. cbn [step]. rewrite H. reflexivity. Qed.

(** From a call whose checks have settled to the response, with nothing in
    between. *)
Lemma settled_alone (id : nat) (p : probes) (results : list bool) (m : monitor)
    (fl : gmap nat flight) (rs : list (nat * HealthRoutes.response)) :
  fl !! id = None ->
  let h := {| healthy := List.forallb (fun result => result) results;
              lastCheck := VString (check_time p);
              checkDuration := integer (endTime p - startTime p);
              services := services (healthStatus m) |} in
  step (step {| service := m; flights := <[id := Settled Route p results]> fl;
                responses := rs |} (Resume id)) (Respond id)
  = {| service := with_healthStatus m h; flights := fl;
       responses := (id, respond h) :: rs |}.
Proof.
  intros Hfresh h.
  erewrite step_Resume by (cbn [flights]; apply lookup_insert_eq).
  erewrite step_Respond by (cbn [flights]; apply lookup_insert_eq).
  cbn [service flights responses].
  rewrite !insert_insert_eq, (delete_insert_id fl _ _ Hfresh). reflexivity.
Qed.

(** A request that is alone from its call to its response: the five turns
    are the handler of the model in which nothing else runs. *)
Lemma health_alone (id : nat) (p : probes) (w : world) :
  flights w !! id = None ->
  run [Call id Route p; PingSettles id; InfoSettles id; Resume id; Respond id] w
  = {| service := snd (health p (service w));
       flights := flights w;
       responses := (id, fst (health p (service w))) :: responses w |}.
Proof.
  intros Hfresh. destruct w as [m fl rs]. cbn [service flights responses] in *.
  unfold run. cbn [List.fold_left]. rewrite step_Call by exact Hfresh.
  unfold call, health, performHealthCheck, checkRedis. cbn [service flights responses].
  destruct (client (of_redis p)) as [c|].
  - destruct (checkDatabase (of_database p) m) as [database_ok m1].
    destruct (checkMemory (of_memory p) m1) as [memory_ok m2].
    destruct (checkApiHealth (api_time p) m2) as [api_ok m3].
    erewrite step_PingSettles by (cbn [flights]; apply lookup_insert_eq).
    cbn [service flights responses].
    destruct (ping c) as [u|error].
    + erewrite step_InfoSettles by (cbn [flights]; apply lookup_insert_eq).
      cbn [service flights responses].
      destruct (info c) as [info0|error]; rewrite !insert_insert_eq;
        rewrite settled_alone by exact Hfresh; reflexivity.
    + erewrite (step_settled _ _ _ _ _ (InfoSettles id))
        by first [cbn [flights]; apply lookup_insert_eq | right; reflexivity].
      rewrite !insert_insert_eq. rewrite settled_alone by exact Hfresh. reflexivity.
  - rewrite checkDatabase_with_redis.
    destruct (checkDatabase (of_database p) m) as [database_ok m1]. cbn [fst snd].
    rewrite checkMemory_with_redis.
    destruct (checkMemory (of_memory p) m1) as [memory_ok m2]. cbn [fst snd].
    rewrite checkApiHealth_with_redis.
    destruct (checkApiHealth (api_time p) m2) as [api_ok m3]. cbn [fst snd].
    erewrite (step_settled _ _ _ _ _ (PingSettles id))
      by first [cbn [flights]; apply lookup_insert_eq | left; reflexivity].
    erewrite (step_settled _ _ _ _ _ (InfoSettles id))
      by first [cbn [flights]; apply lookup_insert_eq | right; reflexivity].
    rewrite settled_alone by exact Hfresh. reflexivity.
Qed.

(** ** X26 *)

(** X26. [GET /health] answers with the verdict of the health check that
    was the last to resume before the handler did, which is the request's
    own when no other check resumes in between. Whatever the turns taken
    before, during and after: if a check is called, its four checks settle,
    it resumes, and no check resumes from then until the handler of a
    request resumes, then that request is answered 200 exactly when the four
    checks of that check pass, and 503 otherwise: Redis has a client whose
    [ping] and [info] both resolve, the database is absent (Redis-only mode)
    or answers both queries as expected, and the memory and API checks pass
    on the thresholds and request counters the service had when the check
    was called. *)
Theorem health_200_iff
    (before during after : list action) (w0 : world)
    (id : nat) (who : caller) (p : probes) (request : nat) :
  flights (run before w0) !! id = None ->
  List.Forall (fun a => is_call id a = false) during ->
  is_settled (flights (run (before ++ Call id who p :: during) w0) !! id) = true ->
  List.Forall (fun a => is_resume a = false) after ->
  flights (run (before ++ Call id who p :: during ++ Resume id :: after) w0) !! request
  = Some Returned ->
  exists r,
    responses (run (before ++ Call id who p :: during ++ Resume id :: after ++ [Respond request])
                 w0)
    = (request, r)
      :: responses (run (before ++ Call id who p :: during ++ Resume id :: after) w0) /\
    (HealthRoutes.status r = 200 <->
     redis_answers (of_redis p) /\ database_answers (of_database p) /\
     fst (checkMemory (of_memory p) (service (run before w0))) = true /\
     fst (checkApiHealth (api_time p) (service (run before w0))) = true) /\
    (HealthRoutes.status r = 200 \/ HealthRoutes.status r = 503).
Proof.
  intros Hfresh Hduring Hsettled Hafter Hreturned.
  set (wb := run before w0) in *. set (m := service wb).
  assert (Hsplit : forall rest,
            run (before ++ Call id who p :: during ++ Resume id :: rest) w0
            = run rest (step (run during (step wb (Call id who p))) (Resume id))).
  { intros rest. rewrite turns_app. fold wb. cbn [run List.fold_left].
    fold (run (during ++ Resume id :: rest) (step wb (Call id who p))).
    rewrite turns_app. reflexivity. }
  assert (Hw1 : run (before ++ Call id who p :: during) w0
                = run during (step wb (Call id who p))).
  { rewrite turns_app. reflexivity. }
  rewrite Hw1 in Hsettled. rewrite Hsplit in Hreturned. rewrite !Hsplit.
  set (w1 := run during (step wb (Call id who p))) in *.
  assert (Ht : tracks who p m (flights w1 !! id)).
  { apply run_tracks; [exact Hduring|]. cbn [step]. rewrite Hfresh. apply call_tracks. }
  destruct (flights w1 !! id) as [[who' p' c others|who' p' c others|who' p' results|]|]
    eqn:Hf; try discriminate Hsettled.
  cbn [tracks] in Ht. destruct Ht as (-> & -> & ->).
  set (w2 := step w1 (Resume id)) in *.
  assert (Hv2 : healthy (healthStatus (service w2))
                = List.forallb (fun result => result) (results_of p m)).
  { unfold w2. cbn [step]. rewrite Hf. reflexivity. }
  set (w := run after w2) in *.
  assert (Hv : healthy (healthStatus (service w))
               = List.forallb (fun result => result) (results_of p m)).
  { unfold w. rewrite run_healthy by exact Hafter. exact Hv2. }
  exists (respond (healthStatus (service w))).
  rewrite turns_app. fold w. cbn [run List.fold_left step]. rewrite Hreturned.
  cbn [responses]. split; [reflexivity|].
  rewrite respond_status, Hv, <- results_of_pass.
  destruct (List.forallb _ _); split; try tauto; try (right; reflexivity);
    try (left; reflexivity).
  split; [discriminate | discriminate].
Qed.

End HealthRequestFacts.

Section HealthRequestWitnesses.
Import Js MonitoringService HealthRequests HealthSample.

(** The theorem of X26 at a request that is alone. *)
Lemma health_200_iff_witness :
  exists r,
    responses
      (run ([] ++ Call 0 Route passing :: [PingSettles 0; InfoSettles 0] ++ Resume 0 :: []
            ++ [Respond 0]) fresh)
    = (0%nat, r)
      :: responses
           (run ([] ++ Call 0 Route passing :: [PingSettles 0; InfoSettles 0] ++ Resume 0 :: [])
              fresh) /\
    (HealthRoutes.status r = 200 <->
     redis_answers (of_redis passing) /\ database_answers (of_database passing) /\
     fst (checkMemory (of_memory passing) (service (run [] fresh))) = true /\
     fst (checkApiHealth (api_time passing) (service (run [] fresh))) = true) /\
    (HealthRoutes.status r = 200 \/ HealthRoutes.status r = 503).
Proof.
  apply (@health_200_iff Double.exact [] [PingSettles 0; InfoSettles 0] [] fresh
           0%nat Route passing 0%nat);
    [vm_compute; reflexivity | repeat constructor | vm_compute; reflexivity
    | constructor | vm_compute; reflexivity].
Defined.

(** The request that is alone is answered 200. *)
Example health_alone_200 :
  List.map (fun x => (fst x, HealthRoutes.status (snd x))) (responses (run alone fresh))
  = [(0%nat, 200)].
Proof. vm_compute. reflexivity. Qed.

(** Two requests whose checks overlap. The first meets a Redis that
    answers, and its four checks pass: alone, it is answered 200. The second
    meets a Redis that refuses the connection, and its check resumes before
    the handler of the first does: both are answered 503. *)
Example health_overlapping_503 :
  List.map (fun x => (fst x, HealthRoutes.status (snd x)))
    (responses (run overlapping fresh))
  = [(1%nat, 503); (0%nat, 503)]
  /\ results_of passing (service fresh) = [true; true; true; true]
  /\ HealthRoutes.status (fst (health passing (service fresh))) = 200.
Proof. repeat split; vm_compute; reflexivity. Qed.

End HealthRequestWitnesses.

Section HealthWitnesses.
Import Js MonitoringService MonitoringSample.


(** The converse does not hold: with the memory exhausted the service is
    ready and not healthy. *)
Example ready_and_unhealthy :
  let m := @new Double.exact None in
  HealthRoutes.status (fst (health (sample_probes 10) m)) = 503 /\
  HealthRoutes.status
    (HealthRoutes.readiness
       (healthStatus_value (healthStatus (snd (health (sample_probes 10) m))))
       (str "2025-01-15T12:00:01.000Z")) = 200.
Proof. cbv zeta. split; vm_compute; reflexivity. Qed.

End HealthWitnesses.

(* ===================================================================== *)
(** * Properties of the production configuration *)
(* ===================================================================== *)

Section ConfigFacts.
Import Js ProductionConfig.

Lemma missingVars_nil (env : environment) :
  missingVars env = [] <->
  is_set env (str "JWT_SECRET") = true /\ is_set env (str "ENCRYPTION_KEY") = true /\
  is_set env (str "WEB_SESSION_SECRET") = true /\ is_set env (str "REDIS_HOST") = true /\
  is_set env (str "REDIS_PASSWORD") = true.
Proof.
  unfold missingVars, requiredEnvVars. cbn [List.filter].
  destruct (is_set env (str "JWT_SECRET")), (is_set env (str "ENCRYPTION_KEY")),
           (is_set env (str "WEB_SESSION_SECRET")), (is_set env (str "REDIS_HOST")),
           (is_set env (str "REDIS_PASSWORD")); cbn [negb];
    (split; [intros H; try discriminate H; auto
            |intros (H1 & H2 & H3 & H4 & H5);
             try discriminate H1; try discriminate H2; try discriminate H3;
             try discriminate H4; try discriminate H5; reflexivity]).
Qed.

Lemma is_set_Some (env : environment) (varName : jsstring) :
  is_set env varName = true -> exists c s, env varName = Some (c :: s).
Proof.
  unfold is_set. destruct (env varName) as [[|c s]|]; try discriminate. eauto.
Qed.

Lemma long_enough_set (env : environment) (varName : jsstring) :
  long_enough env varName -> is_set env varName = true.
Proof.
  intros (s & Hs & Hlen). unfold is_set. rewrite Hs.
  destruct s; [simpl in Hlen; lia | reflexivity].
Qed.

Lemma suggestion_lines (missing : list jsstring) (name : string) (random : list Z)
    (o : output) :
  List.In o (suggestion missing name random) ->
  o = Log_line (str "Suggested " ++ str name ++ str ": " ++ toString_hex random).
Proof.
  unfold suggestion. destruct (includes missing (str name)); [|intros []].
  intros [H|[]]. symmetry. exact H.
Qed.

(** ** X28 *)

(** X28. The production configuration loads exactly when the five
    required variables are set to non-empty strings and [JWT_SECRET] and
    [ENCRYPTION_KEY] have at least 32 characters; in every other case the
    process exits with code 1, and no error is left uncaught. The check of
    [validateConfig] for the Redis host can never report: a missing
    [REDIS_HOST] is caught by the first check. With nothing missing no
    secret is suggested. *)
Theorem config_loads_iff (env : environment) (random1 random2 random3 : list Z) :
  let required :=
    List.Forall (fun varName => is_set env varName = true) requiredEnvVars /\
    long_enough env (str "JWT_SECRET") /\ long_enough env (str "ENCRYPTION_KEY") in
  let result := load env random1 random2 random3 in
  (required ->
   snd result
   = Loaded {| jwtSecret := env (str "JWT_SECRET");
               encryptionKey := env (str "ENCRYPTION_KEY");
               redis_host := env (str "REDIS_HOST") |} /\ fst result = []) /\
  (~ required -> snd result = Exit 1 /\ fst result <> []) /\
  ~ List.In (Error_line (str "  - REDIS_HOST is required")) (fst result).
Proof.
  cbv zeta. unfold load.
  pose proof (missingVars_nil env) as Hnil.
  destruct (missingVars env) as [|v missing] eqn:Hmissing.
  - destruct (proj1 Hnil eq_refl) as (H1 & H2 & H3 & H4 & H5).
    cbn [List.length Nat.ltb Nat.leb].
    destruct (is_set_Some _ _ H1) as (c1 & s1 & E1).
    destruct (is_set_Some _ _ H2) as (c2 & s2 & E2).
    destruct (is_set_Some _ _ H4) as (c4 & s4 & E4).
    unfold validation_errors. cbn [jwtSecret encryptionKey redis_host].
    rewrite E1, E2, E4. cbn [length_of bind negb List.app].
    destruct (Z.ltb_spec (Z.of_nat (List.length (c1 :: s1))) 32) as [Hj|Hj];
      destruct (Z.ltb_spec (Z.of_nat (List.length (c2 :: s2))) 32) as [Hk|Hk];
      cbn [List.app List.map fst snd].
    + split; [|split].
      * intros (_ & (s & Hs & Hlen) & _). rewrite E1 in Hs. injection Hs as <-. lia.
      * intros _. split; [reflexivity | discriminate].
      * intros [H|[H|[H|[]]]]; discriminate H.
    + split; [|split].
      * intros (_ & (s & Hs & Hlen) & _). rewrite E1 in Hs. injection Hs as <-. lia.
      * intros _. split; [reflexivity | discriminate].
      * intros [H|[H|[]]]; discriminate H.
    + split; [|split].
      * intros (_ & _ & (s & Hs & Hlen)). rewrite E2 in Hs. injection Hs as <-. lia.
      * intros _. split; [reflexivity | discriminate].
      * intros [H|[H|[]]]; discriminate H.
    + split; [|split].
      * intros _. split; [rewrite ?E1, ?E2, ?E4; reflexivity | reflexivity].
      * intros Hnot. exfalso. apply Hnot. split; [|split].
        -- unfold requiredEnvVars. repeat constructor; assumption.
        -- exists (c1 :: s1). split; [exact E1 | lia].
        -- exists (c2 :: s2). split; [exact E2 | lia].
      * intros [].
  - cbn [List.length Nat.ltb Nat.leb fst snd List.app]. split; [|split].
    + intros (Hall & _). exfalso.
      assert (Hv : v :: missing = [] -> False) by discriminate.
      apply Hv, Hnil. unfold requiredEnvVars in Hall.
      inversion Hall as [|? ? G1 Hall1]; subst. inversion Hall1 as [|? ? G2 Hall2]; subst.
      inversion Hall2 as [|? ? G3 Hall3]; subst. inversion Hall3 as [|? ? G4 Hall4]; subst.
      inversion Hall4 as [|? ? G5 _]; subst. auto.
    + intros _. split; [reflexivity | discriminate].
    + intros [H|[H|H]]; try discriminate H.
      apply List.in_app_iff in H as [H|H];
        [|apply List.in_app_iff in H as [H|H]];
        apply suggestion_lines in H; discriminate H.
Qed.

Lemma config_loads_iff_witness :
  let env := fun varName : jsstring =>
    if jsstring_eqb varName (str "JWT_SECRET")
    then Some (str "0123456789abcdef0123456789abcdef")
    else if jsstring_eqb varName (str "ENCRYPTION_KEY")
    then Some (str "fedcba9876543210fedcba9876543210")
    else if jsstring_eqb varName (str "WEB_SESSION_SECRET") then Some (str "s")
    else if jsstring_eqb varName (str "REDIS_HOST") then Some (str "redis")
    else if jsstring_eqb varName (str "REDIS_PASSWORD") then Some (str "p")
    else None in
  fst (load env [] [] []) = [] /\
  exists exported, snd (load env [] [] []) = Loaded exported.
Proof.
  cbv zeta.
  match goal with
  | |- fst (load ?e _ _ _) = _ /\ _ =>
      destruct (config_loads_iff e [] [] []) as (Hyes & _ & _);
      destruct Hyes as [Hsnd Hfst]
  end.
  - split; [|split].
    + repeat constructor.
    + eexists. split; [reflexivity | simpl; lia].
    + eexists. split; [reflexivity | simpl; lia].
  - split; [exact Hfst | eexists; exact Hsnd].
Defined.

End ConfigFacts.
